(** * Text-to-speech pipeline: segmentation, request client, assembly, batch

    A shallow embedding of the TypeScript sources
      - [src/lib/text-processing.ts]  (whitespace normalisation, chunking,
        validation),
      - [src/lib/audio-utils.ts]      (fragment merging, MP3 encoding),
      - [src/hooks/useTTS.ts]         (request client, batch and single
        conversion, voice test, downloads),
      - [src/lib/file-utils.ts] and the upload hook (validation and
        intake of files),
      - the page (the list of outputs it converts, and its preview),
    together with the properties the specification states about them
    and further properties of the code.

    Conventions.
      - A JavaScript string is the list of its UTF-16 code units
        ([list N]); indices and lengths are integers ([Z]), so that the
        [-1] returned by [indexOf] / [lastIndexOf] is an ordinary value.
      - A function that can throw returns a [completion]: the value, or
        the message of the thrown [Error].
      - Loops are driven by an explicit fuel counter; running out of fuel
        is a distinct outcome ([Diverged]), and the theorems about loops
        show that it is never produced. *)

From Stdlib Require Import ZArith QArith List Lia Bool String Ascii.
From Stdlib Require Import Numbers.DecimalString.
From stdpp Require Import list.
Import ListNotations.

Local Open Scope Z_scope.

(** ** JavaScript string primitives *)

Module JS.

(** UTF-16 code units. *)
Abbreviation jsstring := (list N).

Definition SPACE : N := 32%N.
Definition PERIOD : N := 46%N.

(** Transcription of an ASCII literal. *)
Definition lit (s : string) : jsstring :=
  map N_of_ascii (list_ascii_of_string s).

(** [s.length] *)
Definition len (s : jsstring) : Z := Z.of_nat (length s).

(** The class [\s] of regular expressions, which is also the set of
    characters removed by [String.prototype.trim]: the ECMAScript
    WhiteSpace and LineTerminator code points. *)
Definition is_ws (c : N) : bool :=
  ((9 <=? c) && (c <=? 13) || (c =? 32) || (c =? 160) || (c =? 5760)
   || (8192 <=? c) && (c <=? 8202) || (c =? 8232) || (c =? 8233)
   || (c =? 8239) || (c =? 8287) || (c =? 12288) || (c =? 65279))%N.

(** [s[i]], [None] standing for [undefined]. *)
Definition charAt (s : jsstring) (i : Z) : option N :=
  if i <? 0 then None else nth_error s (Z.to_nat i).

Fixpoint dropWhile (p : N -> bool) (s : jsstring) : jsstring :=
  match s with
  | [] => []
  | c :: r => if p c then dropWhile p r else s
  end.

Definition trimStart (s : jsstring) : jsstring := dropWhile is_ws s.
Definition trimEnd (s : jsstring) : jsstring := rev (dropWhile is_ws (rev s)).

(** [s.trim()] *)
Definition trim (s : jsstring) : jsstring := trimEnd (trimStart s).

(** [s.slice(a, b)]: negative arguments count from the end, both ends
    are clamped to the string. *)
Definition clampIndex (n i : Z) : Z :=
  if i <? 0 then Z.max (n + i) 0 else Z.min i n.

Definition slice (s : jsstring) (a b : Z) : jsstring :=
  let from := clampIndex (len s) a in
  let to := clampIndex (len s) b in
  firstn (Z.to_nat (to - from)) (skipn (Z.to_nat from) s).

(** [s.indexOf(c, from)] for a one-character search string: the least
    index [>= from] holding [c], or [-1]. *)
Fixpoint indexOf_from (s : jsstring) (c : N) (from i : Z) : Z :=
  match s with
  | [] => -1
  | x :: r =>
      if (from <=? i) && (x =? c)%N then i
      else indexOf_from r c from (i + 1)
  end.

Definition indexOf (s : jsstring) (c : N) (from : Z) : Z :=
  indexOf_from s c from 0.

(** [s.lastIndexOf(c, from)] for a one-character search string: the
    greatest index [<= from] holding [c], or [-1]; a negative [from]
    is treated as [0]. *)
Fixpoint lastIndexOf_upto (s : jsstring) (c : N) (bound i best : Z) : Z :=
  match s with
  | [] => best
  | x :: r =>
      lastIndexOf_upto r c bound (i + 1)
        (if (i <=? bound) && (x =? c)%N then i else best)
  end.

Definition lastIndexOf (s : jsstring) (c : N) (from : Z) : Z :=
  lastIndexOf_upto s c (Z.max from 0) 0 (-1).

(** [arr.join(sep)] *)
Fixpoint join (sep : jsstring) (parts : list jsstring) : jsstring :=
  match parts with
  | [] => []
  | [p] => p
  | p :: rest => p ++ sep ++ join sep rest
  end.

(** Decimal rendering of an integer inside a template literal. *)
Definition showZ (z : Z) : string := NilEmpty.string_of_int (Z.to_int z).

(** Outcome of a call that may throw. *)
Inductive completion (A : Type) : Type :=
| Returned (a : A)
| Thrown (message : string)
| Diverged.
Arguments Returned {A} a.
Arguments Thrown {A} message.
Arguments Diverged {A}.

End JS.
Import JS.

(** ** [src/lib/text-processing.ts] *)

Module TextProcessing.

Definition CHUNK_SIZE : Z := 4000.

(** [text.replace(/\s{2,}/g, ' ')]: every maximal run of two or more
    whitespace characters becomes one space; a run of length one is
    kept as it is.  [run] is the whitespace run read so far. *)
Definition flushRun (run : jsstring) : jsstring :=
  match run with
  | [] => []
  | [c] => [c]
  | _ :: _ :: _ => [SPACE]
  end.

Fixpoint replaceWsRuns (run : jsstring) (s : jsstring) : jsstring :=
  match s with
  | [] => flushRun run
  | c :: r =>
      if is_ws c then replaceWsRuns (c :: run) r
      else flushRun run ++ c :: replaceWsRuns [] r
  end.

Definition removeExtraWhitespaces (text : jsstring) : jsstring :=
  trim (replaceWsRuns [] text).

(** The message of the error thrown by [splitTextIntoChunks]. *)
Definition tooLargeMessage (maxChunkSize : Z) : string :=
  ("Sentence exceeds chunk size limit of " ++ showZ maxChunkSize
     ++ " characters. " ++ "Consider adding sentence breaks to your text.")%string.

(** The message of the error thrown by the generator [chunkText]. *)
Definition tooLargeMessageStrict : string :=
  "Sentence exceeds chunk size limit of 4000 characters.".

(** One iteration of the [while] loop, up to the computation of
    [endIndex]; the two functions differ in one test only.  [lenient]
    selects the test of [splitTextIntoChunks]
    ([nextPeriodIndex - currentIndex > maxChunkSize * 1.5], written
    without fractions) against that of [chunkText]
    ([nextPeriodIndex - currentIndex > CHUNK_SIZE]).  Chunk sizes are
    integers, as the ones the callers pass. *)
Definition overLimit (lenient : bool) (maxChunkSize distance : Z) : bool :=
  if lenient then 3 * maxChunkSize <? 2 * distance
  else maxChunkSize <? distance.

Definition findEnd (lenient : bool) (t : jsstring) (maxChunkSize currentIndex : Z)
  : option Z :=
  let endIndex := currentIndex + maxChunkSize in
  if endIndex <? len t then
    let periodIndex := lastIndexOf t PERIOD endIndex in
    if currentIndex <? periodIndex then Some (periodIndex + 1)
    else
      let nextPeriodIndex := indexOf t PERIOD endIndex in
      if (nextPeriodIndex =? -1)
         || overLimit lenient maxChunkSize (nextPeriodIndex - currentIndex)
      then None
      else Some (nextPeriodIndex + 1)
  else Some endIndex.

(** [chunks.push(chunk)] guarded by [if (chunk)]. *)
Definition pushNonEmpty (chunks : list jsstring) (chunk : jsstring) : list jsstring :=
  match chunk with
  | [] => chunks
  | _ :: _ => chunks ++ [chunk]
  end.

(** The [while (currentIndex < cleanedText.length)] loop of
    [splitTextIntoChunks]; [fuel] bounds the number of iterations. *)
Fixpoint splitLoop (fuel : nat) (t : jsstring) (maxChunkSize currentIndex : Z)
         (chunks : list jsstring) : completion (list jsstring) :=
  if currentIndex <? len t then
    match fuel with
    | O => Diverged
    | S fuel' =>
        match findEnd true t maxChunkSize currentIndex with
        | None => Thrown (tooLargeMessage maxChunkSize)
        | Some endIndex =>
            let chunk := trim (slice t currentIndex endIndex) in
            splitLoop fuel' t maxChunkSize endIndex (pushNonEmpty chunks chunk)
        end
    end
  else Returned chunks.

(** The loop is given as many iterations as the cleaned text has
    characters, which is all it can use
    ([splitTextIntoChunks_terminates]). *)
Definition splitTextIntoChunks (text : jsstring) (maxChunkSize : Z)
  : completion (list jsstring) :=
  let cleanedText := removeExtraWhitespaces text in
  splitLoop (length cleanedText) cleanedText maxChunkSize 0 [].

(** The generator [chunkText], run to its end: the chunks it yields,
    in order, and how the iteration finishes ([Returned tt] when the
    generator is done, [Thrown] when [next()] throws). *)
Fixpoint chunkLoop (fuel : nat) (t : jsstring) (currentIndex : Z)
         (yielded : list jsstring) : list jsstring * completion unit :=
  if currentIndex <? len t then
    match fuel with
    | O => (yielded, Diverged)
    | S fuel' =>
        match findEnd false t CHUNK_SIZE currentIndex with
        | None => (yielded, Thrown tooLargeMessageStrict)
        | Some endIndex =>
            let chunk := trim (slice t currentIndex endIndex) in
            chunkLoop fuel' t endIndex (pushNonEmpty yielded chunk)
        end
    end
  else (yielded, Returned tt).

Definition chunkText (text : jsstring) : list jsstring * completion unit :=
  let normalizedText := removeExtraWhitespaces text in
  chunkLoop (length normalizedText) normalizedText 0 [].

(** [validateTextForTTS]: the record [{ valid, error? }]. *)
Record validation := { valid : bool; error : option string }.


(** A number that is an integer, [Infinity] or [NaN]. *)
Inductive quantity : Type :=
| Count (z : Z)
| Infinite
| Undefined.

(** [estimateChunkCount]: [Math.ceil(cleanedText.length / maxChunkSize)].
    The quotient of a length by a non-zero integer is rounded up exactly;
    a zero divisor gives [Infinity], or [NaN] for [0 / 0]. *)
Definition estimateChunkCount (text : jsstring) (maxChunkSize : Z) : quantity :=
  let cleanedText := removeExtraWhitespaces text in
  if maxChunkSize =? 0 then
    if len cleanedText =? 0 then Undefined else Infinite
  else Count (- ((- len cleanedText) / maxChunkSize)).

End TextProcessing.
Import TextProcessing.

(** ** [src/lib/audio-utils.ts] *)

Module AudioUtils.

(** The bytes of an [ArrayBuffer]. *)
Abbreviation ArrayBuffer := (list Byte.byte).

(** [new Blob(parts, { type })] *)
Record Blob := { blobBytes : list Byte.byte; blobType : string }.

Definition concatenateBuffers (buffers : list ArrayBuffer) : Blob :=
  {| blobBytes := concat buffers; blobType := "audio/mp3" |}.

Section WebAudio.

(** Sample values ([Float32]); merging only copies them. *)
Variable Sample : Type.

(** A decoded [AudioBuffer]: its sample rate and one array per channel,
    all of the same length. *)
Record AudioBuffer := { sampleRate : Z; channelData : list (list Sample) }.

Definition numberOfChannels (b : AudioBuffer) : nat := length (channelData b).

Definition bufferLength (b : AudioBuffer) : nat :=
  match channelData b with
  | [] => 0%nat
  | c :: _ => length c
  end.

(** The platform's decoder ([AudioContext.decodeAudioData], [None] when
    its promise rejects) and the MP3 encoder built on [lamejs]
    ([audioBufferToMp3]). *)
Variable decodeAudioData : ArrayBuffer -> option AudioBuffer.
Variable audioBufferToMp3 : AudioBuffer -> Blob.

(** The decoding loop: the first rejection ends it. *)
Fixpoint decodeAll (buffers : list ArrayBuffer) : option (list AudioBuffer) :=
  match buffers with
  | [] => Some []
  | buffer :: rest =>
      match decodeAudioData buffer with
      | None => None
      | Some decoded =>
          match decodeAll rest with
          | None => None
          | Some decodedBuffers => Some (decoded :: decodedBuffers)
          end
      end
  end.

(** The merged buffer: created with the channel count and the sample
    rate of the first decoded buffer and the summed length, then filled
    channel by channel; the offset advances by the length of each
    decoded buffer, so that every channel ends up as the concatenation
    of the corresponding channels. *)
Definition mergedBuffer (first : AudioBuffer) (decodedBuffers : list AudioBuffer)
  : AudioBuffer :=
  {| sampleRate := sampleRate first;
     channelData :=
       map (fun channel =>
              concat (map (fun decoded => nth channel (channelData decoded) [])
                          decodedBuffers))
           (seq 0 (numberOfChannels first)) |}.

(** The part of [mergeAudioBuffers] after decoding.  [createBuffer]
    refuses a zero channel count or length ([NotSupportedError]), and
    [getChannelData(channel)] refuses a channel a decoded buffer does not
    have ([IndexSizeError]); a platform exception is rendered by its
    name. *)
Definition mergeDecoded (decodedBuffers : list AudioBuffer) : completion Blob :=
  match decodedBuffers with
  | [] => Thrown "TypeError"
  | first :: _ =>
      let totalLength := list_sum (map bufferLength decodedBuffers) in
      if (numberOfChannels first =? 0)%nat || (totalLength =? 0)%nat
      then Thrown "NotSupportedError"
      else if forallb (fun decoded =>
                         (numberOfChannels first <=? numberOfChannels decoded)%nat)
                      decodedBuffers
      then Returned (audioBufferToMp3 (mergedBuffer first decodedBuffers))
      else Thrown "IndexSizeError"
  end.

Definition mergeAudioBuffers (buffers : list ArrayBuffer) : completion Blob :=
  match buffers with
  | [] => Thrown "No audio buffers to merge"
  | [buffer] => Returned {| blobBytes := buffer; blobType := "audio/mp3" |}
  | _ :: _ :: _ =>
      match decodeAll buffers with
      | None => Thrown "EncodingError"
      | Some decodedBuffers => mergeDecoded decodedBuffers
      end
  end.

End WebAudio.

Arguments sampleRate {Sample} _.
Arguments channelData {Sample} _.
Arguments numberOfChannels {Sample} _.
Arguments bufferLength {Sample} _.
Arguments decodeAll {Sample} _ _.
Arguments mergedBuffer {Sample} _ _.
Arguments mergeDecoded {Sample} _ _.
Arguments mergeAudioBuffers {Sample} _ _ _.

(** A small codec to run the merge on: the first byte of a fragment is
    its sample rate in kHz, the other bytes are the samples of its one
    channel; the encoder writes the samples back. *)
Definition sampleDecoder (buffer : ArrayBuffer) : option (AudioBuffer Byte.byte) :=
  match buffer with
  | [] => None
  | rate :: samples =>
      Some {| sampleRate := 1000 * Z.of_N (Byte.to_N rate);
              channelData := [samples] |}
  end.

Definition sampleEncoder (b : AudioBuffer Byte.byte) : Blob :=
  {| blobBytes := concat (channelData b); blobType := "audio/mp3" |}.

End AudioUtils.
Import AudioUtils.

(** ** [src/hooks/useTTS.ts] *)

Module UseTTS.

(** A number handed to a progress callback: an integer, or [NaN]. *)
Inductive jsnum : Type :=
| Num (z : Z)
| NaN.

(** [Math.round(a / b)] for integers [a] and [b <> 0]: the integer
    nearest to the quotient, halves going up, that is
    [floor (a / b + 1/2)].  The quotient of two integers is a half-integer
    only when it is one exactly, so the double-precision division does
    not change the result as long as [|a| < 2^52]. *)
Definition roundDiv (a b : Z) : Z := (2 * a + b) / (2 * b).

(** The event axios passes to [onDownloadProgress]. *)
Record ProgressEvent := { loaded : Z; total : option Z }.

(** The percentage [onDownloadProgress] reports for a chunk of
    [textLength] characters; [loaded] and [total] are byte counts.  A
    missing or zero [total] is falsy and selects the estimate; there a
    division by zero gives [Infinity] (capped to 95 by [Math.min]) or,
    for [0 / 0], [NaN]. *)
Definition estimatedPercentage (textLength loaded : Z) : jsnum :=
  let estimatedTotal := textLength * 50 in
  if estimatedTotal =? 0 then
    if loaded =? 0 then NaN else Num 95
  else Num (Z.min 95 (roundDiv (loaded * 100) estimatedTotal)).

Definition downloadPercentage (textLength : Z) (progressEvent : ProgressEvent) : jsnum :=
  match total progressEvent with
  | Some totalBytes =>
      if totalBytes =? 0 then estimatedPercentage textLength (loaded progressEvent)
      else Num (roundDiv (loaded progressEvent * 100) totalBytes)
  | None => estimatedPercentage textLength (loaded progressEvent)
  end.

(** Toasts. *)
Inductive Variant := variant_default | variant_destructive.
Record Toast := { title : string; description : string; variant : Variant }.

Definition errorToast (message : string) : Toast :=
  {| title := "Error"; description := message; variant := variant_destructive |}.

(** How [axios.post] can fail: an axios error, with the status of the
    response when there is one ([error.response?.status]), or any other
    exception. *)
Inductive Failure : Type :=
| AxiosError (status : option Z)
| OtherError.

(** What the network does with one request: the download progress
    events it raises and how the request ends. *)
Record RequestOutcome := {
  downloadProgress : list ProgressEvent;
  response : ArrayBuffer + Failure
}.

Definition statusMessage (status : option Z) : string :=
  match status with
  | Some 401 => "Invalid API key. Please check your OpenAI API key."
  | Some 429 => "Rate limit exceeded. Please try again later."
  | Some 500 => "OpenAI service error. Please try again later."
  | _ => "Failed to generate speech."
  end.

Definition failureMessage (failure : Failure) : string :=
  match failure with
  | AxiosError status => statusMessage status
  | OtherError => "An unexpected error occurred while generating speech."
  end.

(** The handle [URL.createObjectURL] returns, identified with the blob it
    designates. *)
Inductive ObjectURL : Type := createObjectURL (blob : Blob).

Inductive Status := status_pending | status_processing | status_success | status_error.
Inductive SourceType := source_file | source_merged | source_text.

Record AudioOutput := {
  id : string;
  name : string;
  filename : string;
  sourceType : SourceType;
  text : jsstring;
  audioUrl : option ObjectURL;
  status : Status;
  error : option string
}.

(** A value passed to [setProgress]: a literal, or one of the two
    floating-point expressions of [convertMultiple], kept unevaluated:
    [Math.floor((completedItems / totalItems) * 100)] and
    [Math.min(100, Math.floor(((completedItems + (j + chunkProgress / 100)
    / chunks.length) / totalItems) * 100))]. *)
Inductive ProgressValue : Type :=
| Exactly (z : Z)
| ItemsDone (completedItems totalItems : Z)
| WithinItem (completedItems : Z) (j chunks : nat) (totalItems : Z) (chunkProgress : jsnum).

(** Observable effects. *)
Inductive Event : Type :=
| Request (input : jsstring) (chunkIndex : nat)
| ToastShown (t : Toast)
| ProgressSet (p : ProgressValue)
| ProcessingSet (b : bool)
| Reported (outputs : list AudioOutput).

(** An effect of [convertMultiple], with the item in whose iteration it
    happens, if any. *)
Inductive Effect : Type :=
| Outside (e : Event)
| During (item : nat) (e : Event).

(** [sendTextForTTS]: the fragment or [null], and the effects of the
    call.  [onProgress] is the optional callback, given by its effects. *)
Definition sendTextForTTS (input : jsstring) (chunkIndex : nat)
           (onProgress : option (jsnum -> list Event)) (outcome : RequestOutcome)
  : option ArrayBuffer * list Event :=
  let textLength := len input in
  let progress :=
    match onProgress with
    | Some callback =>
        flat_map (fun progressEvent =>
                    callback (downloadPercentage textLength progressEvent))
                 (downloadProgress outcome)
    | None => []
    end in
  match response outcome with
  | inl data => (Some data, Request input chunkIndex :: progress)
  | inr failure =>
      (None,
       Request input chunkIndex :: progress
         ++ [ToastShown (errorToast (failureMessage failure))])
  end.

Definition chunkFailedMessage (j : nat) : string :=
  ("Failed to generate audio for chunk " ++ showZ (Z.of_nat j + 1))%string.

Definition isBlank (s : jsstring) : bool :=
  (len s =? 0) || (len (trim s) =? 0).

Definition markBlank (output : AudioOutput) : AudioOutput :=
  {| id := id output; name := name output; filename := filename output;
     sourceType := sourceType output; text := text output;
     audioUrl := audioUrl output;
     status := status_error; error := Some "No text to convert"%string |}.

Definition markProcessing (output : AudioOutput) : AudioOutput :=
  {| id := id output; name := name output; filename := filename output;
     sourceType := sourceType output; text := text output;
     audioUrl := audioUrl output;
     status := status_processing; error := error output |}.

Definition markSuccess (output : AudioOutput) (newAudioUrl : ObjectURL) : AudioOutput :=
  {| id := id output; name := name output; filename := filename output;
     sourceType := sourceType output; text := text output;
     audioUrl := Some newAudioUrl;
     status := status_success; error := error output |}.

Definition markError (output : AudioOutput) (errorMessage : string) : AudioOutput :=
  {| id := id output; name := name output; filename := filename output;
     sourceType := sourceType output; text := text output;
     audioUrl := audioUrl output;
     status := status_error; error := Some errorMessage |}.

Definition isSuccess (o : AudioOutput) : bool :=
  match status o with status_success => true | _ => false end.

Definition successToast (successCount : nat) : Toast :=
  {| title := "Success";
     description :=
       ("Generated " ++ showZ (Z.of_nat successCount) ++ " audio file"
          ++ (if (1 <? successCount)%nat then "s" else "")
          ++ " successfully!")%string;
     variant := variant_default |}.

Record BatchState := {
  updatedOutputs : list AudioOutput;
  completedItems : Z;
  trace : list Effect
}.

Section Batch.

(** [mergeBuffers]: byte concatenation in one revision of the hook,
    concatenation for one fragment and [mergeAudioBuffers] otherwise in
    the other. *)
Variable mergeBuffers : list ArrayBuffer -> completion Blob.
(** Whether [convertMultiple] passes a progress callback to
    [sendTextForTTS] (the revision that reports download progress). *)
Variable reportChunkProgress : bool.
(** The outcome of the request for chunk [j] of item [i]. *)
Variable network : nat -> nat -> RequestOutcome.

(** The inner [for] loop: one request per chunk, in order; a [null]
    answer throws. *)
Fixpoint requestChunks (i : nat) (completed totalItems : Z) (count : nat)
         (chunks : list jsstring) (j : nat) (audioBuffers : list ArrayBuffer)
  : completion (list ArrayBuffer) * list Event :=
  match chunks with
  | [] => (Returned audioBuffers, [])
  | chunk :: rest =>
      let onProgress :=
        if reportChunkProgress
        then Some (fun chunkProgress =>
                     [ProgressSet (WithinItem completed j count totalItems chunkProgress)])
        else None in
      let '(audioData, events) := sendTextForTTS chunk j onProgress (network i j) in
      match audioData with
      | Some data =>
          let '(result, later) :=
            requestChunks i completed totalItems count rest (S j) (audioBuffers ++ [data]) in
          (result, events ++ later)
      | None => (Thrown (chunkFailedMessage j), events)
      end
  end.

(** The body of the [try] block up to [URL.createObjectURL]. *)
Definition synthesize (i : nat) (completed totalItems : Z) (output : AudioOutput)
  : completion ObjectURL * list Event :=
  let cleanedText := removeExtraWhitespaces (text output) in
  match splitTextIntoChunks cleanedText TextProcessing.CHUNK_SIZE with
  | Thrown message => (Thrown message, [])
  | Diverged => (Diverged, [])
  | Returned chunks =>
      match requestChunks i completed totalItems (length chunks) chunks 0 [] with
      | (Returned audioBuffers, events) =>
          match mergeBuffers audioBuffers with
          | Returned mergedAudioBlob => (Returned (createObjectURL mergedAudioBlob), events)
          | Thrown message => (Thrown message, events)
          | Diverged => (Diverged, events)
          end
      | (Thrown message, events) => (Thrown message, events)
      | (Diverged, events) => (Diverged, events)
      end
  end.

(** One iteration of the outer [for] loop.  ([Diverged] cannot come out
    of [synthesize] unless [mergeBuffers] produces it; the item is then
    left as it is.) *)
Definition convertItem (totalItems : Z) (st : BatchState) (i : nat) : BatchState :=
  match updatedOutputs st !! i with
  | None => st
  | Some output =>
      if isBlank (text output) then
        let outputs1 := <[i := markBlank output]> (updatedOutputs st) in
        {| updatedOutputs := outputs1;
           completedItems := completedItems st;
           trace := trace st ++ [During i (Reported outputs1)] |}
      else
        let outputs1 := <[i := markProcessing output]> (updatedOutputs st) in
        let trace1 := trace st ++ [During i (Reported outputs1)] in
        match synthesize i (completedItems st) totalItems output with
        | (Returned newAudioUrl, events) =>
            let outputs2 := <[i := markSuccess output newAudioUrl]> outputs1 in
            let completed := completedItems st + 1 in
            {| updatedOutputs := outputs2;
               completedItems := completed;
               trace := trace1
                          ++ map (During i)
                               (events ++ [ProgressSet (ItemsDone completed totalItems);
                                           Reported outputs2]) |}
        | (Thrown errorMessage, events) =>
            let outputs2 := <[i := markError output errorMessage]> outputs1 in
            {| updatedOutputs := outputs2;
               completedItems := completedItems st;
               trace := trace1 ++ map (During i) (events ++ [Reported outputs2]) |}
        | (Diverged, events) =>
            {| updatedOutputs := outputs1;
               completedItems := completedItems st;
               trace := trace1 ++ map (During i) events |}
        end
  end.

Definition convertMultiple (apiKey : string) (outputs : list AudioOutput)
  : list AudioOutput * list Effect :=
  match apiKey with
  | EmptyString =>
      (outputs, [Outside (ToastShown (errorToast "Please enter your OpenAI API key."))])
  | String _ _ =>
      let totalItems := Z.of_nat (length outputs) in
      let st0 := {| updatedOutputs := outputs; completedItems := 0;
                    trace := [Outside (ProcessingSet true);
                              Outside (ProgressSet (Exactly 0))] |} in
      let st := fold_left (convertItem totalItems) (seq 0 (length outputs)) st0 in
      let successCount := length (List.filter isSuccess (updatedOutputs st)) in
      (updatedOutputs st,
       trace st
         ++ [Outside (ProcessingSet false); Outside (ProgressSet (Exactly 100))]
         ++ (if (0 <? successCount)%nat
             then [Outside (ToastShown (successToast successCount))]
             else []))
  end.

End Batch.

(** The two revisions of [mergeBuffers]. *)
Definition mergeBuffersConcat (buffers : list ArrayBuffer) : completion Blob :=
  Returned (concatenateBuffers buffers).

Definition mergeBuffersDecoding {Sample : Type}
           (decodeAudioData : ArrayBuffer -> option (AudioBuffer Sample))
           (audioBufferToMp3 : AudioBuffer Sample -> Blob)
           (buffers : list ArrayBuffer) : completion Blob :=
  match buffers with
  | [_] => Returned (concatenateBuffers buffers)
  | _ => mergeAudioBuffers decodeAudioData audioBufferToMp3 buffers
  end.

(** Sample data: an item typed by the user, and two request outcomes
    without progress events. *)
Definition typedItem (label content : string) : AudioOutput :=
  {| id := label; name := label; filename := label;
     sourceType := source_text; text := lit content;
     audioUrl := None; status := status_pending; error := None |}.

Definition delivered (data : ArrayBuffer) : RequestOutcome :=
  {| downloadProgress := []; response := inl data |}.

Definition refused (httpStatus : Z) : RequestOutcome :=
  {| downloadProgress := []; response := inr (AxiosError (Some httpStatus)) |}.

End UseTTS.

(** ** [src/hooks/useTTS.ts]: the single conversion, the voice test, the downloads *)

(** These are taken from the revision of the hook whose requests report
    no download progress: [sendTextForTTS] is called without a
    callback. *)
Module UseTTSControls.

Import UseTTS.

Definition TEST_TEXT : jsstring := lit "This is a test of the selected voice.".

(** What these controls do besides the effects [convertMultiple] has:
    [setProgress(Math.min(100, Math.floor(((i + 1) / totalChunks) * 100)))]
    after chunk [i] (the expression is kept unevaluated, [done] is
    [i + 1]), the updates of [audioUrl], [testAudioUrl] and [isTesting],
    [URL.revokeObjectURL], and the click on a download link. *)
Inductive HookEvent : Type :=
| Shared (e : Event)
| ChunksDone (done totalChunks : nat)
| AudioUrlSet (url : option ObjectURL)
| TestAudioUrlSet (url : option ObjectURL)
| TestingSet (b : bool)
| Revoked (url : ObjectURL)
| LinkClicked (href : ObjectURL) (download : string).

(** [cleanupBlobUrl]: the new content of the ref, and the revocation. *)
Definition cleanupBlobUrl (current : option ObjectURL)
  : option ObjectURL * list HookEvent :=
  match current with
  | Some url => (None, [Revoked url])
  | None => (current, [])
  end.

Definition generatedToast : Toast :=
  {| title := "Success"; description := "Audio generated successfully!";
     variant := variant_default |}.

Definition voiceTestToast : Toast :=
  {| title := "Success"; description := "Voice test generated successfully!";
     variant := variant_default |}.

Section Conversion.

Variable mergeBuffers : list ArrayBuffer -> completion Blob.
(** The outcome of the request for chunk [i]. *)
Variable outcomes : nat -> RequestOutcome.

(** The [for] loop of [convertToSpeech]. *)
Fixpoint speakChunks (totalChunks : nat) (chunks : list jsstring) (i : nat)
         (audioBuffers : list ArrayBuffer)
  : completion (list ArrayBuffer) * list HookEvent :=
  match chunks with
  | [] => (Returned audioBuffers, [])
  | chunk :: rest =>
      let '(audioData, events) := sendTextForTTS chunk i None (outcomes i) in
      match audioData with
      | Some data =>
          let '(result, later) :=
            speakChunks totalChunks rest (S i) (audioBuffers ++ [data]) in
          (result, map Shared events ++ ChunksDone (S i) totalChunks :: later)
      | None => (Thrown (chunkFailedMessage i), map Shared events)
      end
  end.

(** The body of the [try] block up to [URL.createObjectURL]. *)
Definition speak (text : jsstring) : completion ObjectURL * list HookEvent :=
  let cleanedText := removeExtraWhitespaces text in
  match splitTextIntoChunks cleanedText TextProcessing.CHUNK_SIZE with
  | Thrown message => (Thrown message, [])
  | Diverged => (Diverged, [])
  | Returned chunks =>
      match speakChunks (length chunks) chunks 0 [] with
      | (Returned audioBuffers, events) =>
          match mergeBuffers audioBuffers with
          | Returned mergedAudioBlob => (Returned (createObjectURL mergedAudioBlob), events)
          | Thrown message => (Thrown message, events)
          | Diverged => (Diverged, events)
          end
      | (Thrown message, events) => (Thrown message, events)
      | (Diverged, events) => (Diverged, events)
      end
  end.

(** [convertToSpeech], from the content of [audioUrlRef]: the content it
    leaves there, and the effects. *)
Definition convertToSpeech (apiKey : string) (audioUrlRef : option ObjectURL)
           (text : jsstring) : option ObjectURL * list HookEvent :=
  if isBlank text then
    (audioUrlRef, [Shared (ToastShown (errorToast "Please enter text to convert."))])
  else
    match apiKey with
    | EmptyString =>
        (audioUrlRef,
         [Shared (ToastShown (errorToast "Please enter your OpenAI API key."))])
    | String _ _ =>
        let '(cleared, revocation) := cleanupBlobUrl audioUrlRef in
        let start :=
          [Shared (ProgressSet (Exactly 0)); Shared (ProcessingSet true)]
            ++ revocation ++ [AudioUrlSet None] in
        let finally :=
          [Shared (ProcessingSet false); Shared (ProgressSet (Exactly 100))] in
        match speak text with
        | (Returned newAudioUrl, events) =>
            (Some newAudioUrl,
             start ++ events
               ++ [AudioUrlSet (Some newAudioUrl); Shared (ToastShown generatedToast)]
               ++ finally)
        | (Thrown errorMessage, events) =>
            (cleared,
             start ++ events ++ [Shared (ToastShown (errorToast errorMessage))]
               ++ finally)
        | (Diverged, events) => (cleared, start ++ events)
        end
    end.

End Conversion.

(** [testVoice], from the content of [testAudioUrlRef] and the outcome
    of its one request. *)
Definition testVoice (apiKey : string) (testAudioUrlRef : option ObjectURL)
           (outcome : RequestOutcome) : option ObjectURL * list HookEvent :=
  match apiKey with
  | EmptyString =>
      (testAudioUrlRef,
       [Shared (ToastShown (errorToast "Please enter your OpenAI API key."))])
  | String _ _ =>
      let '(cleared, revocation) := cleanupBlobUrl testAudioUrlRef in
      let start := TestingSet true :: revocation ++ [TestAudioUrlSet None] in
      let '(audioData, events) := sendTextForTTS TEST_TEXT 0 None outcome in
      match audioData with
      | Some data =>
          let newTestAudioUrl :=
            createObjectURL {| blobBytes := data; blobType := "audio/mp3" |} in
          (Some newTestAudioUrl,
           start ++ map Shared events
             ++ [TestAudioUrlSet (Some newTestAudioUrl);
                 Shared (ToastShown voiceTestToast);
                 TestingSet false])
      | None => (cleared, start ++ map Shared events ++ [TestingSet false])
      end
  end.

(** [String.prototype.endsWith] *)
Definition endsWith (s suffix : string) : bool :=
  let units := list_ascii_of_string s in
  let wanted := list_ascii_of_string suffix in
  (length wanted <=? length units)%nat
  && String.eqb (string_of_list_ascii (skipn (length units - length wanted) units))
                suffix.

(** The name given to the download: the [download] attribute of the link. *)
Definition downloadName (filename : string) : string :=
  if endsWith filename ".mp3" then filename else (filename ++ ".mp3")%string.

(** [downloadAudio], from the [audioUrl] of the state; the parameter
    defaults to ["generated_audio.mp3"]. *)
Definition downloadAudio (audioUrl : option ObjectURL) (filename : option string)
  : list HookEvent :=
  match audioUrl with
  | None => [Shared (ToastShown (errorToast "No audio available to download."))]
  | Some url =>
      [LinkClicked url
         (downloadName (match filename with
                        | Some given => given
                        | None => "generated_audio.mp3"%string
                        end))]
  end.

Definition downloadFromUrl (url : ObjectURL) (filename : string) : list HookEvent :=
  [LinkClicked url (downloadName filename)].

(** [reset], from the contents of the two refs. *)
Definition reset (audioUrlRef testAudioUrlRef : option ObjectURL)
  : (option ObjectURL * option ObjectURL) * list HookEvent :=
  let '(cleared, revocation) := cleanupBlobUrl audioUrlRef in
  let '(clearedTest, revocationTest) := cleanupBlobUrl testAudioUrlRef in
  ((cleared, clearedTest),
   revocation ++ revocationTest
     ++ [AudioUrlSet None; TestAudioUrlSet None;
         Shared (ProgressSet (Exactly 0)); Shared (ProcessingSet false);
         TestingSet false]).

End UseTTSControls.

(** ** [src/lib/file-utils.ts] *)

Module FileUtils.

Definition MAX_FILE_SIZE : Z := 5 * 1024 * 1024.

(** What the code reads of a [File]. *)
Record File := { fileName : string; fileType : string; fileSize : Z }.

(** [x.toFixed(1)] for the quotient [x] of [a >= 0] by a power of two
    [b]: the quotient is exact in double precision, and [toFixed] takes
    the decimal with one fraction digit nearest to it, the larger of two
    equally near ones. *)
Definition toFixed1 (a b : Z) : string :=
  let n := (20 * a + b) / (2 * b) in
  (showZ (n / 10) ++ "." ++ showZ (n mod 10))%string.

Definition formatFileSize (bytes : Z) : string :=
  if bytes <? 0 then "0 B"%string
  else if bytes <? 1024 then (showZ bytes ++ " B")%string
  else if bytes <? 1024 * 1024 then (toFixed1 bytes 1024 ++ " KB")%string
  else (toFixed1 bytes (1024 * 1024) ++ " MB")%string.

(** [toLowerCase], on the letters of ASCII; the lower-case form of any
    other letter is not an ASCII character, so that the test for a suffix
    made of ASCII characters is the same. *)
Definition lowerAscii (c : ascii) : ascii :=
  let n := nat_of_ascii c in
  if (65 <=? n)%nat && (n <=? 90)%nat then ascii_of_nat (n + 32) else c.

Definition toLowerCase (s : string) : string :=
  string_of_list_ascii (map lowerAscii (list_ascii_of_string s)).

Record FileValidationResult := { valid : bool; error : option string }.

Definition validateFile (file : File) : FileValidationResult :=
  let name := toLowerCase (fileName file) in
  if negb (UseTTSControls.endsWith name ".txt") then
    {| valid := false; error := Some "Only .txt files are allowed"%string |}
  else if negb (String.eqb (fileType file) "")
          && negb (String.eqb (fileType file) "text/plain") then
    {| valid := false; error := Some "Only text files are allowed"%string |}
  else if MAX_FILE_SIZE <? fileSize file then
    {| valid := false;
       error := Some ("File size (" ++ formatFileSize (fileSize file)
                        ++ ") exceeds maximum allowed size ("
                        ++ formatFileSize MAX_FILE_SIZE ++ ")")%string |}
  else if fileSize file =? 0 then
    {| valid := false; error := Some "File is empty"%string |}
  else {| valid := true; error := None |}.

End FileUtils.

(** ** The upload hook [useFileUpload] *)

Module UseFileUpload.

Import FileUtils.

Definition MAX_FILES : Z := 10.

Inductive FileStatus := file_pending | file_reading | file_success | file_error.

Record UploadedFile := {
  id : string;
  name : string;
  size : Z;
  content : jsstring;
  status : FileStatus;
  error : option string
}.

Inductive UploadEvent : Type :=
| Toasted (t : UseTTS.Toast)
| LoadingSet (b : bool).

Definition isSuccess (f : UploadedFile) : bool :=
  match status f with file_success => true | _ => false end.

Definition isError (f : UploadedFile) : bool :=
  match status f with file_error => true | _ => false end.

Definition totalSize (files : list UploadedFile) : Z :=
  fold_left (fun sum file => sum + size file) files 0.

(** The separator of the merged texts: two line feeds. *)
Definition BLANK_LINE : jsstring := [10%N; 10%N].

Definition mergedContent (files : list UploadedFile) : jsstring :=
  join BLANK_LINE
       (List.filter (fun content => 0 <? len content)
          (map (fun file => trim (content file))
             (List.filter (fun file => isSuccess file && negb (len (content file) =? 0))
                          files))).

Section Upload.

(** [readFileAsText]: the text of the file, or the message of the error
    its promise is rejected with. *)
Variable readFileAsText : File -> jsstring + string.

Definition processFile (fileId : string) (file : File) : UploadedFile :=
  let validation := validateFile file in
  if negb (valid validation) then
    {| id := fileId; name := fileName file; size := fileSize file; content := [];
       status := file_error; error := FileUtils.error validation |}
  else
    match readFileAsText file with
    | inl text =>
        {| id := fileId; name := fileName file; size := fileSize file; content := text;
           status := file_success; error := None |}
    | inr errorMessage =>
        {| id := fileId; name := fileName file; size := fileSize file; content := [];
           status := file_error; error := Some errorMessage |}
    end.

(** [generateFileId], by the rank of the call within one [addFiles]. *)
Variable generateFileId : nat -> string.

Fixpoint processAll (rank : nat) (filesToProcess : list File) : list UploadedFile :=
  match filesToProcess with
  | [] => []
  | file :: rest => processFile (generateFileId rank) file :: processAll (S rank) rest
  end.

(** [addFiles], from the list of the state: the new list and the
    effects.  One call runs at a time. *)
Definition addFiles (files : list UploadedFile) (fileArray : list File)
  : list UploadedFile * list UploadEvent :=
  match fileArray with
  | [] => (files, [])
  | _ :: _ =>
      let currentCount := Z.of_nat (length files) in
      let availableSlots := MAX_FILES - currentCount in
      if availableSlots <=? 0 then
        (files,
         [Toasted (UseTTS.errorToast
                     ("Maximum of " ++ showZ MAX_FILES ++ " files allowed."))])
      else
        let filesToProcess := firstn (Z.to_nat availableSlots) fileArray in
        let warning :=
          if (length filesToProcess <? length fileArray)%nat then
            [Toasted
               {| UseTTS.title := "Warning";
                  UseTTS.description :=
                    ("Only " ++ showZ (Z.of_nat (length filesToProcess)) ++ " of "
                       ++ showZ (Z.of_nat (length fileArray))
                       ++ " files will be added (max " ++ showZ MAX_FILES
                       ++ " files).")%string;
                  UseTTS.variant := UseTTS.variant_default |}]
          else [] in
        let processedFiles := processAll 0 filesToProcess in
        let errorFiles := List.filter isError processedFiles in
        let successFiles := List.filter isSuccess processedFiles in
        let failed :=
          match errorFiles with
          | [] => []
          | [only] =>
              [Toasted
                 {| UseTTS.title := "Some files failed";
                    UseTTS.description :=
                      match error only with Some message => message | None => "" end;
                    UseTTS.variant := UseTTS.variant_destructive |}]
          | _ :: _ :: _ =>
              [Toasted
                 {| UseTTS.title := "Some files failed";
                    UseTTS.description :=
                      (showZ (Z.of_nat (length errorFiles))
                         ++ " files failed to upload. Check the file list for details.")%string;
                    UseTTS.variant := UseTTS.variant_destructive |}]
          end in
        let uploaded :=
          match successFiles with
          | [] => []
          | _ :: _ =>
              [Toasted
                 {| UseTTS.title := "Files uploaded";
                    UseTTS.description :=
                      (showZ (Z.of_nat (length successFiles)) ++ " file(s) uploaded ("
                         ++ formatFileSize (totalSize successFiles) ++ ").")%string;
                    UseTTS.variant := UseTTS.variant_default |}]
          end in
        (files ++ processedFiles,
         warning ++ [LoadingSet true] ++ failed ++ uploaded ++ [LoadingSet false])
  end.

End Upload.

Definition removeFile (files : list UploadedFile) (fileId : string) : list UploadedFile :=
  List.filter (fun file => negb (String.eqb (id file) fileId)) files.

Definition clearFiles (files : list UploadedFile) : list UploadedFile := [].

End UseFileUpload.

(** ** The page: [handleConvert] *)

Module TTSPage.

Import UseTTS.

(** One code unit against a letter, whatever its case, as a regular
    expression with the flag [i] compares them. *)
Definition sameLetter (c : ascii) (lower upper : ascii) : bool :=
  Ascii.eqb c lower || Ascii.eqb c upper.

(** [name.replace(/\.txt$/i, '')] *)
Definition stripTxt (name : string) : string :=
  let units := list_ascii_of_string name in
  let n := length units in
  match skipn (n - 4) units with
  | [dot; t1; x; t2] =>
      if Ascii.eqb dot "." && sameLetter t1 "t" "T" && sameLetter x "x" "X"
         && sameLetter t2 "t" "T"
      then string_of_list_ascii (firstn (n - 4) units)
      else name
  | _ => name
  end.

Definition fileOutput (file : UseFileUpload.UploadedFile) : AudioOutput :=
  {| id := UseFileUpload.id file;
     name := stripTxt (UseFileUpload.name file);
     filename := (stripTxt (UseFileUpload.name file) ++ "_audio.mp3")%string;
     sourceType := source_file;
     text := UseFileUpload.content file;
     audioUrl := None; status := status_pending; error := None |}.

Definition mergedOutput (mergedFilename : string) (mergedText : jsstring) : AudioOutput :=
  {| id := "merged"; name := "Merged"; filename := mergedFilename;
     sourceType := source_merged; text := mergedText;
     audioUrl := None; status := status_pending; error := None |}.

Definition textOutput (typed : jsstring) : AudioOutput :=
  {| id := "text-input"; name := "Text Input"; filename := "text_input_audio.mp3";
     sourceType := source_text; text := typed;
     audioUrl := None; status := status_pending; error := None |}.

Definition isMerged (o : AudioOutput) : bool :=
  match sourceType o with source_merged => true | _ => false end.

(** The assignment to the fields of the object [outputs.find] returns:
    the first merged output of the list is changed where it stands. *)
Fixpoint updateMerged (mergedText : jsstring) (outputs : list AudioOutput)
  : list AudioOutput :=
  match outputs with
  | [] => []
  | o :: rest =>
      if isMerged o then
        {| id := id o; name := name o; filename := "all_merged_audio.mp3";
           sourceType := sourceType o; text := mergedText;
           audioUrl := audioUrl o; status := status o; error := error o |} :: rest
      else o :: updateMerged mergedText rest
  end.

(** The list [handleConvert] builds and hands to [convertMultiple]. *)
Definition buildOutputs (files : list UseFileUpload.UploadedFile) (inputText : jsstring)
  : list AudioOutput :=
  let successFiles := List.filter UseFileUpload.isSuccess files in
  let typed := trim inputText in
  let outputs1 :=
    match successFiles with
    | [] => []
    | _ :: _ =>
        map fileOutput successFiles
          ++ (if (2 <=? length successFiles)%nat then
                let mergedText :=
                  join UseFileUpload.BLANK_LINE (map UseFileUpload.content successFiles) in
                let baseNames :=
                  firstn 3 (map (fun f => stripTxt (UseFileUpload.name f)) successFiles) in
                [mergedOutput (String.concat "_" baseNames ++ "_merged_audio.mp3")
                              mergedText]
              else [])
    end in
  let outputs2 :=
    if (0 <? len typed) && (length successFiles =? 0)%nat
    then outputs1 ++ [textOutput typed]
    else outputs1 in
  if (0 <? len typed) && (0 <? length successFiles)%nat then
    let outputs3 := textOutput typed :: outputs2 in
    match find isMerged outputs3 with
    | Some _ =>
        updateMerged
          (join UseFileUpload.BLANK_LINE
                (typed :: map UseFileUpload.content successFiles))
          outputs3
    | None =>
        match successFiles with
        | [only] =>
            outputs3
              ++ [mergedOutput
                    ("text_" ++ stripTxt (UseFileUpload.name only) ++ "_merged_audio.mp3")
                    (join UseFileUpload.BLANK_LINE [typed; UseFileUpload.content only])]
        | _ => outputs3
        end
    end
  else outputs2.

(** [handleConvert]: the list is shown, by [setAudioOutputs], then
    converted, with [setAudioOutputs] as [onProgress]. *)
Definition handleConvert (mergeBuffers : list ArrayBuffer -> completion Blob)
           (reportChunkProgress : bool) (network : nat -> nat -> RequestOutcome)
           (apiKey : string) (files : list UseFileUpload.UploadedFile)
           (inputText : jsstring) : list AudioOutput * list Effect :=
  let outputs := buildOutputs files inputText in
  let '(final, effects) :=
    convertMultiple mergeBuffers reportChunkProgress network apiKey outputs in
  (final, Outside (Reported outputs) :: effects).

(** [combinedText], the text the page shows before the conversion. *)
Definition combinedText (files : list UseFileUpload.UploadedFile) (inputText : jsstring)
  : jsstring :=
  join UseFileUpload.BLANK_LINE
       (List.filter (fun part => 0 <? len part)
                    [trim inputText; UseFileUpload.mergedContent files]).

(** [canConvert]: whether the button that runs [handleConvert] is
    enabled. *)
Definition canConvert (apiKey : string) (isProcessing : bool)
           (files : list UseFileUpload.UploadedFile) (inputText : jsstring) : bool :=
  let hasContent := 0 <? len (combinedText files inputText) in
  hasContent && (0 <? String.length apiKey)%nat && negb isProcessing.

End TTSPage.

(** ** [src/lib/audio-utils.ts]: the MP3 encoding *)

Module Mp3Encoding.

(** The value of an element of a [Float32Array].  The products below
    are of such a value, 24 significant bits, by an integer of 15 or 16
    bits, and are exact in double precision; rationals render them. *)
Inductive float : Type :=
| Finite (q : Q)
| PlusInfinity
| MinusInfinity
| NotANumber.

Definition isNegative (q : Q) : bool := negb (Qle_bool 0 q).

(** [Math.max(-1, Math.min(1, x))] *)
Definition clampUnit (x : float) : float :=
  match x with
  | Finite q =>
      if Qle_bool q (-1) then Finite (-1)
      else if Qle_bool 1 q then Finite 1
      else Finite q
  | PlusInfinity => Finite 1
  | MinusInfinity => Finite (-1)
  | NotANumber => NotANumber
  end.

(** [sample < 0 ? sample * 0x8000 : sample * 0x7FFF] *)
Definition scale (sample : float) : float :=
  match sample with
  | Finite q =>
      if isNegative q then Finite (q * inject_Z 32768) else Finite (q * inject_Z 32767)
  | PlusInfinity => PlusInfinity
  | MinusInfinity => MinusInfinity
  | NotANumber => NotANumber
  end.

(** The store into an [Int16Array]: [NaN] and the infinities become 0,
    a finite number is truncated toward zero and taken modulo 2^16 into
    the signed range. *)
Definition toInt16 (v : float) : Z :=
  match v with
  | Finite q =>
      let truncated := Z.quot (Qnum q) (Zpos (Qden q)) in
      (truncated + 32768) mod 65536 - 32768
  | _ => 0
  end.

Definition floatTo16BitPCM (input : list float) : list Z :=
  map (fun x => toInt16 (scale (clampUnit x))) input.

Definition sampleBlockSize : nat := 1152.

(** The values [i] takes in [for (let i = 0; i < numSamples; i +=
    sampleBlockSize)]. *)
Definition blockStarts (numSamples : nat) : list nat :=
  map (fun k => (k * sampleBlockSize)%nat)
      (seq 0 ((numSamples + (sampleBlockSize - 1)) / sampleBlockSize)).

(** [typed.subarray(i, Math.min(i + sampleBlockSize, numSamples))] *)
Definition subarray (typed : list Z) (i numSamples : nat) : list Z :=
  firstn (Nat.min (i + sampleBlockSize) numSamples - i) (skipn i typed).

Section Encoder.

(** The [lamejs] encoder: its state, its constructor, [encodeBuffer]
    with one channel or two, and [flush]. *)
Variable Encoder : Type.
Variable Mp3Encoder : nat -> Z -> Z -> Encoder.
Variable encodeBuffer : Encoder -> list Z -> option (list Z) -> Encoder * list Byte.byte.
Variable flush : Encoder -> list Byte.byte.

(** One call of [encodeBuffer]. *)
Definition Call : Type := (list Z * option (list Z))%type.

Fixpoint encodeBlocks (numChannels : nat) (leftInt16 rightInt16 : list Z)
         (numSamples : nat) (starts : list nat) (mp3encoder : Encoder)
  : (Encoder * list (list Byte.byte)) * list Call :=
  match starts with
  | [] => ((mp3encoder, []), [])
  | i :: later =>
      let leftChunk := subarray leftInt16 i numSamples in
      let rightChunk := subarray rightInt16 i numSamples in
      let call :=
        if (numChannels =? 1)%nat then (leftChunk, None)
        else (leftChunk, Some rightChunk) in
      let '(next, mp3buf) := encodeBuffer mp3encoder (fst call) (snd call) in
      let '((final, mp3Data), calls) :=
        encodeBlocks numChannels leftInt16 rightInt16 numSamples later next in
      ((final, if (0 <? length mp3buf)%nat then mp3buf :: mp3Data else mp3Data),
       call :: calls)
  end.

(** [audioBufferToMp3]: the blob, and the calls of [encodeBuffer] in
    order.  [getChannelData(0)] throws for a buffer without channels. *)
Definition audioBufferToMp3 (audioBuffer : AudioBuffer float)
  : completion Blob * list Call :=
  match channelData audioBuffer with
  | [] => (Thrown "IndexSizeError", [])
  | leftChannel :: others =>
      let numChannels := numberOfChannels audioBuffer in
      let rightChannel :=
        match others with
        | second :: _ => second
        | [] => leftChannel
        end in
      let leftInt16 := floatTo16BitPCM leftChannel in
      let rightInt16 := floatTo16BitPCM rightChannel in
      let mp3encoder := Mp3Encoder numChannels (sampleRate audioBuffer) 128 in
      let numSamples := length leftInt16 in
      let '((final, mp3Data), calls) :=
        encodeBlocks numChannels leftInt16 rightInt16 numSamples
                     (blockStarts numSamples) mp3encoder in
      let mp3End := flush final in
      let all := mp3Data ++ (if (0 <? length mp3End)%nat then [mp3End] else []) in
      (Returned {| blobBytes := concat all; blobType := "audio/mp3" |}, calls)
  end.

End Encoder.

End Mp3Encoding.

(** ** The page as it was before the hooks: [splitTextAndProcess] *)

Module LegacyPage.

Import UseTTS.

(** The page's own [removeExtraWhitespaces]: the replacement, without
    the trimming. *)
Definition removeExtraWhitespaces (text : jsstring) : jsstring :=
  replaceWsRuns [] text.

(** The effects of the hook, and
    [setProgress(Math.min(100, Math.floor((currentIndex / data.length) * 100)))],
    the expression kept unevaluated. *)
Inductive PageEvent : Type :=
| Hook (e : UseTTSControls.HookEvent)
| PositionReached (currentIndex dataLength : Z).

Definition failedToast : Toast :=
  errorToast "Failed to generate speech. Please check your API key and try again.".

(** The page's own [sendTextForTTS]: every failure gets the same toast,
    and [undefined] is returned. *)
Definition sendTextForTTS (input : jsstring) (chunkIndex : nat) (outcome : RequestOutcome)
  : option ArrayBuffer * list PageEvent :=
  match response outcome with
  | inl data => (Some data, [Hook (UseTTSControls.Shared (Request input chunkIndex))])
  | inr _ =>
      (None,
       [Hook (UseTTSControls.Shared (Request input chunkIndex));
        Hook (UseTTSControls.Shared (ToastShown failedToast))])
  end.

Section Process.

(** The outcome of the request numbered [chunkCount]. *)
Variable outcomes : nat -> RequestOutcome.

(** The [while] loop: a chunk that gets no audio is passed over. *)
Fixpoint processLoop (fuel : nat) (data : jsstring) (currentIndex : Z) (chunkCount : nat)
         (audioBuffers : list ArrayBuffer)
  : completion (list ArrayBuffer) * list PageEvent :=
  if currentIndex <? len data then
    match fuel with
    | O => (Diverged, [])
    | S fuel' =>
        match findEnd false data 4000 currentIndex with
        | None => (Thrown tooLargeMessageStrict, [])
        | Some endIndex =>
            let chunk := trim (slice data currentIndex endIndex) in
            let '(audioData, events) := sendTextForTTS chunk chunkCount (outcomes chunkCount) in
            let pushed :=
              match audioData with
              | Some fragment => audioBuffers ++ [fragment]
              | None => audioBuffers
              end in
            let '(result, later) :=
              processLoop fuel' data endIndex (S chunkCount) pushed in
            (result, events ++ PositionReached endIndex (len data) :: later)
        end
    end
  else (Returned audioBuffers, []).

(** [splitTextAndProcess], from the [audioUrl] of the state: the
    [audioUrl] it leaves, and the effects. *)
Definition splitTextAndProcess (apiKey : string) (audioUrl : option ObjectURL)
           (inputText : jsstring) : option ObjectURL * list PageEvent :=
  if (len inputText =? 0) || String.eqb apiKey "" then
    (audioUrl,
     [Hook (UseTTSControls.Shared
              (ToastShown (errorToast "Please enter both text and API key.")))])
  else
    let start :=
      [Hook (UseTTSControls.Shared (ProgressSet (Exactly 0)));
       Hook (UseTTSControls.Shared (ProcessingSet true))] in
    let finally :=
      [Hook (UseTTSControls.Shared (ProcessingSet false));
       Hook (UseTTSControls.Shared (ProgressSet (Exactly 100)))] in
    let data := removeExtraWhitespaces inputText in
    match processLoop (length data) data 0 0 [] with
    | (Returned audioBuffers, events) =>
        let newAudioUrl :=
          createObjectURL {| blobBytes := concat audioBuffers; blobType := "audio/mp3" |} in
        (Some newAudioUrl,
         start ++ events
           ++ [Hook (UseTTSControls.AudioUrlSet (Some newAudioUrl));
               Hook (UseTTSControls.Shared (ToastShown UseTTSControls.generatedToast))]
           ++ finally)
    | (Thrown errorMessage, events) =>
        (audioUrl,
         start ++ events
           ++ [Hook (UseTTSControls.Shared (ToastShown (errorToast errorMessage)))]
           ++ finally)
    | (Diverged, events) => (audioUrl, start ++ events)
    end.

End Process.

End LegacyPage.

(** ** Notions used to state the properties *)

(** *** Shape of the normalised text *)

(** No two neighbouring characters are both whitespace. *)
Fixpoint single_spaced (l : jsstring) : Prop :=
  match l with
  | [] => True
  | a :: r =>
      match r with
      | [] => True
      | b :: _ => is_ws a && is_ws b = false
      end /\ single_spaced r
  end.

(** The reading of "no run of non-whitespace characters longer than
    [limit] without a period": every stretch of characters that are
    neither whitespace nor periods has at most [limit] characters.
    [run] is the length of the stretch being read. *)
Fixpoint plainRunsWithin (limit run : Z) (s : jsstring) : bool :=
  match s with
  | [] => true
  | c :: r =>
      if is_ws c || (c =? PERIOD)%N then plainRunsWithin limit 0 r
      else (run + 1 <=? limit) && plainRunsWithin limit (run + 1) r
  end.

(** A decision procedure for "every period that does not end the text is
    followed by a space". *)
Definition periodsSpaced (t : jsstring) : bool :=
  forallb
    (fun i =>
       match nth_error t i, nth_error t (S i) with
       | Some c, Some d => negb (c =? PERIOD)%N || (d =? SPACE)%N
       | _, _ => true
       end)
    (seq 0 (length t)).

(** What the loop has established when it is about to cut the chunk
    starting at [currentIndex]. *)
Definition rejoined (t : jsstring) (currentIndex : Z) (chunks : list jsstring) : Prop :=
  0 <= currentIndex
  /\ join [SPACE] chunks = firstn (Z.to_nat currentIndex) t
  /\ map trim chunks = chunks
  /\ (currentIndex = 0 -> chunks = [])
  /\ (0 < currentIndex ->
      chunks <> [] /\
      (currentIndex < len t -> charAt t (currentIndex - 1) = Some PERIOD)).

(** *** What the batch does to one item *)

(** The fragments of the chunks, or the failure of the first request
    that returns [null]: the value of the inner loop of [synthesize],
    without its effects. *)
Fixpoint fetchChunks (outcomes : nat -> UseTTS.RequestOutcome)
         (chunks : list jsstring) (j : nat) (audioBuffers : list ArrayBuffer)
  : completion (list ArrayBuffer) :=
  match chunks with
  | [] => Returned audioBuffers
  | _ :: rest =>
      match UseTTS.response (outcomes j) with
      | inl data => fetchChunks outcomes rest (S j) (audioBuffers ++ [data])
      | inr _ => Thrown (UseTTS.chunkFailedMessage j)
      end
  end.

(** The value of [synthesize] for an item whose requests end as
    [outcomes] tells. *)
Definition conversion (mergeBuffers : list ArrayBuffer -> completion Blob)
           (outcomes : nat -> UseTTS.RequestOutcome) (output : UseTTS.AudioOutput)
  : completion UseTTS.ObjectURL :=
  match splitTextIntoChunks (removeExtraWhitespaces (UseTTS.text output)) CHUNK_SIZE with
  | Thrown message => Thrown message
  | Diverged => Diverged
  | Returned chunks =>
      match fetchChunks outcomes chunks 0 [] with
      | Returned audioBuffers =>
          match mergeBuffers audioBuffers with
          | Returned blob => Returned (UseTTS.createObjectURL blob)
          | Thrown message => Thrown message
          | Diverged => Diverged
          end
      | Thrown message => Thrown message
      | Diverged => Diverged
      end
  end.

(** The record an item is left with by its iteration. *)
Definition settle (mergeBuffers : list ArrayBuffer -> completion Blob)
           (outcomes : nat -> UseTTS.RequestOutcome) (output : UseTTS.AudioOutput)
  : UseTTS.AudioOutput :=
  if UseTTS.isBlank (UseTTS.text output) then UseTTS.markBlank output
  else
    match conversion mergeBuffers outcomes output with
    | Returned newAudioUrl => UseTTS.markSuccess output newAudioUrl
    | Thrown errorMessage => UseTTS.markError output errorMessage
    | Diverged => UseTTS.markProcessing output
    end.

(** The effects that are requests of item [i]. *)
Definition requestOf (i : nat) (effect : UseTTS.Effect) : Prop :=
  match effect with
  | UseTTS.During k (UseTTS.Request _ _) => k = i
  | _ => False
  end.

(** The effects that are toasts shown outside the iterations. *)
Definition outsideToast (effect : UseTTS.Effect) : Prop :=
  match effect with
  | UseTTS.Outside (UseTTS.ToastShown _) => True
  | _ => False
  end.

(** *** Characters that are not whitespace *)

Definition visible (c : N) : bool := negb (is_ws c).

(** A chunk as the segmenter hands it on: not empty, and trimmed. *)
Definition wellFormedChunk (chunk : jsstring) : Prop :=
  chunk <> [] /\ trim chunk = chunk.

(** *** Reading a trace *)

(** The requests of item [i] in a trace, in order: the chunk sent and
    its index. *)
Definition itemRequests (i : nat) (effects : list UseTTS.Effect)
  : list (jsstring * nat) :=
  flat_map (fun effect =>
              match effect with
              | UseTTS.During k (UseTTS.Request input chunkIndex) =>
                  if (k =? i)%nat then [(input, chunkIndex)] else []
              | _ => []
              end) effects.

(** The requests among the events of one call, and the lists reported. *)
Definition requestsIn (events : list UseTTS.Event) : list (jsstring * nat) :=
  flat_map (fun e =>
              match e with
              | UseTTS.Request input j => [(input, j)]
              | _ => []
              end) events.

Definition reportsIn (events : list UseTTS.Event) : list (list UseTTS.AudioOutput) :=
  flat_map (fun e =>
              match e with
              | UseTTS.Reported outputs => [outputs]
              | _ => []
              end) events.

(** The lists handed to [onProgress], in order. *)
Definition reports (effects : list UseTTS.Effect) : list (list UseTTS.AudioOutput) :=
  flat_map (fun effect =>
              match effect with
              | UseTTS.During _ (UseTTS.Reported outputs) => [outputs]
              | UseTTS.Outside (UseTTS.Reported outputs) => [outputs]
              | _ => []
              end) effects.

(** The requests the inner loop makes for [chunks], numbered from [j]:
    one per chunk, up to and including the first that fails. *)
Fixpoint attemptedRequests (outcomes : nat -> UseTTS.RequestOutcome)
         (chunks : list jsstring) (j : nat) : list (jsstring * nat) :=
  match chunks with
  | [] => []
  | chunk :: rest =>
      (chunk, j)
        :: match UseTTS.response (outcomes j) with
           | inl _ => attemptedRequests outcomes rest (S j)
           | inr _ => []
           end
  end.

(** The requests of an item. *)
Definition expectedRequests (outcomes : nat -> UseTTS.RequestOutcome)
           (output : UseTTS.AudioOutput) : list (jsstring * nat) :=
  if UseTTS.isBlank (UseTTS.text output) then []
  else
    match splitTextIntoChunks (removeExtraWhitespaces (UseTTS.text output)) CHUNK_SIZE with
    | Returned chunks => attemptedRequests outcomes chunks 0
    | _ => []
    end.

(** *** Reading the trace of a control of the hook *)

Definition hookRequests (events : list UseTTSControls.HookEvent)
  : list (jsstring * nat) :=
  flat_map (fun e =>
              match e with
              | UseTTSControls.Shared (UseTTS.Request input j) => [(input, j)]
              | _ => []
              end) events.

Definition hookToasts (events : list UseTTSControls.HookEvent) : list UseTTS.Toast :=
  flat_map (fun e =>
              match e with
              | UseTTSControls.Shared (UseTTS.ToastShown t) => [t]
              | _ => []
              end) events.

Definition revocations (events : list UseTTSControls.HookEvent)
  : list UseTTS.ObjectURL :=
  flat_map (fun e =>
              match e with
              | UseTTSControls.Revoked url => [url]
              | _ => []
              end) events.

Definition audioUrlUpdates (events : list UseTTSControls.HookEvent)
  : list (option UseTTS.ObjectURL) :=
  flat_map (fun e =>
              match e with
              | UseTTSControls.AudioUrlSet url => [url]
              | _ => []
              end) events.

(** The toast of the first request that fails, if one does. *)
Fixpoint failureToasts (outcomes : nat -> UseTTS.RequestOutcome)
         (chunks : list jsstring) (j : nat) : list UseTTS.Toast :=
  match chunks with
  | [] => []
  | _ :: rest =>
      match UseTTS.response (outcomes j) with
      | inl _ => failureToasts outcomes rest (S j)
      | inr failure => [UseTTS.errorToast (UseTTS.failureMessage failure)]
      end
  end.

(** *** The items of the page *)

(** The outputs that stand for one source each: the typed text, when
    there is some, then the files that were read, in their order. *)
Definition pageSources (files : list UseFileUpload.UploadedFile) (inputText : jsstring)
  : list UseTTS.AudioOutput :=
  (if 0 <? len (trim inputText) then [TTSPage.textOutput (trim inputText)] else [])
    ++ map TTSPage.fileOutput (List.filter UseFileUpload.isSuccess files).

(** *** Uploads *)

(** What [processFile] makes of a file. *)
Definition processed (readFileAsText : FileUtils.File -> jsstring + string)
           (file : FileUtils.File) (entry : UseFileUpload.UploadedFile) : Prop :=
  UseFileUpload.name entry = FileUtils.fileName file
  /\ UseFileUpload.size entry = FileUtils.fileSize file
  /\ ((UseFileUpload.status entry = UseFileUpload.file_success
       /\ FileUtils.valid (FileUtils.validateFile file) = true
       /\ readFileAsText file = inl (UseFileUpload.content entry)
       /\ UseFileUpload.error entry = None)
      \/ (UseFileUpload.status entry = UseFileUpload.file_error
          /\ UseFileUpload.content entry = []
          /\ ((FileUtils.valid (FileUtils.validateFile file) = false
               /\ UseFileUpload.error entry = FileUtils.error (FileUtils.validateFile file))
              \/ (FileUtils.valid (FileUtils.validateFile file) = true
                  /\ exists message,
                       readFileAsText file = inr message
                       /\ UseFileUpload.error entry = Some message)))).

(** *** Normalised texts put side by side *)

(** Two normalised texts with one space between them; an empty one
    brings no space. *)
Definition glue (x y : jsstring) : jsstring :=
  match x, y with
  | [], _ => y
  | _, [] => x
  | _ :: _, _ :: _ => x ++ SPACE :: y
  end.

Definition glueAll (parts : list jsstring) : jsstring := fold_right glue [] parts.

(** *** Progress *)

(** The values [setProgress] gets after an item succeeded, in order:
    the count of items done and the total. *)
Definition itemsDone (effects : list UseTTS.Effect) : list (Z * Z) :=
  flat_map (fun effect =>
              match effect with
              | UseTTS.During _ (UseTTS.ProgressSet (UseTTS.ItemsDone done totalItems))
              | UseTTS.Outside (UseTTS.ProgressSet (UseTTS.ItemsDone done totalItems)) =>
                  [(done, totalItems)]
              | _ => []
              end) effects.

(** The events of the requests of an item: the request, the progress of
    its download, the toast of its failure. *)
Definition chunkEvent (e : UseTTS.Event) : Prop :=
  match e with
  | UseTTS.Request _ _ => True
  | UseTTS.ToastShown _ => True
  | UseTTS.ProgressSet (UseTTS.WithinItem _ _ _ _ _) => True
  | _ => False
  end.

(** What the loop keeps true: the count of items done is the number of
    successes among the items gone through, and the progress reported
    after a success has counted them one by one. *)
Definition counted (totalItems : Z) (a : nat) (st : UseTTS.BatchState) : Prop :=
  let successes :=
    length (List.filter UseTTS.isSuccess (firstn a (UseTTS.updatedOutputs st))) in
  UseTTS.completedItems st = Z.of_nat successes
  /\ itemsDone (UseTTS.trace st)
     = map (fun k => (Z.of_nat k, totalItems)) (seq 1 successes).

(** *** Reading the trace of the page as it was *)

Definition pageRequests (events : list LegacyPage.PageEvent) : list (jsstring * nat) :=
  flat_map (fun e =>
              match e with
              | LegacyPage.Hook (UseTTSControls.Shared (UseTTS.Request input j)) =>
                  [(input, j)]
              | _ => []
              end) events.

Definition pageToasts (events : list LegacyPage.PageEvent) : list UseTTS.Toast :=
  flat_map (fun e =>
              match e with
              | LegacyPage.Hook (UseTTSControls.Shared (UseTTS.ToastShown t)) => [t]
              | _ => []
              end) events.

(** The fragments of the requests that were answered, among those
    numbered from [first], and the toasts of the others. *)
Definition answered (outcomes : nat -> UseTTS.RequestOutcome) (first count : nat)
  : list ArrayBuffer :=
  flat_map (fun j =>
              match UseTTS.response (outcomes j) with
              | inl fragment => [fragment]
              | inr _ => []
              end) (seq first count).

Definition unanswered (outcomes : nat -> UseTTS.RequestOutcome) (first count : nat)
  : list UseTTS.Toast :=
  flat_map (fun j =>
              match UseTTS.response (outcomes j) with
              | inl _ => []
              | inr _ => [LegacyPage.failedToast]
              end) (seq first count).

(** The chunks that are not empty. *)
Definition nonEmpty (chunks : list jsstring) : list jsstring :=
  List.filter (fun chunk => 0 <? len chunk) chunks.

(** * Properties *)

Example split_demo :
  splitTextIntoChunks (lit "Hi.  Yo there.   Ok") 10
  = Returned [lit "Hi."; lit "Yo there."; lit "Ok"].
Proof. vm_compute. reflexivity. Qed.

(** ** Facts about the string primitives *)

Section StringFacts.

Lemma len_nonneg (s : jsstring) : 0 <= len s.
Proof. unfold len. lia. Qed.

Lemma len_cons (c : N) (s : jsstring) : len (c :: s) = 1 + len s.
Proof. unfold len. simpl length. lia. Qed.

Lemma charAt_cons_succ (c : N) (s : jsstring) (i : Z) :
  0 <= i -> charAt (c :: s) (i + 1) = charAt s i.
Proof.
  intros Hi. unfold charAt.
  destruct (Z.ltb_spec (i + 1) 0); [lia|].
  destruct (Z.ltb_spec i 0); [lia|].
  replace (Z.to_nat (i + 1)) with (S (Z.to_nat i)) by lia.
  reflexivity.
Qed.

Lemma charAt_Some_lt (s : jsstring) (i : Z) (c : N) :
  charAt s i = Some c -> 0 <= i < len s.
Proof.
  unfold charAt, len. destruct (Z.ltb_spec i 0); [discriminate|].
  intros H1. assert (Z.to_nat i < length s)%nat.
  { apply nth_error_Some. congruence. }
  lia.
Qed.

(** A hit of [indexOf] is an occurrence at or after the start position. *)
Lemma indexOf_from_found (s : jsstring) (c : N) (from : Z) :
  forall i k, 0 <= i -> indexOf_from s c from i = k -> k <> -1 ->
    from <= k /\ i <= k < i + len s /\
    nth_error s (Z.to_nat (k - i)) = Some c.
Proof.
  induction s as [|x r IH]; intros i k Hi Hk Hne; simpl in Hk.
  - congruence.
  - rewrite len_cons.
    destruct ((from <=? i) && (x =? c)%N) eqn:Hhit.
    + apply andb_prop in Hhit as [Hle Heq].
      apply Z.leb_le in Hle. apply N.eqb_eq in Heq. subst k x.
      pose proof (len_nonneg r).
      replace (i - i) with 0 by lia. simpl. repeat split; try lia; reflexivity.
    + destruct (IH (i + 1) k ltac:(lia) Hk Hne) as (H1 & H2 & H3).
      repeat split; try lia.
      replace (Z.to_nat (k - i)) with (S (Z.to_nat (k - (i + 1)))) by lia.
      exact H3.
Qed.

Lemma indexOf_found (s : jsstring) (c : N) (from k : Z) :
  indexOf s c from = k -> k <> -1 ->
  from <= k /\ 0 <= k < len s /\ charAt s k = Some c.
Proof.
  intros Hk Hne. unfold indexOf in Hk.
  destruct (indexOf_from_found s c from 0 k ltac:(lia) Hk Hne) as (H1 & H2 & H3).
  repeat split; try lia. unfold charAt.
  destruct (Z.ltb_spec k 0); [lia|].
  replace (k - 0) with k in H3 by lia. exact H3.
Qed.



(** [lastIndexOf] either keeps the default or returns an occurrence at or
    before the bound. *)
Lemma lastIndexOf_upto_found (s : jsstring) (c : N) (bound : Z) :
  forall i best k, 0 <= i -> lastIndexOf_upto s c bound i best = k ->
    k = best \/
    (k <= bound /\ i <= k < i + len s /\
     nth_error s (Z.to_nat (k - i)) = Some c).
Proof.
  induction s as [|x r IH]; intros i best k Hi Hk; simpl in Hk.
  - left. congruence.
  - rewrite len_cons.
    destruct (IH (i + 1) _ k ltac:(lia) Hk) as [Hb | (H1 & H2 & H3)].
    + destruct ((i <=? bound) && (x =? c)%N) eqn:Hhit.
      * apply andb_prop in Hhit as [Hle Heq].
        apply Z.leb_le in Hle. apply N.eqb_eq in Heq. clear Hk. subst k x.
        pose proof (len_nonneg r).
        right. replace (i - i) with 0 by lia. simpl.
        repeat split; try lia; reflexivity.
      * left. exact Hb.
    + right. repeat split; try lia.
      replace (Z.to_nat (k - i)) with (S (Z.to_nat (k - (i + 1)))) by lia.
      exact H3.
Qed.

Lemma lastIndexOf_found (s : jsstring) (c : N) (from k : Z) :
  lastIndexOf s c from = k -> k <> -1 ->
  k <= Z.max from 0 /\ 0 <= k < len s /\ charAt s k = Some c.
Proof.
  intros Hk Hne. unfold lastIndexOf in Hk.
  destruct (lastIndexOf_upto_found s c _ 0 (-1) k ltac:(lia) Hk)
    as [Hb | (H1 & H2 & H3)]; [congruence|].
  repeat split; try lia. unfold charAt.
  destruct (Z.ltb_spec k 0); [lia|].
  replace (k - 0) with k in H3 by lia. exact H3.
Qed.

End StringFacts.

(** ** Progress and termination of the segmentation loop *)

Section Termination.

Variables (t : jsstring) (maxChunkSize : Z).
Hypothesis max_pos : 1 <= maxChunkSize.

(** An iteration that does not throw moves [currentIndex] forward. *)
Lemma findEnd_progress (lenient : bool) (currentIndex endIndex : Z) :
  0 <= currentIndex ->
  findEnd lenient t maxChunkSize currentIndex = Some endIndex ->
  currentIndex < endIndex.
Proof.
  intros Hcur. unfold findEnd.
  destruct (Z.ltb_spec (currentIndex + maxChunkSize) (len t)) as [Hlt|Hge].
  - destruct (Z.ltb_spec currentIndex (lastIndexOf t PERIOD (currentIndex + maxChunkSize))).
    + intros [= <-]. lia.
    + destruct (Z.eqb_spec (indexOf t PERIOD (currentIndex + maxChunkSize)) (-1))
        as [|Hne]; simpl; [discriminate|].
      destruct (overLimit _ _ _); [discriminate|].
      intros [= <-].
      destruct (indexOf_found _ _ _ _ eq_refl Hne) as (H1 & _). lia.
  - intros [= <-]. lia.
Qed.

(** At the end of the text the loop returns what it has. *)
Lemma splitLoop_done (fuel : nat) (currentIndex : Z) (chunks : list jsstring) :
  len t <= currentIndex ->
  splitLoop fuel t maxChunkSize currentIndex chunks = Returned chunks.
Proof.
  intros Hend. destruct fuel; simpl;
    destruct (Z.ltb_spec currentIndex (len t)); try lia; reflexivity.
Qed.

(** With fuel covering the distance to the end of the text the loop
    never runs dry, and any further fuel is irrelevant. *)
Lemma splitLoop_fuel_enough (fuel : nat) :
  forall currentIndex chunks,
    0 <= currentIndex ->
    len t - currentIndex <= Z.of_nat fuel ->
    splitLoop fuel t maxChunkSize currentIndex chunks <> Diverged /\
    forall fuel', len t - currentIndex <= Z.of_nat fuel' ->
      splitLoop fuel' t maxChunkSize currentIndex chunks
      = splitLoop fuel t maxChunkSize currentIndex chunks.
Proof.
  induction fuel as [|fuel IH]; intros cur chunks Hcur Hfuel.
  - assert (Hdone : (cur <? len t) = false) by (apply Z.ltb_ge; lia).
    split.
    + simpl. rewrite Hdone. discriminate.
    + intros fuel' _. destruct fuel'; simpl; rewrite Hdone; reflexivity.
  - simpl. destruct (Z.ltb_spec cur (len t)) as [Hlt|Hge].
    + destruct (findEnd true t maxChunkSize cur) as [e|] eqn:He.
      * pose proof (findEnd_progress true cur e Hcur He) as Hprog.
        destruct (IH e (pushNonEmpty chunks (trim (slice t cur e)))
                    ltac:(lia) ltac:(lia)) as [Hnd Hsame].
        split; [exact Hnd|].
        intros fuel' Hfuel'. destruct fuel' as [|fuel'']; [lia|].
        simpl. destruct (Z.ltb_spec cur (len t)); [|lia].
        rewrite He. apply Hsame. lia.
      * split; [discriminate|].
        intros fuel' Hfuel'. destruct fuel' as [|fuel'']; [lia|].
        simpl. destruct (Z.ltb_spec cur (len t)); [|lia].
        rewrite He. reflexivity.
    + split; [discriminate|].
      intros fuel' _. destruct fuel'; simpl;
        destruct (Z.ltb_spec cur (len t)); try lia; reflexivity.
Qed.

(** The loop ends in one of two ways only. *)
Lemma splitLoop_outcome (fuel : nat) :
  forall currentIndex chunks,
    splitLoop fuel t maxChunkSize currentIndex chunks <> Diverged ->
    (exists result, splitLoop fuel t maxChunkSize currentIndex chunks = Returned result)
    \/ splitLoop fuel t maxChunkSize currentIndex chunks
       = Thrown (tooLargeMessage maxChunkSize).
Proof.
  induction fuel as [|fuel IH]; intros cur chunks; simpl;
    destruct (cur <? len t); try (intros _; left; eexists; reflexivity).
  - intros H. congruence.
  - destruct (findEnd true t maxChunkSize cur) as [e|].
    + apply IH.
    + intros _. right. reflexivity.
Qed.

End Termination.

(** C9. For every input string and every [maxChunkSize >= 1],
    [splitTextIntoChunks] terminates: an iteration of its loop either
    throws or strictly increases [currentIndex]; the loop therefore needs
    no more iterations than the normalised text has characters (any
    larger fuel gives the same outcome), and the call either returns a
    chunk array or throws the size-limit error. *)
Theorem splitTextIntoChunks_terminates (text : jsstring) (maxChunkSize : Z) :
  1 <= maxChunkSize ->
  let cleanedText := removeExtraWhitespaces text in
  (forall currentIndex endIndex,
      0 <= currentIndex ->
      findEnd true cleanedText maxChunkSize currentIndex = Some endIndex ->
      currentIndex < endIndex)
  /\ (forall fuel, (length cleanedText <= fuel)%nat ->
        splitLoop fuel cleanedText maxChunkSize 0 []
        = splitTextIntoChunks text maxChunkSize)
  /\ ((exists chunks, splitTextIntoChunks text maxChunkSize = Returned chunks)
      \/ splitTextIntoChunks text maxChunkSize
         = Thrown (tooLargeMessage maxChunkSize)).
Proof.
  intros Hmax cleanedText.
  assert (Hfuel : len cleanedText - 0 <= Z.of_nat (length cleanedText))
    by (unfold len; lia).
  destruct (splitLoop_fuel_enough cleanedText maxChunkSize Hmax
              (length cleanedText) 0 [] ltac:(lia) Hfuel) as [Hnd Hsame].
  split; [|split].
  - intros cur e Hcur He. exact (findEnd_progress _ _ Hmax true cur e Hcur He).
  - intros fuel Hle. unfold splitTextIntoChunks. fold cleanedText.
    apply Hsame. unfold len. lia.
  - unfold splitTextIntoChunks. fold cleanedText.
    apply splitLoop_outcome. exact Hnd.
Qed.

Lemma splitTextIntoChunks_terminates_witness :
  1 <= 10 /\
  ((exists chunks,
       splitTextIntoChunks (lit "Hi.  Yo there.   Ok") 10 = Returned chunks)
   \/ splitTextIntoChunks (lit "Hi.  Yo there.   Ok") 10
      = Thrown (tooLargeMessage 10)).
Proof.
  split; [lia|].
  exact (proj2 (proj2 (splitTextIntoChunks_terminates
                         (lit "Hi.  Yo there.   Ok") 10 ltac:(lia)))).
Defined.

(** ** A sentence that does not fit *)

Section Oversized.

Variables (t : jsstring) (maxChunkSize : Z).
Hypothesis max_pos : 1 <= maxChunkSize.

(** The iteration starting at [currentIndex] throws when the window
    holds no period after its first character and every later period is
    over the limit of the policy. *)
Lemma findEnd_oversized (lenient : bool) (currentIndex : Z) :
  0 <= currentIndex ->
  currentIndex + maxChunkSize < len t ->
  (forall p, currentIndex < p <= currentIndex + maxChunkSize ->
             charAt t p <> Some PERIOD) ->
  (forall p, currentIndex + maxChunkSize < p -> charAt t p = Some PERIOD ->
             overLimit lenient maxChunkSize (p - currentIndex) = true) ->
  findEnd lenient t maxChunkSize currentIndex = None.
Proof.
  intros Hcur Hlong Hwindow Hfar. unfold findEnd.
  destruct (Z.ltb_spec (currentIndex + maxChunkSize) (len t)); [|lia].
  destruct (Z.ltb_spec currentIndex (lastIndexOf t PERIOD (currentIndex + maxChunkSize)))
    as [Hback|_].
  - exfalso.
    destruct (lastIndexOf_found t PERIOD (currentIndex + maxChunkSize) _ eq_refl
                ltac:(lia)) as (Hle & _ & Hc).
    eapply Hwindow; [|exact Hc]. lia.
  - destruct (Z.eqb_spec (indexOf t PERIOD (currentIndex + maxChunkSize)) (-1))
      as [|Hne]; [reflexivity|]. simpl.
    destruct (indexOf_found t PERIOD (currentIndex + maxChunkSize) _ eq_refl Hne)
      as (Hge & _ & Hc).
    assert (Hstrict : currentIndex + maxChunkSize
                      < indexOf t PERIOD (currentIndex + maxChunkSize)).
    { destruct (Z.eq_dec (indexOf t PERIOD (currentIndex + maxChunkSize))
                  (currentIndex + maxChunkSize)) as [Heq|]; [|lia].
      exfalso. rewrite Heq in Hc. eapply Hwindow; [|exact Hc]. lia. }
    rewrite (Hfar _ Hstrict Hc). reflexivity.
Qed.

End Oversized.

(** A text without any period has none at any index. *)
Lemma charAt_no_period (t : jsstring) :
  forallb (fun c => negb (c =? PERIOD)%N) t = true ->
  forall p, charAt t p <> Some PERIOD.
Proof.
  intros Hall p Hc. unfold charAt in Hc.
  destruct (p <? 0); [discriminate|].
  apply nth_error_In in Hc.
  rewrite forallb_forall in Hall. specialize (Hall _ Hc).
  rewrite N.eqb_refl in Hall. discriminate.
Qed.

(** C2. A sentence longer than the limit makes segmentation throw the
    size-limit error, whose message names the limit, instead of
    returning chunks.  Let a chunk start at [currentIndex] of the
    normalised text (any state of the loop; position 0 for a text that
    is one sentence), let the window hold no period (positions
    [currentIndex + 1 .. currentIndex + maxChunkSize]), and let the next
    period, or the end of the text when there is none, lie more than the
    policy threshold past the start: [1.5 * maxChunkSize] for
    [splitTextIntoChunks], and [CHUNK_SIZE] itself for the generator
    [chunkText].  Then that iteration throws; from position 0 it is the
    call that throws, the generator on its first [next()] and without
    having yielded a chunk. *)
Theorem oversized_sentence_throws
  (text : jsstring) (maxChunkSize currentIndex : Z) (fuel : nat)
  (chunks : list jsstring) :
  1 <= maxChunkSize ->
  0 <= currentIndex ->
  let t := removeExtraWhitespaces text in
  (forall p, currentIndex < p <= currentIndex + maxChunkSize ->
             charAt t p <> Some PERIOD) ->
  ((forall p, currentIndex + maxChunkSize < p -> charAt t p = Some PERIOD ->
              3 * maxChunkSize < 2 * (p - currentIndex)) ->
   3 * maxChunkSize < 2 * (len t - currentIndex) ->
   splitLoop (S fuel) t maxChunkSize currentIndex chunks
   = Thrown (tooLargeMessage maxChunkSize)
   /\ (currentIndex = 0 ->
       splitTextIntoChunks text maxChunkSize = Thrown (tooLargeMessage maxChunkSize)))
  /\
  (maxChunkSize = CHUNK_SIZE ->
   CHUNK_SIZE < len t - currentIndex ->
   chunkLoop (S fuel) t currentIndex chunks = (chunks, Thrown tooLargeMessageStrict)
   /\ (currentIndex = 0 -> chunkText text = ([], Thrown tooLargeMessageStrict))
   /\ tooLargeMessageStrict = ("Sentence exceeds chunk size limit of "
                                 ++ showZ CHUNK_SIZE ++ " characters.")%string).
Proof.
  intros Hmax Hcur t Hwindow. split.
  - intros Hfar Hend.
    assert (Hnone : findEnd true t maxChunkSize currentIndex = None).
    { apply findEnd_oversized; try lia; [exact Hwindow|].
      intros p Hp Hc. unfold overLimit. apply Z.ltb_lt.
      specialize (Hfar p Hp Hc). lia. }
    assert (Hloop : forall fuel' chunks',
               splitLoop (S fuel') t maxChunkSize currentIndex chunks'
               = Thrown (tooLargeMessage maxChunkSize)).
    { intros fuel' chunks'. simpl.
      destruct (Z.ltb_spec currentIndex (len t)); [|lia].
      rewrite Hnone. reflexivity. }
    split; [apply Hloop|].
    intros Hzero. unfold splitTextIntoChunks. fold t.
    assert (Hlen : 0 < len t) by lia.
    unfold len in Hlen. destruct (length t) as [|n] eqn:Hn; [lia|].
    rewrite <- Hzero. apply Hloop.
  - intros -> Hend.
    assert (Hnone : findEnd false t CHUNK_SIZE currentIndex = None).
    { apply findEnd_oversized; try lia; [exact Hwindow|].
      intros p Hp Hc. unfold overLimit. apply Z.ltb_lt. lia. }
    assert (Hloop : forall fuel' chunks',
               chunkLoop (S fuel') t currentIndex chunks'
               = (chunks', Thrown tooLargeMessageStrict)).
    { intros fuel' chunks'. simpl.
      destruct (Z.ltb_spec currentIndex (len t)); [|unfold CHUNK_SIZE in *; lia].
      rewrite Hnone. reflexivity. }
    split; [apply Hloop|]. split; [|reflexivity].
    intros Hzero. unfold chunkText. fold t.
    assert (Hlen : 0 < len t) by (unfold CHUNK_SIZE in *; lia).
    unfold len in Hlen. destruct (length t) as [|n] eqn:Hn; [lia|].
    rewrite <- Hzero. apply Hloop.
Qed.

(** Texts without whitespace are left alone by the normalisation. *)
Lemma dropWhile_plain (s : jsstring) :
  forallb (fun c => negb (is_ws c)) s = true -> dropWhile is_ws s = s.
Proof.
  destruct s as [|c r]; simpl; [reflexivity|].
  destruct (is_ws c); simpl; [discriminate|reflexivity].
Qed.

Lemma removeExtraWhitespaces_plain (s : jsstring) :
  forallb (fun c => negb (is_ws c)) s = true -> removeExtraWhitespaces s = s.
Proof.
  intros Hall. unfold removeExtraWhitespaces.
  assert (Hrep : replaceWsRuns [] s = s).
  { induction s as [|c r IH]; simpl in *; [reflexivity|].
    apply andb_prop in Hall as [Hc Hr].
    destruct (is_ws c); [discriminate|]. simpl. f_equal. apply IH, Hr. }
  rewrite Hrep. unfold trim, trimEnd, trimStart.
  rewrite (dropWhile_plain s Hall), dropWhile_plain, rev_involutive;
    [reflexivity|].
  apply forallb_forall. intros c Hc. apply in_rev in Hc.
  rewrite forallb_forall in Hall. apply Hall, Hc.
Qed.

Lemma forallb_repeat (p : N -> bool) (c : N) (n : nat) :
  p c = true -> forallb p (repeat c n) = true.
Proof. intros Hc. induction n as [|n IH]; simpl; [reflexivity|]. rewrite Hc. exact IH. Qed.

Lemma oversized_sentence_throws_witness :
  1 <= 4000 /\
  splitTextIntoChunks (repeat 97%N (Z.to_nat 6001)) 4000 = Thrown (tooLargeMessage 4000) /\
  chunkText (repeat 97%N (Z.to_nat 6001)) = ([], Thrown tooLargeMessageStrict).
Proof.
  assert (Hpos : 1 <= 4000) by lia.
  assert (Hplain : removeExtraWhitespaces (repeat 97%N (Z.to_nat 6001))
                   = repeat 97%N (Z.to_nat 6001)).
  { apply removeExtraWhitespaces_plain, forallb_repeat. reflexivity. }
  assert (Hnone : forall p,
             charAt (removeExtraWhitespaces (repeat 97%N (Z.to_nat 6001))) p
             <> Some PERIOD).
  { rewrite Hplain. apply charAt_no_period, forallb_repeat. reflexivity. }
  assert (Hlen : len (removeExtraWhitespaces (repeat 97%N (Z.to_nat 6001))) = 6001).
  { rewrite Hplain. unfold len. rewrite repeat_length. lia. }
  destruct (oversized_sentence_throws (repeat 97%N (Z.to_nat 6001)) 4000 0 0 []
              Hpos ltac:(lia) (fun p _ => Hnone p)) as [Hsplit Hgen].
  split; [exact Hpos|]. split.
  - apply Hsplit; [|rewrite Hlen; lia|reflexivity].
    intros p _ Hc. exfalso. exact (Hnone p Hc).
  - apply Hgen; [reflexivity | rewrite Hlen; unfold CHUNK_SIZE; lia | reflexivity].
Defined.

(** ** Whitespace facts *)

Section Whitespace.

Lemma dropWhile_length (p : N -> bool) (s : jsstring) :
  (length (dropWhile p s) <= length s)%nat.
Proof.
  induction s as [|c r IH]; simpl; [lia|].
  destruct (p c); simpl; lia.
Qed.

Lemma dropWhile_nil_iff (p : N -> bool) (s : jsstring) :
  dropWhile p s = [] <-> forallb p s = true.
Proof.
  induction s as [|c r IH]; simpl; [tauto|].
  destruct (p c); simpl; [exact IH|]. split; discriminate.
Qed.

Lemma dropWhile_head (p : N -> bool) (s : jsstring) (c : N) (r : jsstring) :
  dropWhile p s = c :: r -> p c = false.
Proof.
  induction s as [|x s' IH]; simpl; [discriminate|].
  destruct (p x) eqn:Hx; [exact IH|]. intros [= -> _]. exact Hx.
Qed.

Lemma trim_length (s : jsstring) : (length (trim s) <= length s)%nat.
Proof.
  unfold trim, trimEnd, trimStart. rewrite length_rev.
  etransitivity; [apply dropWhile_length|]. rewrite length_rev.
  apply dropWhile_length.
Qed.

(** [text.trim().length === 0] holds exactly for the empty and the
    whitespace-only strings. *)
Lemma trim_nil_iff (s : jsstring) : trim s = [] <-> forallb is_ws s = true.
Proof.
  unfold trim, trimEnd, trimStart. split.
  - intros H. apply dropWhile_nil_iff.
    destruct (dropWhile is_ws s) as [|c r] eqn:Hd; [reflexivity|].
    exfalso. apply dropWhile_head in Hd as Hc.
    assert (Hall : forallb is_ws (rev (c :: r)) = true).
    { apply dropWhile_nil_iff. apply (f_equal (@rev N)) in H.
      rewrite rev_involutive in H. exact H. }
    rewrite forallb_forall in Hall.
    specialize (Hall c). rewrite Hall in Hc; [discriminate|].
    apply in_rev. rewrite rev_involutive. left. reflexivity.
  - intros H. apply dropWhile_nil_iff in H. rewrite H. reflexivity.
Qed.

End Whitespace.



(** ** Shape of the normalised text *)

Section Normalised.

Lemma single_spaced_app_l (l1 l2 : jsstring) :
  single_spaced (l1 ++ l2) -> single_spaced l1.
Proof.
  induction l1 as [|a l1 IH]; simpl; [tauto|].
  intros [Hc Hr]. split; [|tauto].
  destruct l1; simpl in *; tauto.
Qed.

Lemma single_spaced_app_r (l1 l2 : jsstring) :
  single_spaced (l1 ++ l2) -> single_spaced l2.
Proof. induction l1 as [|a l1 IH]; simpl; tauto. Qed.

Lemma flushRun_ws (run : jsstring) :
  forallb is_ws run = true ->
  run <> [] -> exists w, flushRun run = [w] /\ is_ws w = true.
Proof.
  destruct run as [|a [|b run]]; simpl; intros Hall Hne.
  - congruence.
  - exists a. rewrite andb_true_r in Hall. auto.
  - exists SPACE. auto.
Qed.

(** After the replacement, whitespace characters are isolated; a pending
    run contributes one whitespace character followed by something
    else. *)
Lemma replaceWsRuns_shape (s : jsstring) :
  forall run, forallb is_ws run = true ->
    single_spaced (replaceWsRuns run s) /\
    (run <> [] ->
     exists w tl, replaceWsRuns run s = w :: tl /\ is_ws w = true /\
                  match tl with [] => True | z :: _ => is_ws z = false end).
Proof.
  induction s as [|c r IH]; intros run Hrun; simpl.
  - split.
    + destruct run as [|a [|b run']]; simpl; tauto.
    + intros Hne. destruct (flushRun_ws run Hrun Hne) as (w & -> & Hw).
      exists w, []. auto.
  - destruct (is_ws c) eqn:Hc.
    + destruct (IH (c :: run)) as [Hss Hhead].
      { simpl. rewrite Hc, Hrun. reflexivity. }
      split; [exact Hss|]. intros _. apply Hhead. discriminate.
    + destruct (IH [] eq_refl) as [Hss _].
      assert (Hcons : single_spaced (c :: replaceWsRuns [] r)).
      { simpl. split; [|exact Hss].
        destruct (replaceWsRuns [] r); [exact I|]. rewrite Hc. reflexivity. }
      destruct run as [|a run'].
      * simpl. split; [exact Hcons|]. congruence.
      * destruct (flushRun_ws (a :: run') Hrun ltac:(discriminate))
          as (w & -> & Hw).
        split.
        -- change (single_spaced (w :: c :: replaceWsRuns [] r)).
           split; [|exact Hcons]. rewrite Hc. apply andb_false_r.
        -- intros _. exists w, (c :: replaceWsRuns [] r). simpl. auto.
Qed.

Lemma dropWhile_suffix (p : N -> bool) (s : jsstring) :
  exists pre, s = pre ++ dropWhile p s.
Proof.
  induction s as [|c r [pre IH]]; simpl.
  - exists []. reflexivity.
  - destruct (p c).
    + exists (c :: pre). simpl. f_equal. exact IH.
    + exists []. reflexivity.
Qed.

(** [trim] cuts a segment out of its argument. *)
Lemma trim_infix (s : jsstring) :
  exists pre post, s = pre ++ trim s ++ post.
Proof.
  unfold trim, trimEnd, trimStart.
  destruct (dropWhile_suffix is_ws s) as [pre Hpre].
  destruct (dropWhile_suffix is_ws (rev (dropWhile is_ws s))) as [q Hq].
  exists pre, (rev q).
  rewrite <- rev_app_distr, <- Hq, rev_involutive. exact Hpre.
Qed.

Lemma trim_first (s : jsstring) (c : N) (r : jsstring) :
  trim s = c :: r -> is_ws c = false.
Proof.
  unfold trim, trimEnd, trimStart. intros H.
  destruct (dropWhile_suffix is_ws (rev (dropWhile is_ws s))) as [q Hq].
  apply (f_equal (@rev N)) in Hq.
  rewrite rev_involutive, rev_app_distr, H in Hq.
  simpl in Hq. eapply dropWhile_head. exact Hq.
Qed.

Lemma trim_last (s : jsstring) (c : N) (r : jsstring) :
  trim s = r ++ [c] -> is_ws c = false.
Proof.
  unfold trim, trimEnd, trimStart. intros H.
  apply (f_equal (@rev N)) in H.
  rewrite rev_involutive, rev_app_distr in H. simpl in H.
  eapply dropWhile_head. exact H.
Qed.

Lemma trimEnd_id (l : jsstring) (y : N) :
  is_ws y = false -> trimEnd (l ++ [y]) = l ++ [y].
Proof.
  intros Hy. unfold trimEnd. rewrite rev_app_distr. simpl. rewrite Hy.
  change (y :: rev l) with ([y] ++ rev l).
  rewrite rev_app_distr, rev_involutive. reflexivity.
Qed.

Lemma removeExtraWhitespaces_single_spaced (text : jsstring) :
  single_spaced (removeExtraWhitespaces text).
Proof.
  unfold removeExtraWhitespaces.
  destruct (replaceWsRuns_shape text [] eq_refl) as [Hss _].
  destruct (trim_infix (replaceWsRuns [] text)) as (pre & post & Heq).
  rewrite Heq in Hss.
  apply single_spaced_app_r in Hss. apply single_spaced_app_l in Hss.
  exact Hss.
Qed.

End Normalised.

(** ** Slices of a text *)

Section Slices.

Lemma slice_firstn_skipn (t : jsstring) (a b : Z) :
  0 <= a <= len t -> 0 <= b ->
  slice t a b
  = firstn (Z.to_nat (Z.min b (len t)) - Z.to_nat a) (skipn (Z.to_nat a) t).
Proof.
  intros Ha Hb. unfold slice, clampIndex.
  destruct (Z.ltb_spec a 0); [lia|]. destruct (Z.ltb_spec b 0); [lia|].
  replace (Z.min a (len t)) with a by lia.
  f_equal. lia.
Qed.

Lemma firstn_segment (t : jsstring) (n m : nat) :
  (n <= m)%nat -> firstn n t ++ firstn (m - n) (skipn n t) = firstn m t.
Proof.
  intros Hnm. rewrite <- (firstn_skipn n (firstn m t)).
  rewrite firstn_firstn, skipn_firstn_comm.
  replace (Nat.min n m) with n by lia. reflexivity.
Qed.

Lemma segment_head (t : jsstring) (n m : nat) :
  (n < m)%nat -> (n < length t)%nat ->
  exists x, nth_error t n = Some x /\
            firstn (m - n) (skipn n t) = x :: firstn (m - S n) (skipn (S n) t).
Proof.
  revert n m. induction t as [|c r IH]; intros n m Hnm Hn; simpl in Hn; [lia|].
  destruct n as [|n].
  - exists c. split; [reflexivity|].
    destruct m as [|m]; [lia|]. simpl. rewrite Nat.sub_0_r. reflexivity.
  - destruct m as [|m]; [lia|].
    destruct (IH n m ltac:(lia) ltac:(lia)) as (x & Hx & Hseg).
    exists x. split; [exact Hx|]. exact Hseg.
Qed.

Lemma firstn_snoc (t : jsstring) (m : nat) (y : N) :
  nth_error t m = Some y -> firstn (S m) t = firstn m t ++ [y].
Proof.
  revert m. induction t as [|c r IH]; intros [|m] H; simpl in *;
    try discriminate.
  - injection H as ->. reflexivity.
  - f_equal. apply IH. exact H.
Qed.

Lemma segment_last (t : jsstring) (n m : nat) :
  (n < m)%nat -> (m <= length t)%nat ->
  exists y, nth_error t (m - 1) = Some y /\
            firstn (m - n) (skipn n t)
            = firstn (m - 1 - n) (skipn n t) ++ [y].
Proof.
  intros Hnm Hm.
  destruct (nth_error t (m - 1)) as [y|] eqn:Hy.
  2:{ apply nth_error_None in Hy. lia. }
  exists y. split; [reflexivity|].
  rewrite <- !skipn_firstn_comm.
  replace m with (S (m - 1)) at 1 by lia.
  rewrite (firstn_snoc _ _ _ Hy), skipn_app.
  rewrite length_firstn.
  replace (n - Nat.min (m - 1) (length t))%nat with 0%nat by lia.
  reflexivity.
Qed.

Lemma join_snoc (sep : jsstring) (parts : list jsstring) (p : jsstring) :
  parts <> [] -> join sep (parts ++ [p]) = join sep parts ++ sep ++ p.
Proof.
  induction parts as [|q parts IH]; intros Hne; [congruence|].
  destruct parts as [|q' parts'].
  - reflexivity.
  - change (join sep ((q :: q' :: parts') ++ [p]))
      with (q ++ sep ++ join sep ((q' :: parts') ++ [p])).
    rewrite IH by discriminate.
    change (join sep (q :: q' :: parts')) with (q ++ sep ++ join sep (q' :: parts')).
    rewrite <- !app_assoc. reflexivity.
Qed.

Lemma trim_fixed (l r r0 : jsstring) (x y : N) :
  l = x :: r -> l = r0 ++ [y] -> is_ws x = false -> is_ws y = false ->
  trim l = l.
Proof.
  intros Hx Hy Hwx Hwy. unfold trim, trimStart.
  rewrite Hx. simpl. rewrite Hwx. rewrite <- Hx, Hy.
  apply trimEnd_id. exact Hwy.
Qed.

Lemma trim_skip (w : N) (l : jsstring) :
  is_ws w = true -> trim (w :: l) = trim l.
Proof. intros Hw. unfold trim, trimStart. simpl. rewrite Hw. reflexivity. Qed.

End Slices.

(** ** Rejoining the chunks *)

Section Rejoin.

Variables (t : jsstring) (maxChunkSize : Z).
Hypothesis max_pos : 1 <= maxChunkSize.
Hypothesis t_first : forall c r, t = c :: r -> is_ws c = false.
Hypothesis t_last : forall r c, t = r ++ [c] -> is_ws c = false.
Hypothesis t_spaced : single_spaced t.
(** Every period that does not end the text is followed by a space. *)
Hypothesis period_space :
  forall i, charAt t i = Some PERIOD -> i + 1 < len t ->
            charAt t (i + 1) = Some SPACE.

(** Where an iteration that does not throw ends its chunk: just after a
    period, or at (or beyond) the end of the text. *)
Lemma findEnd_shape (lenient : bool) (currentIndex endIndex : Z) :
  0 <= currentIndex ->
  findEnd lenient t maxChunkSize currentIndex = Some endIndex ->
  currentIndex < endIndex /\
  ((endIndex <= len t /\ charAt t (endIndex - 1) = Some PERIOD)
   \/ len t <= endIndex).
Proof.
  intros Hcur He.
  split; [exact (findEnd_progress t maxChunkSize max_pos lenient _ _ Hcur He)|].
  revert He. unfold findEnd.
  destruct (Z.ltb_spec (currentIndex + maxChunkSize) (len t)) as [Hlt|Hge].
  - destruct (Z.ltb_spec currentIndex (lastIndexOf t PERIOD (currentIndex + maxChunkSize)))
      as [Hback|_].
    + intros [= <-]. left.
      destruct (lastIndexOf_found t PERIOD (currentIndex + maxChunkSize) _ eq_refl
                  ltac:(lia)) as (_ & Hr & Hc).
      split; [lia|]. rewrite Z.add_simpl_r. exact Hc.
    + destruct (Z.eqb_spec (indexOf t PERIOD (currentIndex + maxChunkSize)) (-1))
        as [|Hne]; simpl; [discriminate|].
      destruct (overLimit _ _ _); [discriminate|].
      intros [= <-]. left.
      destruct (indexOf_found _ _ _ _ eq_refl Hne) as (_ & Hr & Hc).
      split; [lia|]. rewrite Z.add_simpl_r. exact Hc.
  - intros [= <-]. right. lia.
Qed.

Lemma charAt_nth_error (i : Z) :
  0 <= i -> charAt t i = nth_error t (Z.to_nat i).
Proof. intros Hi. unfold charAt. destruct (Z.ltb_spec i 0); [lia|reflexivity]. Qed.

Lemma rejoined_step (currentIndex endIndex : Z) (chunks : list jsstring) :
  rejoined t currentIndex chunks ->
  currentIndex < len t ->
  findEnd true t maxChunkSize currentIndex = Some endIndex ->
  rejoined t endIndex
    (pushNonEmpty chunks (trim (slice t currentIndex endIndex))).
Proof.
  intros (Hcur & Hjoin & Htrim & Hzero & Hpos) Hlt He.
  destruct (findEnd_shape true _ _ Hcur He) as [Hprog Hshape].
  set (n := Z.to_nat currentIndex) in *.
  set (m := Z.to_nat (Z.min endIndex (len t))).
  assert (Hnm : (n < m)%nat) by (unfold n, m; lia).
  assert (Hm : (m <= length t)%nat) by (unfold m, len; lia).
  assert (Hslice : slice t currentIndex endIndex
                   = firstn (m - n) (skipn n t)).
  { unfold n, m. apply slice_firstn_skipn; lia. }
  set (seg := firstn (m - n) (skipn n t)) in *.
  assert (Hpre : firstn n t ++ seg = firstn m t)
    by (apply firstn_segment; lia).
  assert (Hwhole : t = firstn n t ++ seg ++ skipn m t).
  { rewrite app_assoc, Hpre. symmetry. apply firstn_skipn. }
  destruct (segment_head t n m Hnm ltac:(lia)) as (x & Hx & Hhead).
  fold seg in Hhead.
  destruct (segment_last t n m Hnm Hm) as (y & Hy & Hlast).
  fold seg in Hlast.
  (* the chunk ends with a character that is not whitespace *)
  assert (Hwy : is_ws y = false).
  { destruct Hshape as [[Hle Hper] | Hend].
    - rewrite charAt_nth_error in Hper by lia.
      replace (Z.to_nat (endIndex - 1)) with (m - 1)%nat in Hper
        by (unfold m; lia).
      rewrite Hy in Hper. injection Hper as ->. reflexivity.
    - assert (Hm' : m = length t) by (unfold m, len in *; lia).
      apply (t_last (firstn n t ++ firstn (m - 1 - n) (skipn n t))).
      rewrite <- app_assoc, <- Hlast, Hpre, Hm'.
      symmetry. apply firstn_all. }
  (* the text read so far *)
  assert (Hfirstn : firstn (Z.to_nat endIndex) t = firstn m t).
  { destruct (Z.le_ge_cases endIndex (len t)).
    - unfold m. rewrite Z.min_l by lia. reflexivity.
    - rewrite !firstn_all2; [reflexivity| |]; unfold m, len in *; lia. }
  assert (Hnext : 0 < endIndex ->
            endIndex < len t -> charAt t (endIndex - 1) = Some PERIOD).
  { intros _ Hlt'. destruct Hshape as [[_ Hper]|Hend]; [exact Hper|lia]. }
  rewrite Hslice.
  destruct (Z.eq_dec currentIndex 0) as [Hz|Hnz].
  - (* first chunk: nothing to trim *)
    assert (Hn0 : n = 0%nat) by (unfold n; lia).
    rewrite (Hzero Hz) in *.
    assert (Hwx : is_ws x = false).
    { apply (t_first x (firstn (m - S n) (skipn (S n) t) ++ skipn m t)).
      rewrite Hwhole at 1. rewrite Hn0 at 1. simpl firstn at 1.
      rewrite Hhead. reflexivity. }
    assert (Hfix : trim seg = seg)
      by (eapply trim_fixed; [exact Hhead | exact Hlast | exact Hwx | exact Hwy]).
    rewrite Hfix. rewrite Hhead at 1. simpl pushNonEmpty. rewrite <- Hhead.
    repeat split.
    + lia.
    + simpl join. rewrite Hfirstn, <- Hpre, Hn0. reflexivity.
    + simpl. rewrite Hfix. reflexivity.
    + lia.
    + discriminate.
    + apply Hnext. lia.
  - (* later chunk: it starts with the space that follows the period *)
    destruct (Hpos ltac:(lia)) as [Hne Hper]. specialize (Hper Hlt).
    assert (Hsp : nth_error t n = Some SPACE).
    { pose proof (period_space _ Hper ltac:(lia)) as Hs.
      rewrite Z.sub_add in Hs. rewrite charAt_nth_error in Hs by lia.
      exact Hs. }
    rewrite Hsp in Hx. injection Hx as <-.
    set (rest := firstn (m - S n) (skipn (S n) t)) in *.
    destruct rest as [|z rest'] eqn:Hrest.
    { exfalso. rewrite Hhead in Hlast.
      destruct (firstn (m - 1 - n) (skipn n t)) as [|? [|? ?]];
        simpl in Hlast; try discriminate.
      injection Hlast as <-. discriminate. }
    assert (Hwz : is_ws z = false).
    { rewrite Hwhole, Hhead in t_spaced.
      apply single_spaced_app_r in t_spaced.
      simpl in t_spaced. destruct t_spaced as [Hc _].
      simpl in Hc. exact Hc. }
    assert (Hrest_last : exists r0, z :: rest' = r0 ++ [y]).
    { rewrite Hhead in Hlast.
      destruct (firstn (m - 1 - n) (skipn n t)) as [|s0 r0];
        simpl in Hlast.
      - injection Hlast as _ Habs. discriminate.
      - injection Hlast as _ Hl. exists r0. exact Hl. }
    destruct Hrest_last as [r0 Hr0].
    assert (Hfix : trim (z :: rest') = z :: rest')
      by (eapply trim_fixed; [reflexivity | exact Hr0 | exact Hwz | exact Hwy]).
    rewrite Hhead, trim_skip by reflexivity.
    rewrite Hfix. simpl pushNonEmpty.
    repeat split.
    + lia.
    + rewrite join_snoc by exact Hne.
      rewrite Hjoin, Hfirstn, <- Hpre, Hhead. reflexivity.
    + rewrite map_app, Htrim. simpl. rewrite Hfix. reflexivity.
    + lia.
    + destruct chunks; discriminate.
    + apply Hnext. lia.
Qed.

Lemma splitLoop_rejoin (fuel : nat) :
  forall currentIndex chunks result,
    rejoined t currentIndex chunks ->
    splitLoop fuel t maxChunkSize currentIndex chunks = Returned result ->
    join [SPACE] (map trim result) = t.
Proof.
  induction fuel as [|fuel IH]; intros cur chunks result Hinv; simpl;
    destruct (Z.ltb_spec cur (len t)) as [Hlt|Hge]; try discriminate.
  - intros [= <-]. destruct Hinv as (Hcur & Hjoin & Htrim & _).
    rewrite Htrim, Hjoin. apply firstn_all2. unfold len in Hge. lia.
  - destruct (findEnd true t maxChunkSize cur) as [e|] eqn:He; [|discriminate].
    apply IH. apply rejoined_step; assumption.
  - intros [= <-]. destruct Hinv as (Hcur & Hjoin & Htrim & _).
    rewrite Htrim, Hjoin. apply firstn_all2. unfold len in Hge. lia.
Qed.

End Rejoin.

Lemma periodsSpaced_sound (t : jsstring) :
  periodsSpaced t = true ->
  forall i, charAt t i = Some PERIOD -> i + 1 < len t ->
            charAt t (i + 1) = Some SPACE.
Proof.
  intros Hall i Hc Hlt.
  pose proof (charAt_Some_lt _ _ _ Hc) as Hr.
  unfold periodsSpaced in Hall. rewrite forallb_forall in Hall.
  specialize (Hall (Z.to_nat i)).
  unfold charAt in *.
  destruct (Z.ltb_spec i 0); [lia|]. destruct (Z.ltb_spec (i + 1) 0); [lia|].
  replace (Z.to_nat (i + 1)) with (S (Z.to_nat i)) by lia.
  rewrite Hc in Hall.
  destruct (nth_error t (S (Z.to_nat i))) as [d|] eqn:Hd.
  - rewrite N.eqb_refl in Hall. simpl in Hall.
    f_equal. apply N.eqb_eq. apply Hall.
    apply in_seq. unfold len in Hr. lia.
  - apply nth_error_None in Hd. unfold len in Hlt. lia.
Qed.

(** C4, as the code has it.  Whenever [splitTextIntoChunks] returns and,
    in the normalised text, every period that is not its last character
    is followed by a space (U+0020), trimming the chunks and joining them
    with one space gives back [removeExtraWhitespaces text]. *)
Theorem chunks_rejoin_normalised
  (text : jsstring) (maxChunkSize : Z) (chunks : list jsstring) :
  1 <= maxChunkSize ->
  (forall i, charAt (removeExtraWhitespaces text) i = Some PERIOD ->
             i + 1 < len (removeExtraWhitespaces text) ->
             charAt (removeExtraWhitespaces text) (i + 1) = Some SPACE) ->
  splitTextIntoChunks text maxChunkSize = Returned chunks ->
  join [SPACE] (map trim chunks) = removeExtraWhitespaces text.
Proof.
  intros Hmax Hsp Hret. unfold splitTextIntoChunks in Hret.
  eapply splitLoop_rejoin; [exact Hmax | | | | exact Hsp | | exact Hret].
  - intros c r H. unfold removeExtraWhitespaces in H. eapply trim_first, H.
  - intros r c H. unfold removeExtraWhitespaces in H. eapply trim_last, H.
  - apply removeExtraWhitespaces_single_spaced.
  - repeat split; try reflexivity; lia.
Qed.

Lemma chunks_rejoin_normalised_witness :
  1 <= 10 /\
  splitTextIntoChunks (lit "Hi.  Yo there.   Ok") 10
  = Returned [lit "Hi."; lit "Yo there."; lit "Ok"] /\
  join [SPACE] (map trim [lit "Hi."; lit "Yo there."; lit "Ok"])
  = removeExtraWhitespaces (lit "Hi.  Yo there.   Ok").
Proof.
  split; [lia|]. split; [vm_compute; reflexivity|].
  apply (chunks_rejoin_normalised (lit "Hi.  Yo there.   Ok") 10).
  - lia.
  - apply periodsSpaced_sound. vm_compute. reflexivity.
  - vm_compute. reflexivity.
Defined.

(** C4 as stated fails.  ["Hi.Yo"] has no stretch of more than three
    characters without a period, and with [maxChunkSize = 3] the chunks
    ["Hi."] and ["Yo"] rejoin to ["Hi. Yo"], which is not the normalised
    input; ["aaa bbb ccc ddd"] has no stretch of more than five such
    characters, and with [maxChunkSize = 5] no chunks are produced at
    all: the call throws. *)
Lemma chunks_rejoin_counterexample :
  (plainRunsWithin 3 0 (lit "Hi.Yo") = true /\
   splitTextIntoChunks (lit "Hi.Yo") 3 = Returned [lit "Hi."; lit "Yo"] /\
   join [SPACE] (map trim [lit "Hi."; lit "Yo"]) = lit "Hi. Yo" /\
   removeExtraWhitespaces (lit "Hi.Yo") = lit "Hi.Yo" /\
   join [SPACE] (map trim [lit "Hi."; lit "Yo"])
   <> removeExtraWhitespaces (lit "Hi.Yo"))
  /\
  (plainRunsWithin 5 0 (lit "aaa bbb ccc ddd") = true /\
   splitTextIntoChunks (lit "aaa bbb ccc ddd") 5 = Thrown (tooLargeMessage 5)).
Proof.
  refine (conj (conj _ (conj _ (conj _ (conj _ _)))) (conj _ _));
    vm_compute; try reflexivity.
  discriminate.
Qed.

(** ** How long a chunk can get *)

Section ChunkBound.

Variables (t : jsstring) (maxChunkSize : Z).
Hypothesis max_pos : 1 <= maxChunkSize.

Lemma slice_length (a b : Z) :
  0 <= a <= b -> len (slice t a b) <= b - a.
Proof.
  intros Hab. unfold slice, clampIndex, len.
  destruct (Z.ltb_spec a 0); [lia|]. destruct (Z.ltb_spec b 0); [lia|].
  rewrite length_firstn. lia.
Qed.

(** The window of an iteration: one character more than [maxChunkSize]
    when it ends at a period found backwards, one more than
    [1.5 * maxChunkSize] when it ends at a period found forwards. *)
Lemma findEnd_window (currentIndex endIndex : Z) :
  0 <= currentIndex ->
  findEnd true t maxChunkSize currentIndex = Some endIndex ->
  2 * (endIndex - currentIndex) <= 3 * maxChunkSize + 2.
Proof.
  intros Hcur. unfold findEnd.
  destruct (Z.ltb_spec (currentIndex + maxChunkSize) (len t)) as [Hlt|Hge].
  - destruct (Z.ltb_spec currentIndex (lastIndexOf t PERIOD (currentIndex + maxChunkSize)))
      as [Hback|_].
    + intros [= <-].
      destruct (lastIndexOf_found t PERIOD (currentIndex + maxChunkSize) _ eq_refl
                  ltac:(lia)) as (Hle & _). lia.
    + destruct (Z.eqb_spec (indexOf t PERIOD (currentIndex + maxChunkSize)) (-1))
        as [|Hne]; simpl; [discriminate|].
      destruct (Z.ltb_spec (3 * maxChunkSize)
                  (2 * (indexOf t PERIOD (currentIndex + maxChunkSize) - currentIndex)));
        [discriminate|].
      intros [= <-]. lia.
  - intros [= <-]. lia.
Qed.

Lemma splitLoop_bound (fuel : nat) :
  forall currentIndex chunks result,
    0 <= currentIndex ->
    Forall (fun c => 2 * len c <= 3 * maxChunkSize + 2) chunks ->
    splitLoop fuel t maxChunkSize currentIndex chunks = Returned result ->
    Forall (fun c => 2 * len c <= 3 * maxChunkSize + 2) result.
Proof.
  induction fuel as [|fuel IH]; intros cur chunks result Hcur Hall; simpl;
    destruct (Z.ltb_spec cur (len t)) as [Hlt|Hge]; try discriminate;
    try (intros [= <-]; exact Hall).
  destruct (findEnd true t maxChunkSize cur) as [e|] eqn:He; [|discriminate].
  pose proof (findEnd_progress t maxChunkSize max_pos true cur e Hcur He) as Hprog.
  apply IH; [lia|].
  unfold pushNonEmpty. destruct (trim (slice t cur e)) as [|c r] eqn:Hchunk;
    [exact Hall|].
  apply Forall_app. split; [exact Hall|]. constructor; [|constructor].
  rewrite <- Hchunk.
  pose proof (trim_length (slice t cur e)) as Htrim.
  pose proof (slice_length cur e ltac:(lia)) as Hsl.
  pose proof (findEnd_window cur e Hcur He) as Hwin.
  unfold len in *. lia.
Qed.

End ChunkBound.

(** The bound the loop does keep: no chunk is longer than
    [1.5 * maxChunkSize + 1]. *)
Lemma splitTextIntoChunks_bound
  (text : jsstring) (maxChunkSize : Z) (chunks : list jsstring) :
  1 <= maxChunkSize ->
  splitTextIntoChunks text maxChunkSize = Returned chunks ->
  Forall (fun c => 2 * len c <= 3 * maxChunkSize + 2) chunks.
Proof.
  intros Hmax Hret. unfold splitTextIntoChunks in Hret.
  eapply splitLoop_bound; [exact Hmax | | | exact Hret]; [lia | constructor].
Qed.

(** *** A text that exceeds the lenient bound, for every chunk size *)

Section LongestChunk.

Variable maxChunkSize : Z.
Hypothesis max_two : 2 <= maxChunkSize.

(** The length of the first sentence: [floor (1.5 * maxChunkSize)]. *)
Local Abbreviation reach := (Z.to_nat (3 * maxChunkSize / 2)).
Local Abbreviation sentence := (repeat 97%N reach ++ [PERIOD]).
Local Abbreviation sample := (repeat 97%N reach ++ [PERIOD; 97%N]).









End LongestChunk.


(** ** The request client *)

(** C6. A failed request never raises past [sendTextForTTS]: the caller
    gets [null], and the failure is shown in one toast whose message is
    chosen by the HTTP status: 401, 429 and 500 have a message each, any
    other axios error (another status, or no response at all) gets the
    generic message, and an exception that is not an axios error gets a
    generic message of its own.  The five messages are distinct. *)
Theorem sendTextForTTS_failure_classified
  (input : jsstring) (chunkIndex : nat)
  (onProgress : option (UseTTS.jsnum -> list UseTTS.Event))
  (progressEvents : list UseTTS.ProgressEvent) (failure : UseTTS.Failure) :
  let outcome := {| UseTTS.downloadProgress := progressEvents;
                    UseTTS.response := inr failure |} in
  fst (UseTTS.sendTextForTTS input chunkIndex onProgress outcome) = None
  /\ (exists progress,
        snd (UseTTS.sendTextForTTS input chunkIndex onProgress outcome)
        = UseTTS.Request input chunkIndex :: progress
            ++ [UseTTS.ToastShown
                  (UseTTS.errorToast (UseTTS.failureMessage failure))]
        /\ (onProgress = None -> progress = []))
  /\ UseTTS.failureMessage (UseTTS.AxiosError (Some 401))
     = "Invalid API key. Please check your OpenAI API key."%string
  /\ UseTTS.failureMessage (UseTTS.AxiosError (Some 429))
     = "Rate limit exceeded. Please try again later."%string
  /\ UseTTS.failureMessage (UseTTS.AxiosError (Some 500))
     = "OpenAI service error. Please try again later."%string
  /\ (forall status,
        status <> Some 401 -> status <> Some 429 -> status <> Some 500 ->
        UseTTS.failureMessage (UseTTS.AxiosError status)
        = "Failed to generate speech."%string)
  /\ UseTTS.failureMessage UseTTS.OtherError
     = "An unexpected error occurred while generating speech."%string
  /\ List.NoDup [UseTTS.failureMessage (UseTTS.AxiosError (Some 401));
            UseTTS.failureMessage (UseTTS.AxiosError (Some 429));
            UseTTS.failureMessage (UseTTS.AxiosError (Some 500));
            UseTTS.failureMessage (UseTTS.AxiosError None);
            UseTTS.failureMessage UseTTS.OtherError].
Proof.
  intros outcome. unfold UseTTS.sendTextForTTS. simpl.
  split; [reflexivity|]. split.
  { eexists. split; [reflexivity|]. intros ->. reflexivity. }
  split; [reflexivity|]. split; [reflexivity|]. split; [reflexivity|].
  split.
  { intros status H401 H429 H500. unfold UseTTS.statusMessage.
    destruct status as [z|]; [|reflexivity].
    destruct (Z.eq_dec z 401) as [->|]; [congruence|].
    destruct (Z.eq_dec z 429) as [->|]; [congruence|].
    destruct (Z.eq_dec z 500) as [->|]; [congruence|].
    destruct z as [|p|p]; try reflexivity.
    do 9 (destruct p as [p|p|]; try reflexivity); congruence. }
  split; [reflexivity|].
  repeat constructor; simpl; intuition discriminate.
Qed.

(** ** Download progress *)






(** ** Merging fragments *)

Section MergeFacts.

Variable Sample : Type.
Variable decodeAudioData : ArrayBuffer -> option (AudioBuffer Sample).
Variable audioBufferToMp3 : AudioBuffer Sample -> Blob.



End MergeFacts.




(** ** The batch loop *)

Section BatchFacts.

Import UseTTS.

Variable mergeBuffers : list ArrayBuffer -> completion Blob.
Variable reportChunkProgress : bool.

Lemma isBlank_iff (s : jsstring) : isBlank s = true <-> forallb is_ws s = true.
Proof.
  unfold isBlank. rewrite <- trim_nil_iff. split.
  - intros H. apply orb_prop in H as [H|H]; apply Z.eqb_eq in H; unfold len in H.
    + destruct s; [reflexivity|simpl in H; lia].
    + destruct (trim s); [reflexivity|simpl in H; lia].
  - intros ->. apply orb_true_r.
Qed.

Lemma splitTextIntoChunks_returns_or_throws (s : jsstring) (maxChunkSize : Z) :
  1 <= maxChunkSize ->
  (exists chunks, splitTextIntoChunks s maxChunkSize = Returned chunks)
  \/ splitTextIntoChunks s maxChunkSize = Thrown (tooLargeMessage maxChunkSize).
Proof.
  intros Hmax. unfold splitTextIntoChunks.
  apply splitLoop_outcome.
  apply (splitLoop_fuel_enough _ _ Hmax); unfold len; lia.
Qed.

Lemma requestChunks_value (network : nat -> nat -> RequestOutcome)
      (i : nat) (completed totalItems : Z) (count : nat) (chunks : list jsstring) :
  forall j audioBuffers,
    fst (requestChunks reportChunkProgress network i completed totalItems count
           chunks j audioBuffers)
    = fetchChunks (network i) chunks j audioBuffers.
Proof.
  induction chunks as [|chunk rest IH]; intros j audioBuffers; simpl;
    [reflexivity|].
  unfold sendTextForTTS.
  destruct (response (network i j)) as [data|failure]; simpl; [|reflexivity].
  specialize (IH (S j) (audioBuffers ++ [data])).
  destruct (requestChunks reportChunkProgress network i completed totalItems count
              rest (S j) (audioBuffers ++ [data])) as [result later].
  exact IH.
Qed.

Lemma synthesize_value (network : nat -> nat -> RequestOutcome)
      (i : nat) (completed totalItems : Z) (output : AudioOutput) :
  fst (synthesize mergeBuffers reportChunkProgress network i completed totalItems output)
  = conversion mergeBuffers (network i) output.
Proof.
  unfold synthesize, conversion.
  destruct (splitTextIntoChunks (removeExtraWhitespaces (text output)) CHUNK_SIZE)
    as [chunks|message|]; try reflexivity.
  rewrite <- (requestChunks_value network i completed totalItems (length chunks)).
  destruct (requestChunks reportChunkProgress network i completed totalItems
              (length chunks) chunks 0 []) as [[audioBuffers|message|] events];
    simpl; try reflexivity.
  destruct (mergeBuffers audioBuffers); reflexivity.
Qed.

Lemma fetchChunks_not_diverged (outcomes : nat -> RequestOutcome)
      (chunks : list jsstring) :
  forall j audioBuffers, fetchChunks outcomes chunks j audioBuffers <> Diverged.
Proof.
  induction chunks as [|chunk rest IH]; intros j audioBuffers; simpl;
    [discriminate|].
  destruct (response (outcomes j)); [apply IH|discriminate].
Qed.

(** A request that returns no fragment makes the inner loop throw, at
    that chunk or at an earlier one that failed too. *)
Lemma fetchChunks_failure (outcomes : nat -> RequestOutcome)
      (chunks : list jsstring) :
  forall j0 audioBuffers j failure,
    (j0 <= j < j0 + length chunks)%nat ->
    response (outcomes j) = inr failure ->
    exists j', (j0 <= j' <= j)%nat /\
               fetchChunks outcomes chunks j0 audioBuffers
               = Thrown (chunkFailedMessage j').
Proof.
  induction chunks as [|chunk rest IH]; intros j0 audioBuffers j failure Hj Hf;
    simpl in *; [lia|].
  destruct (response (outcomes j0)) as [data|failure0] eqn:H0.
  - assert (j0 <> j) by congruence.
    destruct (IH (S j0) (audioBuffers ++ [data]) j failure ltac:(lia) Hf)
      as (j' & Hj' & Hthrown).
    exists j'. split; [lia|exact Hthrown].
  - exists j0. split; [lia|reflexivity].
Qed.

Lemma settle_text (outcomes : nat -> RequestOutcome) (output : AudioOutput) :
  text (settle mergeBuffers outcomes output) = text output.
Proof.
  unfold settle. destruct (isBlank (text output)); [reflexivity|].
  destruct (conversion mergeBuffers outcomes output); reflexivity.
Qed.

Section Loop.

Variable network : nat -> nat -> RequestOutcome.
Variable totalItems : Z.

Local Abbreviation step :=
  (convertItem mergeBuffers reportChunkProgress network totalItems).

(** An iteration rewrites its own slot, and only that one. *)
Lemma convertItem_outputs (st : BatchState) (i : nat) (output : AudioOutput) :
  updatedOutputs st !! i = Some output ->
  updatedOutputs (step st i)
  = <[i := settle mergeBuffers (network i) output]> (updatedOutputs st).
Proof.
  intros Hi. unfold step, convertItem, settle. rewrite Hi.
  destruct (isBlank (text output)); [reflexivity|].
  rewrite <- (synthesize_value network i (completedItems st) totalItems output).
  destruct (synthesize mergeBuffers reportChunkProgress network i
              (completedItems st) totalItems output) as [[url|message|] events];
    simpl; rewrite ?list_insert_insert_eq; reflexivity.
Qed.

Lemma convertItem_out_of_range (st : BatchState) (i : nat) :
  updatedOutputs st !! i = None -> step st i = st.
Proof. intros Hi. unfold step, convertItem. rewrite Hi. reflexivity. Qed.

(** Its effects are appended to the trace and carry its index; for a
    blank item there is one, the report of the new list. *)
Lemma convertItem_trace (st : BatchState) (i : nat) :
  exists events,
    trace (step st i) = trace st ++ map (During i) events
    /\ forall output,
         updatedOutputs st !! i = Some output ->
         isBlank (text output) = true ->
         events = [Reported (<[i := markBlank output]> (updatedOutputs st))]
         /\ completedItems (step st i) = completedItems st.
Proof.
  unfold step, convertItem.
  destruct (updatedOutputs st !! i) as [output|] eqn:Hi.
  - destruct (isBlank (text output)) eqn:Hblank.
    + exists [Reported (<[i := markBlank output]> (updatedOutputs st))].
      split; [reflexivity|].
      intros output' [= <-] _. split; reflexivity.
    + destruct (synthesize mergeBuffers reportChunkProgress network i
                  (completedItems st) totalItems output)
        as [[url|message|] events]; cbv zeta; simpl trace.
      * exists (Reported (<[i := markProcessing output]> (updatedOutputs st))
                  :: events
                  ++ [ProgressSet (ItemsDone (completedItems st + 1) totalItems);
                      Reported (<[i := markSuccess output url]>
                                  (<[i := markProcessing output]> (updatedOutputs st)))]).
        split; [rewrite <- app_assoc; reflexivity|].
        intros output' [= <-] Hb. congruence.
      * exists (Reported (<[i := markProcessing output]> (updatedOutputs st))
                  :: events
                  ++ [Reported (<[i := markError output message]>
                                  (<[i := markProcessing output]> (updatedOutputs st)))]).
        split; [rewrite <- app_assoc; reflexivity|].
        intros output' [= <-] Hb. congruence.
      * exists (Reported (<[i := markProcessing output]> (updatedOutputs st))
                  :: events).
        split; [rewrite <- app_assoc; reflexivity|].
        intros output' [= <-] Hb. congruence.
  - exists []. split; [simpl; rewrite app_nil_r; reflexivity|].
    intros output [=].
Qed.

(** The loop over the items [a, a + n). *)
Lemma convert_loop_outputs (n : nat) :
  forall a st,
    length (updatedOutputs (fold_left step (seq a n) st))
    = length (updatedOutputs st)
    /\ forall k,
         updatedOutputs (fold_left step (seq a n) st) !! k
         = if decide (a <= k < a + n)%nat
           then settle mergeBuffers (network k) <$> (updatedOutputs st !! k)
           else updatedOutputs st !! k.
Proof.
  induction n as [|n IH]; intros a st; simpl.
  - split; [reflexivity|]. intros k. case_decide; [lia|reflexivity].
  - destruct (IH (S a) (step st a)) as [Hlen Hlook].
    destruct (updatedOutputs st !! a) as [output|] eqn:Ha.
    + pose proof (convertItem_outputs st a output Ha) as Hstep.
      split.
      * rewrite Hlen, Hstep. apply length_insert.
      * intros k. rewrite Hlook, Hstep.
        destruct (decide (k = a)) as [->|Hne].
        -- rewrite list_lookup_insert_eq by (eapply lookup_lt_Some; exact Ha).
           rewrite Ha. simpl.
           case_decide; [lia|]. case_decide; [reflexivity|lia].
        -- rewrite list_lookup_insert_ne by congruence.
           repeat case_decide; try reflexivity; lia.
    + rewrite (convertItem_out_of_range st a Ha) in *.
      split; [exact Hlen|].
      intros k. rewrite Hlook.
      destruct (decide (k = a)) as [->|Hne].
      * rewrite Ha. simpl. repeat case_decide; reflexivity.
      * repeat case_decide; try reflexivity; lia.
Qed.

(** What holds of the trace throughout, for a blank item [i]: it never
    gets a request of that item; and no toast is ever shown outside the
    iterations by the loop. *)
Lemma convert_loop_trace (i : nat) (items : list nat) :
  forall st,
    (exists output, updatedOutputs st !! i = Some output
                    /\ isBlank (text output) = true) ->
    Forall (fun effect => ~ requestOf i effect) (trace st) ->
    Forall (fun effect => ~ requestOf i effect)
           (trace (fold_left step items st)).
Proof.
  induction items as [|j items IH]; intros st Hblank Hclean; simpl;
    [exact Hclean|].
  destruct Hblank as (output & Hi & Hb).
  destruct (convertItem_trace st j) as (events & Htrace & Hevents).
  apply IH.
  - destruct (updatedOutputs st !! j) as [outputj|] eqn:Hj.
    + rewrite (convertItem_outputs st j outputj Hj).
      destruct (decide (j = i)) as [->|Hne].
      * exists (settle mergeBuffers (network i) outputj).
        rewrite list_lookup_insert_eq by (eapply lookup_lt_Some; exact Hj).
        split; [reflexivity|]. rewrite settle_text. congruence.
      * exists output. rewrite list_lookup_insert_ne by exact Hne. auto.
    + rewrite (convertItem_out_of_range st j Hj). eauto.
  - rewrite Htrace. apply Forall_app. split; [exact Hclean|].
    destruct (decide (j = i)) as [->|Hne].
    + destruct (Hevents output Hi Hb) as [-> _].
      repeat constructor. simpl. tauto.
    + apply Forall_forall. intros effect Hin.
      apply list_elem_of_In, in_map_iff in Hin as (e & <- & _).
      simpl. destruct e; tauto.
Qed.

Lemma convert_loop_no_toast (items : list nat) :
  forall st,
    Forall (fun effect => ~ outsideToast effect) (trace st) ->
    Forall (fun effect => ~ outsideToast effect)
           (trace (fold_left step items st)).
Proof.
  induction items as [|j items IH]; intros st Hclean; simpl; [exact Hclean|].
  destruct (convertItem_trace st j) as (events & Htrace & _).
  apply IH. rewrite Htrace. apply Forall_app. split; [exact Hclean|].
  apply Forall_forall. intros effect Hin.
  apply list_elem_of_In, in_map_iff in Hin as (e & <- & _).
  simpl. tauto.
Qed.

End Loop.

(** The list [convertMultiple] returns, item by item. *)
Lemma convertMultiple_lookup (network : nat -> nat -> RequestOutcome)
      (apiKey : string) (outputs : list AudioOutput) (k : nat) :
  apiKey <> EmptyString ->
  length (fst (convertMultiple mergeBuffers reportChunkProgress network apiKey outputs))
  = length outputs
  /\ fst (convertMultiple mergeBuffers reportChunkProgress network apiKey outputs) !! k
     = settle mergeBuffers (network k) <$> (outputs !! k).
Proof.
  intros Hkey. unfold convertMultiple.
  destruct apiKey as [|c apiKey]; [congruence|]. cbv zeta. simpl fst.
  match goal with
  | |- context [fold_left ?f (seq 0 ?n) ?st] =>
      destruct (convert_loop_outputs network (Z.of_nat (length outputs)) n 0 st)
        as [Hlen Hlook]
  end.
  split; [exact Hlen|].
  rewrite Hlook. simpl updatedOutputs.
  case_decide as Hk; [reflexivity|].
  rewrite (lookup_ge_None_2 outputs k) by lia. reflexivity.
Qed.

End BatchFacts.

Section BatchResults.

Import UseTTS.

Variable mergeBuffers : list ArrayBuffer -> completion Blob.
Variable reportChunkProgress : bool.

Lemma conversion_not_diverged (outcomes : nat -> RequestOutcome) (output : AudioOutput) :
  (forall buffers, mergeBuffers buffers <> Diverged) ->
  conversion mergeBuffers outcomes output <> Diverged.
Proof.
  intros Hmerge. unfold conversion.
  destruct (splitTextIntoChunks_returns_or_throws
              (removeExtraWhitespaces (text output)) CHUNK_SIZE ltac:(unfold CHUNK_SIZE; lia))
    as [[chunks ->] | ->]; [|discriminate].
  pose proof (fetchChunks_not_diverged outcomes chunks 0 []) as Hfetch.
  destruct (fetchChunks outcomes chunks 0 []) as [audioBuffers|message|];
    [|discriminate|congruence].
  specialize (Hmerge audioBuffers).
  destruct (mergeBuffers audioBuffers); [discriminate|discriminate|congruence].
Qed.

Lemma settle_terminal (outcomes : nat -> RequestOutcome) (output : AudioOutput) :
  (forall buffers, mergeBuffers buffers <> Diverged) ->
  status (settle mergeBuffers outcomes output) = status_success
  \/ status (settle mergeBuffers outcomes output) = status_error.
Proof.
  intros Hmerge. unfold settle.
  destruct (isBlank (text output)); [right; reflexivity|].
  pose proof (conversion_not_diverged outcomes output Hmerge) as Hnd.
  destruct (conversion mergeBuffers outcomes output);
    [left; reflexivity | right; reflexivity | congruence].
Qed.

(** A batch of one item. *)
Lemma convertMultiple_alone (outcomes : nat -> RequestOutcome)
      (apiKey : string) (job : AudioOutput) :
  apiKey <> EmptyString ->
  fst (convertMultiple mergeBuffers reportChunkProgress (fun _ => outcomes) apiKey [job])
  = [settle mergeBuffers outcomes job].
Proof.
  intros Hkey.
  destruct (convertMultiple_lookup mergeBuffers reportChunkProgress
              (fun _ => outcomes) apiKey [job] 0 Hkey) as [Hlen Hlook].
  destruct (fst (convertMultiple mergeBuffers reportChunkProgress
                   (fun _ => outcomes) apiKey [job])) as [|x [|y l]];
    simpl in Hlen, Hlook; try discriminate.
  congruence.
Qed.

(** How the run ends: the two state updates, then the success toast
    when there is a success to report. *)
Lemma convertMultiple_report (network : nat -> nat -> RequestOutcome)
      (apiKey : string) (outputs : list AudioOutput) :
  apiKey <> EmptyString ->
  exists loop,
    Forall (fun effect => ~ outsideToast effect) loop
    /\ snd (convertMultiple mergeBuffers reportChunkProgress network apiKey outputs)
       = loop
           ++ (if (0 <? length (List.filter isSuccess
                                  (fst (convertMultiple mergeBuffers reportChunkProgress
                                          network apiKey outputs))))%nat
               then [Outside (ToastShown
                                (successToast
                                   (length (List.filter isSuccess
                                              (fst (convertMultiple mergeBuffers
                                                      reportChunkProgress network
                                                      apiKey outputs))))))]
               else []).
Proof.
  intros Hkey. unfold convertMultiple.
  destruct apiKey as [|c apiKey]; [congruence|]. cbv zeta. simpl fst. simpl snd.
  match goal with
  | |- context [fold_left ?f ?items ?st] =>
      pose proof (convert_loop_no_toast mergeBuffers reportChunkProgress network
                    (Z.of_nat (length outputs)) items st) as Hloop;
      set (final := fold_left f items st) in *
  end.
  exists (trace final ++ [Outside (ProcessingSet false);
                          Outside (ProgressSet (Exactly 100))]).
  split.
  - apply Forall_app. split.
    + apply Hloop. repeat constructor; simpl; tauto.
    + repeat constructor; simpl; tauto.
  - rewrite <- app_assoc. reflexivity.
Qed.

End BatchResults.

(** C3, as the code has it.  For every list of items and every pattern
    of request outcomes, the batch runs to the end and returns one
    record per item; each record is the one the item gets when it is
    converted alone against the same outcomes, and its status is
    [success] or [error]; an item whose segmentation throws, or one of
    whose chunk requests returns no fragment, is marked [error] with a
    message that is not empty.  The number of items with status
    [success] is reported in a toast when it is positive; when no item
    succeeded, no toast is shown at the end. *)
Theorem batch_isolates_failures
  (mergeBuffers : list ArrayBuffer -> completion Blob) (reportChunkProgress : bool)
  (network : nat -> nat -> UseTTS.RequestOutcome) (apiKey : string)
  (outputs : list UseTTS.AudioOutput) :
  apiKey <> EmptyString ->
  (forall buffers, mergeBuffers buffers <> Diverged) ->
  let run :=
    UseTTS.convertMultiple mergeBuffers reportChunkProgress network apiKey outputs in
  let alone := fun k job =>
    fst (UseTTS.convertMultiple mergeBuffers reportChunkProgress
           (fun _ => network k) apiKey [job]) in
  length (fst run) = length outputs
  /\ (forall k job, outputs !! k = Some job ->
        (exists final,
            alone k job = [final] /\ fst run !! k = Some final
            /\ (UseTTS.status final = UseTTS.status_success
                \/ UseTTS.status final = UseTTS.status_error))
        /\ (forall message,
              UseTTS.isBlank (UseTTS.text job) = false ->
              splitTextIntoChunks (removeExtraWhitespaces (UseTTS.text job)) CHUNK_SIZE
              = Thrown message ->
              fst run !! k = Some (UseTTS.markError job message)
              /\ message <> EmptyString)
        /\ (forall chunks j failure,
              UseTTS.isBlank (UseTTS.text job) = false ->
              splitTextIntoChunks (removeExtraWhitespaces (UseTTS.text job)) CHUNK_SIZE
              = Returned chunks ->
              (j < length chunks)%nat ->
              UseTTS.response (network k j) = inr failure ->
              exists j',
                (j' <= j)%nat
                /\ fst run !! k
                   = Some (UseTTS.markError job (UseTTS.chunkFailedMessage j'))
                /\ UseTTS.chunkFailedMessage j' <> EmptyString))
  /\ (let successCount := length (List.filter UseTTS.isSuccess (fst run)) in
      ((0 < successCount)%nat ->
       exists before,
         snd run = before ++ [UseTTS.Outside
                                (UseTTS.ToastShown (UseTTS.successToast successCount))]
         /\ Forall (fun effect => ~ outsideToast effect) before)
      /\ (successCount = 0%nat ->
          Forall (fun effect => ~ outsideToast effect) (snd run))).
Proof.
  intros Hkey Hmerge run alone.
  split; [|split].
  - apply (convertMultiple_lookup mergeBuffers reportChunkProgress network
             apiKey outputs 0 Hkey).
  - intros k job Hjob.
    assert (Hfinal : fst run !! k = Some (settle mergeBuffers (network k) job)).
    { unfold run.
      rewrite (proj2 (convertMultiple_lookup mergeBuffers reportChunkProgress network
                        apiKey outputs k Hkey)), Hjob. reflexivity. }
    split; [|split].
    + exists (settle mergeBuffers (network k) job). split; [|split].
      * apply convertMultiple_alone. exact Hkey.
      * exact Hfinal.
      * apply settle_terminal. exact Hmerge.
    + intros message Hblank Hsplit. rewrite Hfinal. split.
      * unfold settle, conversion. rewrite Hblank, Hsplit. reflexivity.
      * destruct (splitTextIntoChunks_returns_or_throws
                    (removeExtraWhitespaces (UseTTS.text job)) CHUNK_SIZE
                    ltac:(unfold CHUNK_SIZE; lia)) as [[chunks Hret] | Hthrown];
          [congruence|].
        rewrite Hthrown in Hsplit. injection Hsplit as <-.
        vm_compute. discriminate.
    + intros chunks j failure Hblank Hsplit Hj Hfail.
      destruct (fetchChunks_failure (network k) chunks 0 [] j failure
                  ltac:(lia) Hfail) as (j' & Hj' & Hthrown).
      exists j'. split; [lia|]. split.
      * rewrite Hfinal. unfold settle, conversion.
        rewrite Hblank, Hsplit, Hthrown. reflexivity.
      * unfold UseTTS.chunkFailedMessage. simpl. discriminate.
  - cbv zeta.
    destruct (convertMultiple_report mergeBuffers reportChunkProgress network
                apiKey outputs Hkey) as (loop & Hloop & Hsnd).
    fold run in Hsnd. split.
    + intros Hpos. exists loop. split; [|exact Hloop].
      rewrite Hsnd.
      destruct (Nat.ltb_spec 0 (length (List.filter UseTTS.isSuccess (fst run))));
        [reflexivity|lia].
    + intros Hzero. rewrite Hsnd, Hzero. simpl. rewrite app_nil_r. exact Hloop.
Qed.

Lemma batch_isolates_failures_witness :
  let network := fun (i _ : nat) =>
    if (i =? 1)%nat then UseTTS.refused 500 else UseTTS.delivered [Byte.x01] in
  let outputs := [UseTTS.typedItem "a" "Hi."; UseTTS.typedItem "b" "Yo.";
                  UseTTS.typedItem "c" "Ok."] in
  let run := UseTTS.convertMultiple UseTTS.mergeBuffersConcat false network "key"
               outputs in
  length (fst run) = 3%nat
  /\ map UseTTS.status (fst run)
     = [UseTTS.status_success; UseTTS.status_error; UseTTS.status_success]
  /\ exists before,
       snd run = before ++ [UseTTS.Outside
                              (UseTTS.ToastShown (UseTTS.successToast 2))].
Proof.
  intros network outputs run.
  assert (Hkey : "key"%string <> EmptyString) by discriminate.
  assert (Hmerge : forall buffers, UseTTS.mergeBuffersConcat buffers <> Diverged)
    by (intros buffers; discriminate).
  destruct (batch_isolates_failures UseTTS.mergeBuffersConcat false network "key"
              outputs Hkey Hmerge) as (Hlen & _ & Hreport & _).
  split; [exact Hlen|]. split; [vm_compute; reflexivity|].
  destruct Hreport as (before & Hsnd & _); [vm_compute; lia|].
  exists before. exact Hsnd.
Defined.

(** C3 as stated fails in its last part: when the only item of a batch
    fails, its record is marked [error] and the run ends without any
    report of a success count. *)
Lemma batch_report_counterexample :
  let job := UseTTS.typedItem "a" "Hi." in
  let run := UseTTS.convertMultiple UseTTS.mergeBuffersConcat false
               (fun _ _ => UseTTS.refused 500) "key" [job] in
  fst run = [UseTTS.markError job "Failed to generate audio for chunk 1"]
  /\ length (List.filter UseTTS.isSuccess (fst run)) = 0%nat
  /\ snd run
     = [UseTTS.Outside (UseTTS.ProcessingSet true);
        UseTTS.Outside (UseTTS.ProgressSet (UseTTS.Exactly 0));
        UseTTS.During 0 (UseTTS.Reported [UseTTS.markProcessing job]);
        UseTTS.During 0 (UseTTS.Request (lit "Hi.") 0);
        UseTTS.During 0
          (UseTTS.ToastShown
             (UseTTS.errorToast "OpenAI service error. Please try again later."));
        UseTTS.During 0
          (UseTTS.Reported
             [UseTTS.markError job "Failed to generate audio for chunk 1"]);
        UseTTS.Outside (UseTTS.ProcessingSet false);
        UseTTS.Outside (UseTTS.ProgressSet (UseTTS.Exactly 100))].
Proof.
  intros job run. refine (conj _ (conj _ _)); vm_compute; reflexivity.
Qed.

(** C8. An item whose text is empty or whitespace-only is set to
    [error] with the message "No text to convert" by its iteration,
    which does nothing else than report the new list: no request is
    issued for the item, and the loop goes on, every item of the batch
    ending as it does when converted alone. *)
Theorem blank_item_skipped
  (mergeBuffers : list ArrayBuffer -> completion Blob) (reportChunkProgress : bool)
  (network : nat -> nat -> UseTTS.RequestOutcome) (apiKey : string)
  (outputs : list UseTTS.AudioOutput) (i : nat) (output : UseTTS.AudioOutput) :
  apiKey <> EmptyString ->
  outputs !! i = Some output ->
  forallb is_ws (UseTTS.text output) = true ->
  let run :=
    UseTTS.convertMultiple mergeBuffers reportChunkProgress network apiKey outputs in
  (forall totalItems st,
      UseTTS.updatedOutputs st !! i = Some output ->
      UseTTS.convertItem mergeBuffers reportChunkProgress network totalItems st i
      = {| UseTTS.updatedOutputs :=
             <[i := UseTTS.markBlank output]> (UseTTS.updatedOutputs st);
           UseTTS.completedItems := UseTTS.completedItems st;
           UseTTS.trace :=
             UseTTS.trace st
               ++ [UseTTS.During i
                     (UseTTS.Reported
                        (<[i := UseTTS.markBlank output]> (UseTTS.updatedOutputs st)))] |})
  /\ fst run !! i = Some (UseTTS.markBlank output)
  /\ UseTTS.status (UseTTS.markBlank output) = UseTTS.status_error
  /\ UseTTS.error (UseTTS.markBlank output) = Some "No text to convert"%string
  /\ (forall input chunkIndex,
        ~ In (UseTTS.During i (UseTTS.Request input chunkIndex)) (snd run))
  /\ length (fst run) = length outputs
  /\ (forall k other, outputs !! k = Some other ->
        fst run !! k
        = fst (UseTTS.convertMultiple mergeBuffers reportChunkProgress
                 (fun _ => network k) apiKey [other]) !! 0%nat).
Proof.
  intros Hkey Hi Hws run.
  assert (Hblank : UseTTS.isBlank (UseTTS.text output) = true)
    by (apply isBlank_iff; exact Hws).
  split; [|split; [|split; [|split; [|split; [|split]]]]].
  - intros totalItems st Hst. unfold UseTTS.convertItem.
    rewrite Hst, Hblank. reflexivity.
  - unfold run.
    rewrite (proj2 (convertMultiple_lookup mergeBuffers reportChunkProgress network
                      apiKey outputs i Hkey)), Hi.
    simpl. unfold settle. rewrite Hblank. reflexivity.
  - reflexivity.
  - reflexivity.
  - intros input chunkIndex Hin.
    assert (Hclean : Forall (fun effect => ~ requestOf i effect) (snd run)).
    { unfold run, UseTTS.convertMultiple.
      destruct apiKey as [|c apiKey]; [congruence|]. cbv zeta. simpl snd.
      apply Forall_app. split.
      - apply convert_loop_trace.
        + exists output. simpl. auto.
        + repeat constructor; simpl; tauto.
      - constructor; [simpl; tauto|]. constructor; [simpl; tauto|].
        destruct (0 <? _)%nat; repeat constructor; simpl; tauto. }
    rewrite Forall_forall in Hclean.
    apply (Hclean _ (proj2 (list_elem_of_In _ _) Hin)). reflexivity.
  - apply (convertMultiple_lookup mergeBuffers reportChunkProgress network
             apiKey outputs 0 Hkey).
  - intros k other Hk. unfold run.
    rewrite (proj2 (convertMultiple_lookup mergeBuffers reportChunkProgress network
                      apiKey outputs k Hkey)), Hk.
    rewrite (convertMultiple_alone mergeBuffers reportChunkProgress (network k)
               apiKey other Hkey).
    reflexivity.
Qed.

Lemma blank_item_skipped_witness :
  let network := fun (_ _ : nat) => UseTTS.delivered [Byte.x01] in
  let outputs := [UseTTS.typedItem "a" "Hi."; UseTTS.typedItem "b" "   ";
                  UseTTS.typedItem "c" "Ok."] in
  let run := UseTTS.convertMultiple UseTTS.mergeBuffersConcat false network "key"
               outputs in
  fst run !! 1%nat = Some (UseTTS.markBlank (UseTTS.typedItem "b" "   "))
  /\ (forall input chunkIndex,
        ~ In (UseTTS.During 1 (UseTTS.Request input chunkIndex)) (snd run))
  /\ map UseTTS.status (fst run)
     = [UseTTS.status_success; UseTTS.status_error; UseTTS.status_success].
Proof.
  intros network outputs run.
  assert (Hkey : "key"%string <> EmptyString) by discriminate.
  destruct (blank_item_skipped UseTTS.mergeBuffersConcat false network "key" outputs
              1%nat (UseTTS.typedItem "b" "   ") Hkey eq_refl eq_refl)
    as (_ & Hfinal & _ & _ & Hcalls & _).
  split; [exact Hfinal|]. split; [exact Hcalls|]. vm_compute. reflexivity.
Defined.

(** * Further properties of the segmenter *)

Section NormalisationFacts.

Lemma trim_idempotent (s : jsstring) : trim (trim s) = trim s.
Proof.
  destruct (trim s) as [|c r] eqn:Ht; [reflexivity|].
  destruct (exists_last (l := c :: r) ltac:(discriminate)) as (r0 & y & Hlast).
  apply (trim_fixed _ r r0 c y); [reflexivity | exact Hlast | |].
  - eapply trim_first. exact Ht.
  - eapply trim_last. rewrite Ht. exact Hlast.
Qed.

(** A text whose whitespace is already isolated is left alone by the
    replacement. *)
Lemma replaceWsRuns_fixed (s : jsstring) :
  single_spaced s ->
  replaceWsRuns [] s = s
  /\ forall w, is_ws w = true ->
       match s with [] => True | c :: _ => is_ws c = false end ->
       replaceWsRuns [w] s = w :: s.
Proof.
  induction s as [|c r IH]; intros Hss.
  - split; [reflexivity|]. intros w Hw _. reflexivity.
  - simpl in Hss. destruct Hss as [Hadj Hrest].
    destruct (IH Hrest) as [IH0 IH1].
    split.
    + simpl. destruct (is_ws c) eqn:Hc.
      * apply IH1; [exact Hc|].
        clear IH IH0 IH1 Hrest. destruct r as [|d r']; [exact I|].
        destruct (is_ws d); [discriminate|reflexivity].
      * simpl. rewrite IH0. reflexivity.
    + intros w Hw Hhead. simpl. rewrite Hhead. simpl. rewrite IH0. reflexivity.
Qed.

Lemma replaceWsRuns_blank (s : jsstring) :
  forall run, forallb is_ws run = true ->
    forallb is_ws (replaceWsRuns run s) = forallb is_ws s.
Proof.
  induction s as [|c r IH]; intros run Hrun; simpl.
  - destruct run as [|a [|b run']]; simpl in *; try reflexivity.
    rewrite andb_true_r in Hrun. rewrite Hrun. reflexivity.
  - destruct (is_ws c) eqn:Hc; simpl.
    + apply IH. simpl. rewrite Hc. exact Hrun.
    + rewrite forallb_app. simpl. rewrite Hc. apply andb_false_r.
Qed.

Lemma replaceWsRuns_length (s : jsstring) :
  forall run, (length (replaceWsRuns run s) <= length run + length s)%nat.
Proof.
  induction s as [|c r IH]; intros run; simpl.
  - destruct run as [|a [|b run']]; simpl; lia.
  - destruct (is_ws c).
    + specialize (IH (c :: run)). simpl in IH. lia.
    + rewrite length_app. simpl. specialize (IH []). simpl in IH.
      assert (length (flushRun run) <= length run)%nat
        by (destruct run as [|a [|b run']]; simpl; lia).
      lia.
Qed.

Lemma removeExtraWhitespaces_nil_iff (text : jsstring) :
  removeExtraWhitespaces text = [] <-> forallb is_ws text = true.
Proof.
  unfold removeExtraWhitespaces. rewrite trim_nil_iff.
  rewrite (replaceWsRuns_blank text [] eq_refl). reflexivity.
Qed.

Lemma removeExtraWhitespaces_fixed (text : jsstring) :
  removeExtraWhitespaces (removeExtraWhitespaces text) = removeExtraWhitespaces text.
Proof.
  pose proof (removeExtraWhitespaces_single_spaced text) as Hss.
  unfold removeExtraWhitespaces at 1.
  rewrite (proj1 (replaceWsRuns_fixed _ Hss)).
  unfold removeExtraWhitespaces. apply trim_idempotent.
Qed.

Lemma single_spaced_nth (l : jsstring) :
  single_spaced l ->
  forall i a b, nth_error l i = Some a -> nth_error l (S i) = Some b ->
                is_ws a && is_ws b = false.
Proof.
  induction l as [|x r IH]; intros Hss i a b Ha Hb; [destruct i; discriminate|].
  simpl in Hss. destruct Hss as [Hadj Hrest].
  destruct i as [|i].
  - simpl in Ha, Hb. injection Ha as ->.
    destruct r as [|y r']; [discriminate|]. simpl in Hb. injection Hb as ->.
    exact Hadj.
  - simpl in Ha. exact (IH Hrest i a b Ha Hb).
Qed.

End NormalisationFacts.

(** X1. Normalising twice is normalising once, so that a caller who
    cleans the text before [splitTextIntoChunks] (as [convertMultiple]
    and [convertToSpeech] do) gets the chunks of the text itself. *)
Theorem removeExtraWhitespaces_idempotent (text : jsstring) :
  removeExtraWhitespaces (removeExtraWhitespaces text) = removeExtraWhitespaces text
  /\ (forall maxChunkSize,
        splitTextIntoChunks (removeExtraWhitespaces text) maxChunkSize
        = splitTextIntoChunks text maxChunkSize)
  /\ estimateChunkCount (removeExtraWhitespaces text)
     = estimateChunkCount text.
Proof.
  pose proof (removeExtraWhitespaces_fixed text) as Hfix.
  split; [exact Hfix|]. split.
  - intros maxChunkSize. unfold splitTextIntoChunks. rewrite Hfix. reflexivity.
  - unfold estimateChunkCount. rewrite Hfix. reflexivity.
Qed.

(** X2. The normalised text has no whitespace at either end and no two
    whitespace characters in a row; it is not longer than the input, and
    it is empty exactly when the input is empty or whitespace-only. *)
Theorem removeExtraWhitespaces_shape (text : jsstring) :
  let t := removeExtraWhitespaces text in
  (forall c, charAt t 0 = Some c -> is_ws c = false)
  /\ (forall c, charAt t (len t - 1) = Some c -> is_ws c = false)
  /\ (forall i a b, charAt t i = Some a -> charAt t (i + 1) = Some b ->
                    is_ws a && is_ws b = false)
  /\ len t <= len text
  /\ (t = [] <-> forallb is_ws text = true).
Proof.
  intros t. split; [|split; [|split; [|split]]].
  - intros c Hc. unfold charAt in Hc. simpl in Hc.
    destruct t as [|x r] eqn:Ht; [discriminate|]. injection Hc as <-.
    unfold t, removeExtraWhitespaces in Ht. eapply trim_first. exact Ht.
  - intros c Hc. pose proof (charAt_Some_lt _ _ _ Hc) as Hr.
    destruct (exists_last (l := t)) as (r0 & y & Hlast).
    { intros Hnil. rewrite Hnil in Hr. unfold len in Hr. simpl in Hr. lia. }
    assert (Hy : c = y).
    { unfold charAt in Hc. destruct (Z.ltb_spec (len t - 1) 0); [lia|].
      rewrite Hlast in Hc. unfold len in Hc. rewrite length_app in Hc. simpl in Hc.
      rewrite nth_error_app2 in Hc by lia.
      replace (Z.to_nat (Z.of_nat (length r0 + 1) - 1) - length r0)%nat
        with 0%nat in Hc by lia.
      simpl in Hc. congruence. }
    subst c. unfold t, removeExtraWhitespaces in Hlast. eapply trim_last. exact Hlast.
  - intros i a b Ha Hb. pose proof (charAt_Some_lt _ _ _ Ha) as Hr.
    unfold charAt in Ha, Hb.
    destruct (Z.ltb_spec i 0); [lia|]. destruct (Z.ltb_spec (i + 1) 0); [lia|].
    replace (Z.to_nat (i + 1)) with (S (Z.to_nat i)) in Hb by lia.
    exact (single_spaced_nth t (removeExtraWhitespaces_single_spaced text) _ _ _ Ha Hb).
  - unfold t, removeExtraWhitespaces, len.
    pose proof (trim_length (replaceWsRuns [] text)).
    pose proof (replaceWsRuns_length text []). simpl in *. lia.
  - apply removeExtraWhitespaces_nil_iff.
Qed.

Section ChunkFacts.

Lemma pushNonEmpty_wellFormed (chunks : list jsstring) (s : jsstring) :
  Forall wellFormedChunk chunks ->
  Forall wellFormedChunk (pushNonEmpty chunks (trim s)).
Proof.
  intros Hall. unfold pushNonEmpty.
  destruct (trim s) as [|c r] eqn:Ht; [exact Hall|].
  apply Forall_app. split; [exact Hall|]. constructor; [|constructor].
  split; [discriminate|]. rewrite <- Ht. apply trim_idempotent.
Qed.

Lemma splitLoop_wellFormed (t : jsstring) (maxChunkSize : Z) (fuel : nat) :
  forall currentIndex chunks result,
    Forall wellFormedChunk chunks ->
    splitLoop fuel t maxChunkSize currentIndex chunks = Returned result ->
    Forall wellFormedChunk result.
Proof.
  induction fuel as [|fuel IH]; intros cur chunks result Hall; simpl;
    destruct (cur <? len t); try discriminate;
    try (intros [= <-]; exact Hall).
  destruct (findEnd true t maxChunkSize cur) as [e|]; [|discriminate].
  apply IH. apply pushNonEmpty_wellFormed. exact Hall.
Qed.

Lemma chunkLoop_wellFormed (t : jsstring) (fuel : nat) :
  forall currentIndex yielded,
    Forall wellFormedChunk yielded ->
    Forall wellFormedChunk (fst (chunkLoop fuel t currentIndex yielded)).
Proof.
  induction fuel as [|fuel IH]; intros cur yielded Hall; simpl;
    destruct (cur <? len t); try exact Hall.
  destruct (findEnd false t CHUNK_SIZE cur) as [e|]; [|exact Hall].
  apply IH. apply pushNonEmpty_wellFormed. exact Hall.
Qed.

(** The strict test is the harder one to pass. *)
Lemma findEnd_strict_lenient (t : jsstring) (maxChunkSize currentIndex endIndex : Z) :
  0 <= maxChunkSize ->
  findEnd false t maxChunkSize currentIndex = Some endIndex ->
  findEnd true t maxChunkSize currentIndex = Some endIndex.
Proof.
  intros Hmax. unfold findEnd.
  destruct (currentIndex + maxChunkSize <? len t); [|exact (fun H => H)].
  destruct (currentIndex <? lastIndexOf t PERIOD (currentIndex + maxChunkSize));
    [exact (fun H => H)|].
  destruct (indexOf t PERIOD (currentIndex + maxChunkSize) =? -1);
    [discriminate|]. simpl. unfold overLimit.
  destruct (Z.ltb_spec maxChunkSize
              (indexOf t PERIOD (currentIndex + maxChunkSize) - currentIndex));
    [discriminate|].
  destruct (Z.ltb_spec (3 * maxChunkSize)
              (2 * (indexOf t PERIOD (currentIndex + maxChunkSize) - currentIndex)));
    [lia|]. exact (fun H => H).
Qed.

Lemma chunkLoop_splitLoop (t : jsstring) (fuel : nat) :
  forall currentIndex yielded chunks,
    chunkLoop fuel t currentIndex yielded = (chunks, Returned tt) ->
    splitLoop fuel t CHUNK_SIZE currentIndex yielded = Returned chunks.
Proof.
  induction fuel as [|fuel IH]; intros cur yielded chunks; simpl;
    destruct (cur <? len t); try discriminate;
    try (intros [= <-]; reflexivity).
  destruct (findEnd false t CHUNK_SIZE cur) as [e|] eqn:He; [|discriminate].
  rewrite (findEnd_strict_lenient t CHUNK_SIZE cur e ltac:(unfold CHUNK_SIZE; lia) He).
  apply IH.
Qed.

(** The window of an iteration of the generator. *)
Lemma findEnd_strict_window (t : jsstring) (maxChunkSize currentIndex endIndex : Z) :
  0 <= maxChunkSize ->
  0 <= currentIndex ->
  findEnd false t maxChunkSize currentIndex = Some endIndex ->
  endIndex - currentIndex <= maxChunkSize + 1.
Proof.
  intros Hmax Hcur. unfold findEnd.
  destruct (Z.ltb_spec (currentIndex + maxChunkSize) (len t)) as [Hlt|Hge].
  - destruct (Z.ltb_spec currentIndex (lastIndexOf t PERIOD (currentIndex + maxChunkSize)))
      as [Hback|_].
    + intros [= <-].
      destruct (lastIndexOf_found t PERIOD (currentIndex + maxChunkSize) _ eq_refl
                  ltac:(lia)) as (Hle & _). lia.
    + destruct (Z.eqb_spec (indexOf t PERIOD (currentIndex + maxChunkSize)) (-1))
        as [|Hne]; simpl; [discriminate|].
      destruct (Z.ltb_spec maxChunkSize
                  (indexOf t PERIOD (currentIndex + maxChunkSize) - currentIndex));
        [discriminate|].
      intros [= <-]. lia.
  - intros [= <-]. lia.
Qed.

Lemma chunkLoop_bound (t : jsstring) (fuel : nat) :
  forall currentIndex yielded,
    0 <= currentIndex ->
    Forall (fun c => len c <= CHUNK_SIZE + 1) yielded ->
    Forall (fun c => len c <= CHUNK_SIZE + 1)
           (fst (chunkLoop fuel t currentIndex yielded)).
Proof.
  induction fuel as [|fuel IH]; intros cur yielded Hcur Hall; simpl;
    destruct (Z.ltb_spec cur (len t)); try exact Hall.
  destruct (findEnd false t CHUNK_SIZE cur) as [e|] eqn:He; [|exact Hall].
  pose proof (findEnd_progress t CHUNK_SIZE ltac:(unfold CHUNK_SIZE; lia)
                false cur e Hcur He) as Hprog.
  apply IH; [lia|].
  unfold pushNonEmpty. destruct (trim (slice t cur e)) as [|c r] eqn:Hchunk;
    [exact Hall|].
  apply Forall_app. split; [exact Hall|]. constructor; [|constructor].
  rewrite <- Hchunk.
  pose proof (trim_length (slice t cur e)) as Htrim.
  pose proof (slice_length t cur e ltac:(lia)) as Hsl.
  pose proof (findEnd_strict_window t CHUNK_SIZE cur e
                ltac:(unfold CHUNK_SIZE; lia) Hcur He) as Hwin.
  unfold len in *. lia.
Qed.

Lemma chunkLoop_ends (t : jsstring) (fuel : nat) :
  forall currentIndex yielded,
    0 <= currentIndex ->
    len t - currentIndex <= Z.of_nat fuel ->
    snd (chunkLoop fuel t currentIndex yielded) = Returned tt
    \/ snd (chunkLoop fuel t currentIndex yielded) = Thrown tooLargeMessageStrict.
Proof.
  induction fuel as [|fuel IH]; intros cur yielded Hcur Hfuel; simpl;
    destruct (Z.ltb_spec cur (len t)); try lia; try (left; reflexivity).
  destruct (findEnd false t CHUNK_SIZE cur) as [e|] eqn:He; [|right; reflexivity].
  pose proof (findEnd_progress t CHUNK_SIZE ltac:(unfold CHUNK_SIZE; lia)
                false cur e Hcur He) as Hprog.
  apply IH; lia.
Qed.

End ChunkFacts.

(** X3. Every chunk [splitTextIntoChunks] returns is non-empty and has
    no whitespace at either end. *)
Theorem splitTextIntoChunks_chunks_trimmed
  (text : jsstring) (maxChunkSize : Z) (chunks : list jsstring) :
  splitTextIntoChunks text maxChunkSize = Returned chunks ->
  Forall (fun chunk => chunk <> [] /\ trim chunk = chunk) chunks.
Proof.
  intros Hret. unfold splitTextIntoChunks in Hret.
  eapply splitLoop_wellFormed; [constructor | exact Hret].
Qed.

Lemma splitTextIntoChunks_chunks_trimmed_witness :
  Forall (fun chunk => chunk <> [] /\ trim chunk = chunk)
         [lit "Hi."; lit "Yo there."; lit "Ok"].
Proof.
  exact (splitTextIntoChunks_chunks_trimmed
           (lit "Hi.  Yo there.   Ok") 10
           [lit "Hi."; lit "Yo there."; lit "Ok"] eq_refl).
Defined.

(** X4. The length bound the loop keeps: for [maxChunkSize >= 1] no
    returned chunk has more than [1.5 * maxChunkSize + 1] characters. *)
Theorem splitTextIntoChunks_chunk_length
  (text : jsstring) (maxChunkSize : Z) (chunks : list jsstring) :
  1 <= maxChunkSize ->
  splitTextIntoChunks text maxChunkSize = Returned chunks ->
  Forall (fun chunk => 2 * len chunk <= 3 * maxChunkSize + 2) chunks.
Proof.
  intros Hmax Hret. unfold splitTextIntoChunks in Hret.
  eapply splitLoop_bound; [exact Hmax | | | exact Hret]; [lia | constructor].
Qed.

Lemma splitTextIntoChunks_chunk_length_witness :
  Forall (fun chunk => 2 * len chunk <= 3 * 2 + 2) [lit "abc."; lit "de"].
Proof.
  exact (splitTextIntoChunks_chunk_length (lit "abc.de") 2 [lit "abc."; lit "de"]
           ltac:(lia) eq_refl).
Defined.

(** X7. When the generator [chunkText] runs to its end without throwing,
    [splitTextIntoChunks] with [CHUNK_SIZE] returns exactly the chunks it
    yielded: the lenient variant only accepts more texts. *)
Theorem chunkText_agrees_with_splitTextIntoChunks
  (text : jsstring) (chunks : list jsstring) :
  chunkText text = (chunks, Returned tt) ->
  splitTextIntoChunks text CHUNK_SIZE = Returned chunks.
Proof.
  intros Hgen. unfold chunkText in Hgen. unfold splitTextIntoChunks.
  apply chunkLoop_splitLoop. exact Hgen.
Qed.

Lemma chunkText_agrees_with_splitTextIntoChunks_witness :
  splitTextIntoChunks (lit "Hi.  Yo there.   Ok") CHUNK_SIZE
  = Returned [lit "Hi. Yo there. Ok"].
Proof.
  exact (chunkText_agrees_with_splitTextIntoChunks (lit "Hi.  Yo there.   Ok")
           [lit "Hi. Yo there. Ok"] eq_refl).
Defined.

(** X8. The generator [chunkText] always comes to an end: it finishes or
    throws the size-limit error.  Every chunk it yields, also before a
    throw, is non-empty, trimmed, and has at most [CHUNK_SIZE + 1]
    characters. *)
Theorem chunkText_yields (text : jsstring) :
  (snd (chunkText text) = Returned tt
   \/ snd (chunkText text) = Thrown tooLargeMessageStrict)
  /\ Forall (fun chunk => chunk <> [] /\ trim chunk = chunk
                          /\ len chunk <= CHUNK_SIZE + 1)
            (fst (chunkText text)).
Proof.
  unfold chunkText. split.
  - apply chunkLoop_ends; unfold len; lia.
  - pose proof (chunkLoop_wellFormed (removeExtraWhitespaces text)
                  (length (removeExtraWhitespaces text)) 0 [] ltac:(constructor))
      as Hwf.
    pose proof (chunkLoop_bound (removeExtraWhitespaces text)
                  (length (removeExtraWhitespaces text)) 0 [] ltac:(lia)
                  ltac:(constructor)) as Hlen.
    rewrite Forall_forall in *. intros chunk Hin.
    destruct (Hwf chunk Hin) as [Hne Htrim].
    split; [exact Hne|]. split; [exact Htrim|]. exact (Hlen chunk Hin).
Qed.

Section ShortTexts.

Lemma slice_whole (t : jsstring) (b : Z) : len t <= b -> slice t 0 b = t.
Proof.
  intros Hb. pose proof (len_nonneg t).
  rewrite slice_firstn_skipn by lia.
  change (Z.to_nat 0) with 0%nat. rewrite Nat.sub_0_r, skipn_O.
  apply firstn_all2. unfold len in *. lia.
Qed.

Lemma ceiling_one (n m : Z) : 0 < n <= m -> - ((- n) / m) = 1.
Proof.
  intros H.
  assert (Hq : (- n) / m = -1).
  { symmetry. apply (Z.div_unique (- n) m (-1) (m - n)); lia. }
  lia.
Qed.

End ShortTexts.

(** X5. A text that is empty or whitespace-only gives no chunk, and a
    text whose normalised form has at most [maxChunkSize] characters
    gives exactly one chunk, the normalised text.  In both cases
    [estimateChunkCount] is the number of chunks. *)
Theorem short_text_single_chunk (text : jsstring) (maxChunkSize : Z) :
  1 <= maxChunkSize ->
  len (removeExtraWhitespaces text) <= maxChunkSize ->
  (forallb is_ws text = true ->
   splitTextIntoChunks text maxChunkSize = Returned []
   /\ estimateChunkCount text maxChunkSize = Count 0)
  /\ (forallb is_ws text = false ->
      splitTextIntoChunks text maxChunkSize = Returned [removeExtraWhitespaces text]
      /\ estimateChunkCount text maxChunkSize = Count 1).
Proof.
  intros Hmax Hshort. unfold estimateChunkCount.
  destruct (Z.eqb_spec maxChunkSize 0); [lia|].
  split.
  - intros Hblank. apply removeExtraWhitespaces_nil_iff in Hblank.
    unfold splitTextIntoChunks. rewrite Hblank. split; reflexivity.
  - intros Hvisible.
    assert (Hne : removeExtraWhitespaces text <> []).
    { intros Hnil. apply removeExtraWhitespaces_nil_iff in Hnil. congruence. }
    assert (Hpos : 0 < len (removeExtraWhitespaces text)).
    { unfold len. destruct (removeExtraWhitespaces text); [congruence|simpl; lia]. }
    split; [|rewrite ceiling_one by lia; reflexivity].
    unfold splitTextIntoChunks.
    destruct (length (removeExtraWhitespaces text)) as [|fuel] eqn:Hlen;
      [unfold len in Hpos; lia|].
    simpl. destruct (Z.ltb_spec 0 (len (removeExtraWhitespaces text))); [|lia].
    unfold findEnd.
    destruct (Z.ltb_spec (0 + maxChunkSize) (len (removeExtraWhitespaces text)));
      [lia|].
    rewrite slice_whole by lia.
    assert (Htrim : trim (removeExtraWhitespaces text) = removeExtraWhitespaces text)
      by apply trim_idempotent.
    rewrite Htrim.
    assert (Hpush : pushNonEmpty [] (removeExtraWhitespaces text)
                    = [removeExtraWhitespaces text])
      by (destruct (removeExtraWhitespaces text); [congruence|reflexivity]).
    rewrite Hpush. apply splitLoop_done. lia.
Qed.

Lemma short_text_single_chunk_witness :
  splitTextIntoChunks (lit "  Hi   there ") 4000 = Returned [lit "Hi there"]
  /\ estimateChunkCount (lit "  Hi   there ") 4000 = Count 1.
Proof.
  exact (proj2 (short_text_single_chunk (lit "  Hi   there ") 4000
                  ltac:(lia) ltac:(vm_compute; discriminate)) eq_refl).
Defined.

Section Content.

(** Only whitespace is dropped by trimming and by the normalisation. *)
Lemma visible_dropWhile (s : jsstring) :
  List.filter visible (dropWhile is_ws s) = List.filter visible s.
Proof.
  induction s as [|c r IH]; simpl; [reflexivity|].
  unfold visible at 2. destruct (is_ws c) eqn:Hc; simpl; [exact IH|].
  unfold visible at 1. rewrite Hc. reflexivity.
Qed.

Lemma visible_trim (s : jsstring) :
  List.filter visible (trim s) = List.filter visible s.
Proof.
  unfold trim, trimEnd, trimStart.
  rewrite List.filter_rev, visible_dropWhile, <- List.filter_rev, rev_involutive.
  apply visible_dropWhile.
Qed.

Lemma visible_flushRun (run : jsstring) :
  forallb is_ws run = true -> List.filter visible (flushRun run) = [].
Proof.
  destruct run as [|a [|b run']]; simpl; intros H; try reflexivity.
  rewrite andb_true_r in H. unfold visible. rewrite H. reflexivity.
Qed.

Lemma visible_replaceWsRuns (s : jsstring) :
  forall run, forallb is_ws run = true ->
    List.filter visible (replaceWsRuns run s) = List.filter visible s.
Proof.
  induction s as [|c r IH]; intros run Hrun; simpl.
  - apply visible_flushRun. exact Hrun.
  - unfold visible at 2. destruct (is_ws c) eqn:Hc; simpl.
    + apply IH. simpl. rewrite Hc. exact Hrun.
    + rewrite List.filter_app, (visible_flushRun run Hrun). simpl.
      unfold visible at 1. rewrite Hc. simpl. f_equal. apply IH. reflexivity.
Qed.

Lemma visible_removeExtraWhitespaces (text : jsstring) :
  List.filter visible (removeExtraWhitespaces text) = List.filter visible text.
Proof.
  unfold removeExtraWhitespaces. rewrite visible_trim.
  apply visible_replaceWsRuns. reflexivity.
Qed.

Lemma visible_pushNonEmpty (chunks : list jsstring) (s : jsstring) :
  List.filter visible (concat (pushNonEmpty chunks (trim s)))
  = List.filter visible (concat chunks) ++ List.filter visible s.
Proof.
  rewrite <- (visible_trim s). unfold pushNonEmpty.
  destruct (trim s) as [|c r]; [simpl; rewrite app_nil_r; reflexivity|].
  rewrite concat_app, List.filter_app. simpl. rewrite app_nil_r. reflexivity.
Qed.

Lemma splitLoop_content (t : jsstring) (maxChunkSize : Z) (fuel : nat) :
  1 <= maxChunkSize ->
  forall currentIndex chunks result,
    0 <= currentIndex ->
    List.filter visible (concat chunks)
    = List.filter visible (firstn (Z.to_nat currentIndex) t) ->
    splitLoop fuel t maxChunkSize currentIndex chunks = Returned result ->
    List.filter visible (concat result) = List.filter visible t.
Proof.
  intros Hmax.
  induction fuel as [|fuel IH]; intros cur chunks result Hcur Hinv; simpl;
    destruct (Z.ltb_spec cur (len t)) as [Hlt|Hge]; try discriminate.
  - intros [= <-]. rewrite Hinv, firstn_all2; [reflexivity|unfold len in Hge; lia].
  - destruct (findEnd true t maxChunkSize cur) as [e|] eqn:He; [|discriminate].
    pose proof (findEnd_progress t maxChunkSize Hmax true cur e Hcur He) as Hprog.
    apply IH; [lia|].
    rewrite visible_pushNonEmpty, Hinv, <- List.filter_app.
    rewrite slice_firstn_skipn by lia.
    rewrite firstn_segment by lia.
    destruct (Z.le_ge_cases e (len t)).
    + rewrite Z.min_l by lia. reflexivity.
    + rewrite Z.min_r by lia.
      rewrite !firstn_all2; [reflexivity| |]; unfold len in *; lia.
  - intros [= <-]. rewrite Hinv, firstn_all2; [reflexivity|unfold len in Hge; lia].
Qed.

End Content.

(** X6. Chunking loses nothing but whitespace: for [maxChunkSize >= 1]
    the characters of the returned chunks that are not whitespace are,
    in order, those of the input text. *)
Theorem splitTextIntoChunks_keeps_content
  (text : jsstring) (maxChunkSize : Z) (chunks : list jsstring) :
  1 <= maxChunkSize ->
  splitTextIntoChunks text maxChunkSize = Returned chunks ->
  List.filter visible (concat chunks) = List.filter visible text.
Proof.
  intros Hmax Hret. unfold splitTextIntoChunks in Hret.
  rewrite <- (visible_removeExtraWhitespaces text).
  eapply splitLoop_content; [exact Hmax | | | exact Hret]; [lia|reflexivity].
Qed.

Lemma splitTextIntoChunks_keeps_content_witness :
  List.filter visible (concat [lit "Hi."; lit "Yo there."; lit "Ok"])
  = List.filter visible (lit "Hi.  Yo there.   Ok").
Proof.
  exact (splitTextIntoChunks_keeps_content (lit "Hi.  Yo there.   Ok") 10
           [lit "Hi."; lit "Yo there."; lit "Ok"] ltac:(lia) eq_refl).
Defined.

(** * Further properties of the batch *)

Section BatchTraces.

Import UseTTS.

Variable mergeBuffers : list ArrayBuffer -> completion Blob.
Variable reportChunkProgress : bool.

Lemma itemRequests_app (i : nat) (l1 l2 : list Effect) :
  itemRequests i (l1 ++ l2) = itemRequests i l1 ++ itemRequests i l2.
Proof. apply flat_map_app. Qed.

Lemma itemRequests_during (i j : nat) (events : list Event) :
  itemRequests i (map (During j) events)
  = if (j =? i)%nat then requestsIn events else [].
Proof.
  induction events as [|e events IH]; simpl.
  - destruct (j =? i)%nat; reflexivity.
  - unfold itemRequests in *. simpl. rewrite IH.
    destruct e; destruct (j =? i)%nat; reflexivity.
Qed.

Lemma reports_app (l1 l2 : list Effect) :
  reports (l1 ++ l2) = reports l1 ++ reports l2.
Proof. apply flat_map_app. Qed.

Lemma reports_during (j : nat) (events : list Event) :
  reports (map (During j) events) = reportsIn events.
Proof.
  induction events as [|e events IH]; simpl; [reflexivity|].
  unfold reports in *. simpl. rewrite IH. destruct e; reflexivity.
Qed.

Lemma requestsIn_app (l1 l2 : list Event) :
  requestsIn (l1 ++ l2) = requestsIn l1 ++ requestsIn l2.
Proof. apply flat_map_app. Qed.

Lemma reportsIn_app (l1 l2 : list Event) :
  reportsIn (l1 ++ l2) = reportsIn l1 ++ reportsIn l2.
Proof. apply flat_map_app. Qed.

(** One call of [sendTextForTTS] makes one request and reports no
    list. *)
Lemma sendTextForTTS_events (input : jsstring) (j : nat)
      (callback : option (jsnum -> list Event)) (outcome : RequestOutcome) :
  (forall p, match callback with
             | Some f => requestsIn (f p) = [] /\ reportsIn (f p) = []
             | None => True
             end) ->
  requestsIn (snd (sendTextForTTS input j callback outcome)) = [(input, j)]
  /\ reportsIn (snd (sendTextForTTS input j callback outcome)) = [].
Proof.
  intros Hcallback. unfold sendTextForTTS.
  assert (Hprogress :
            requestsIn (match callback with
                        | Some f => flat_map (fun ev => f (downloadPercentage (len input) ev))
                                             (downloadProgress outcome)
                        | None => []
                        end) = []
            /\ reportsIn (match callback with
                          | Some f => flat_map (fun ev => f (downloadPercentage (len input) ev))
                                               (downloadProgress outcome)
                          | None => []
                          end) = []).
  { destruct callback as [f|]; [|split; reflexivity].
    induction (downloadProgress outcome) as [|ev evs IH]; [split; reflexivity|].
    simpl. rewrite requestsIn_app, reportsIn_app.
    destruct (Hcallback (downloadPercentage (len input) ev)) as [-> ->].
    exact IH. }
  destruct Hprogress as [Hreq Hrep].
  destruct (response outcome); simpl;
    rewrite ?requestsIn_app, ?reportsIn_app, Hreq, Hrep; split; reflexivity.
Qed.

Lemma requestChunks_events (network : nat -> nat -> RequestOutcome)
      (i : nat) (completed totalItems : Z) (count : nat) (chunks : list jsstring) :
  forall j audioBuffers,
    requestsIn (snd (requestChunks reportChunkProgress network i completed totalItems
                       count chunks j audioBuffers))
    = attemptedRequests (network i) chunks j
    /\ reportsIn (snd (requestChunks reportChunkProgress network i completed totalItems
                         count chunks j audioBuffers)) = [].
Proof.
  induction chunks as [|chunk rest IH]; intros j audioBuffers; simpl;
    [split; reflexivity|].
  match goal with
  | |- context [sendTextForTTS chunk j ?cb (network i j)] =>
      destruct (sendTextForTTS_events chunk j cb (network i j)) as [Hreq Hrep];
      [destruct reportChunkProgress; [intros p; split; reflexivity|exact (fun _ => I)]|];
      set (callback := cb) in *
  end.
  assert (Hfst : fst (sendTextForTTS chunk j callback (network i j))
                 = match response (network i j) with
                   | inl data => Some data
                   | inr _ => None
                   end).
  { unfold sendTextForTTS. destruct (response (network i j)); reflexivity. }
  destruct (sendTextForTTS chunk j callback (network i j)) as [audioData events].
  simpl in Hfst, Hreq, Hrep. subst audioData.
  destruct (response (network i j)) as [data|failure].
  - specialize (IH (S j) (audioBuffers ++ [data])).
    destruct (requestChunks reportChunkProgress network i completed totalItems count
                rest (S j) (audioBuffers ++ [data])) as [result later].
    simpl in *. rewrite requestsIn_app, reportsIn_app, Hreq, Hrep.
    destruct IH as [-> ->]. split; reflexivity.
  - simpl. rewrite Hreq, Hrep. split; reflexivity.
Qed.

Lemma synthesize_events (network : nat -> nat -> RequestOutcome)
      (i : nat) (completed totalItems : Z) (output : AudioOutput) :
  isBlank (text output) = false ->
  requestsIn (snd (synthesize mergeBuffers reportChunkProgress network i completed
                     totalItems output))
  = expectedRequests (network i) output
  /\ reportsIn (snd (synthesize mergeBuffers reportChunkProgress network i completed
                       totalItems output)) = [].
Proof.
  intros Hblank. unfold synthesize, expectedRequests. rewrite Hblank.
  destruct (splitTextIntoChunks (removeExtraWhitespaces (text output)) CHUNK_SIZE)
    as [chunks|message|]; try (split; reflexivity).
  destruct (requestChunks_events network i completed totalItems (length chunks)
              chunks 0 []) as [Hreq Hrep].
  destruct (requestChunks reportChunkProgress network i completed totalItems
              (length chunks) chunks 0 []) as [[audioBuffers|message|] events];
    simpl in *; try (split; assumption).
  destruct (mergeBuffers audioBuffers); simpl; split; assumption.
Qed.

Section OneRun.

Variable network : nat -> nat -> RequestOutcome.
Variable totalItems : Z.

Local Abbreviation step :=
  (convertItem mergeBuffers reportChunkProgress network totalItems).

(** The requests an iteration adds. *)
Lemma convertItem_requests (st : BatchState) (j i : nat) :
  itemRequests i (trace (step st j))
  = itemRequests i (trace st)
      ++ (if (j =? i)%nat
          then match updatedOutputs st !! j with
               | Some output => expectedRequests (network j) output
               | None => []
               end
          else []).
Proof.
  unfold convertItem.
  destruct (updatedOutputs st !! j) as [output|] eqn:Hj.
  2:{ destruct (j =? i)%nat; rewrite app_nil_r; reflexivity. }
  destruct (isBlank (text output)) eqn:Hblank.
  { simpl trace. rewrite itemRequests_app. f_equal.
    unfold expectedRequests. rewrite Hblank.
    change [During j (Reported (<[j:=markBlank output]> (updatedOutputs st)))]
      with (map (During j) [Reported (<[j:=markBlank output]> (updatedOutputs st))]).
    rewrite itemRequests_during. destruct (j =? i)%nat; reflexivity. }
  destruct (synthesize_events network j (completedItems st) totalItems output Hblank)
    as [Hreq _].
  destruct (synthesize mergeBuffers reportChunkProgress network j
              (completedItems st) totalItems output) as [[url|message|] events];
    simpl in Hreq; cbv zeta; simpl trace;
    rewrite !itemRequests_app, <- app_assoc; f_equal;
    match goal with
    | |- context [[During j (Reported ?o)]] =>
        change [During j (Reported o)] with (map (During j) [Reported o])
    end;
    rewrite !itemRequests_during;
    destruct (j =? i)%nat; try reflexivity;
    rewrite ?requestsIn_app, Hreq; simpl; rewrite ?app_nil_r; reflexivity.
Qed.

Lemma convert_loop_requests (i : nat) (n : nat) :
  forall a st,
    itemRequests i (trace (fold_left step (seq a n) st))
    = itemRequests i (trace st)
        ++ (if decide (a <= i < a + n)%nat
            then match updatedOutputs st !! i with
                 | Some output => expectedRequests (network i) output
                 | None => []
                 end
            else []).
Proof.
  induction n as [|n IH]; intros a st; simpl.
  - case_decide; [lia|]. rewrite app_nil_r. reflexivity.
  - rewrite IH, convertItem_requests, <- app_assoc. f_equal.
    destruct (Nat.eqb_spec a i) as [->|Hne].
    + case_decide; [lia|]. case_decide; [|lia]. rewrite app_nil_r. reflexivity.
    + simpl.
      assert (Hsame : updatedOutputs (step st a) !! i = updatedOutputs st !! i).
      { destruct (updatedOutputs st !! a) as [output|] eqn:Ha.
        - rewrite (convertItem_outputs mergeBuffers reportChunkProgress network
                     totalItems st a output Ha).
          apply list_lookup_insert_ne. exact Hne.
        - rewrite (convertItem_out_of_range mergeBuffers reportChunkProgress network
                     totalItems st a Ha). reflexivity. }
      rewrite Hsame. repeat case_decide; try reflexivity; lia.
Qed.

End OneRun.

End BatchTraces.

Section BatchOutcomes.

Import UseTTS.

Variable mergeBuffers : list ArrayBuffer -> completion Blob.
Variable reportChunkProgress : bool.

(** The requests of the inner loop form an initial segment of the
    chunks, each with its index; all but the last were answered, and the
    loop stops short only after a failure. *)
Lemma attemptedRequests_shape (outcomes : nat -> RequestOutcome)
      (chunks : list jsstring) :
  forall j0,
  exists m,
    (m <= length chunks)%nat
    /\ attemptedRequests outcomes chunks j0 = combine (firstn m chunks) (seq j0 m)
    /\ (forall k, (S k < m)%nat -> exists data, response (outcomes (j0 + k)%nat) = inl data)
    /\ (m < length chunks ->
        1 <= m /\ exists failure, response (outcomes (j0 + m - 1)%nat) = inr failure)%nat
    /\ (chunks <> [] -> 1 <= m)%nat.
Proof.
  induction chunks as [|chunk rest IH]; intros j0.
  - exists 0%nat. simpl. split; [lia|]. split; [reflexivity|].
    split; [intros k Hk; lia|]. split; [lia|congruence].
  - simpl attemptedRequests.
    destruct (response (outcomes j0)) as [data|failure] eqn:H0.
    + destruct (IH (S j0)) as (m & Hm & Heq & Hok & Hstop & _).
      exists (S m). simpl. split; [lia|]. split; [rewrite Heq; reflexivity|].
      split; [|split].
      * intros [|k] Hk.
        -- exists data. rewrite Nat.add_0_r. exact H0.
        -- destruct (Hok k ltac:(lia)) as [d Hd]. exists d.
           replace (j0 + S k)%nat with (S j0 + k)%nat by lia. exact Hd.
      * intros Hlt. destruct (Hstop ltac:(lia)) as [Hone [f Hf]].
        split; [lia|]. exists f.
        replace (j0 + S m - 1)%nat with (S j0 + m - 1)%nat by lia. exact Hf.
      * intros _. lia.
    + exists 1%nat. simpl. split; [lia|]. split; [reflexivity|].
      split; [intros k Hk; lia|]. split; [|intros _; lia].
      intros _. split; [lia|]. exists failure.
      replace (j0 + 1 - 1)%nat with j0 by lia. exact H0.
Qed.

Lemma fetchChunks_delivered (outcomes : nat -> RequestOutcome)
      (data : nat -> ArrayBuffer) (chunks : list jsstring) :
  forall j audioBuffers,
    (forall k, (k < length chunks)%nat -> response (outcomes (j + k)%nat) = inl (data (j + k)%nat)) ->
    fetchChunks outcomes chunks j audioBuffers
    = Returned (audioBuffers ++ map data (seq j (length chunks))).
Proof.
  induction chunks as [|chunk rest IH]; intros j audioBuffers Hall; simpl.
  - rewrite app_nil_r. reflexivity.
  - pose proof (Hall 0%nat ltac:(simpl; lia)) as H0. rewrite Nat.add_0_r in H0.
    rewrite H0, IH.
    + rewrite <- app_assoc. reflexivity.
    + intros k Hk. specialize (Hall (S k) ltac:(simpl; lia)).
      replace (S j + k)%nat with (j + S k)%nat by lia. exact Hall.
Qed.

Lemma visible_none (s : jsstring) :
  List.filter visible s = [] -> forallb is_ws s = true.
Proof.
  induction s as [|c s IH]; [reflexivity|]. simpl. unfold visible at 1.
  destruct (is_ws c); simpl; [exact IH|discriminate].
Qed.

(** The text of an item that is not blank has at least one chunk. *)
Lemma segmentation_not_empty (s : jsstring) (chunks : list jsstring) :
  isBlank s = false ->
  splitTextIntoChunks (removeExtraWhitespaces s) CHUNK_SIZE = Returned chunks ->
  chunks <> [].
Proof.
  intros Hblank Hsplit ->. unfold splitTextIntoChunks in Hsplit.
  assert (Hcontent : List.filter visible (concat (@nil jsstring))
                     = List.filter visible
                         (removeExtraWhitespaces (removeExtraWhitespaces s))).
  { eapply splitLoop_content; [| | |exact Hsplit];
      [unfold CHUNK_SIZE; lia|lia|reflexivity]. }
  rewrite !visible_removeExtraWhitespaces in Hcontent. simpl in Hcontent.
  symmetry in Hcontent. apply visible_none, isBlank_iff in Hcontent. congruence.
Qed.

(** The lists an iteration reports have the length of the list, and the
    last one is the list the iteration leaves. *)
Lemma convertItem_reports (network : nat -> nat -> RequestOutcome)
      (totalItems : Z) (st : BatchState) (j : nat) (output : AudioOutput) :
  (forall buffers, mergeBuffers buffers <> Diverged) ->
  updatedOutputs st !! j = Some output ->
  exists earlier,
    reports (trace (convertItem mergeBuffers reportChunkProgress network totalItems st j))
    = reports (trace st) ++ earlier
        ++ [updatedOutputs
              (convertItem mergeBuffers reportChunkProgress network totalItems st j)]
    /\ Forall (fun r => length r = length (updatedOutputs st)) earlier
    /\ length (updatedOutputs
                 (convertItem mergeBuffers reportChunkProgress network totalItems st j))
       = length (updatedOutputs st).
Proof.
  intros Hmerge Hj. unfold convertItem. rewrite Hj.
  destruct (isBlank (text output)) eqn:Hblank.
  { exists []. simpl trace. simpl updatedOutputs.
    rewrite reports_app. split; [reflexivity|].
    split; [constructor|apply length_insert]. }
  destruct (synthesize_events mergeBuffers reportChunkProgress network j
              (completedItems st) totalItems output Hblank) as [_ Hrep].
  pose proof (synthesize_value mergeBuffers reportChunkProgress network j
                (completedItems st) totalItems output) as Hval.
  pose proof (conversion_not_diverged mergeBuffers (network j) output Hmerge) as Hnd.
  destruct (synthesize mergeBuffers reportChunkProgress network j
              (completedItems st) totalItems output) as [[url|message|] events];
    simpl in Hrep, Hval; [| |congruence];
    exists [<[j:=markProcessing output]> (updatedOutputs st)];
    cbv zeta; simpl trace; simpl updatedOutputs;
    rewrite !reports_app, reports_during, !reportsIn_app, Hrep;
    (split; [rewrite <- app_assoc; reflexivity|]);
    (split; [repeat constructor; apply length_insert
            |rewrite !length_insert; reflexivity]).
Qed.

Lemma convert_loop_reports (network : nat -> nat -> RequestOutcome)
      (totalItems : Z) (size : nat) (n : nat) :
  (forall buffers, mergeBuffers buffers <> Diverged) ->
  forall a st,
    length (updatedOutputs st) = size ->
    (a + n <= size)%nat ->
    Forall (fun r => length r = size) (reports (trace st)) ->
    let final :=
      fold_left (convertItem mergeBuffers reportChunkProgress network totalItems)
                (seq a n) st in
    Forall (fun r => length r = size) (reports (trace final))
    /\ (0 < n -> exists earlier, reports (trace final) = earlier ++ [updatedOutputs final])%nat.
Proof.
  intros Hmerge. induction n as [|n IH]; intros a st Hsize Hrange Hall; simpl.
  - split; [exact Hall|lia].
  - destruct (lookup_lt_is_Some_2 (updatedOutputs st) a ltac:(lia)) as [output Ha].
    destruct (convertItem_reports network totalItems st a output Hmerge Ha)
      as (earlier & Hrep & Hearlier & Hlen).
    destruct (IH (S a)
                (convertItem mergeBuffers reportChunkProgress network totalItems st a)
                ltac:(lia) ltac:(lia)) as [Hall' Hlast].
    { rewrite Hrep. apply Forall_app. split; [exact Hall|].
      apply Forall_app. split.
      - rewrite <- Hsize. exact Hearlier.
      - repeat constructor. lia. }
    split; [exact Hall'|]. intros _.
    destruct n as [|n]; [|apply Hlast; lia].
    simpl. exists (reports (trace st) ++ earlier).
    rewrite Hrep, app_assoc. reflexivity.
Qed.

(** The requests of an item in the trace of the batch. *)
Lemma convertMultiple_requests (network : nat -> nat -> RequestOutcome)
      (apiKey : string) (outputs : list AudioOutput) (i : nat) (output : AudioOutput) :
  apiKey <> EmptyString ->
  outputs !! i = Some output ->
  itemRequests i
    (snd (convertMultiple mergeBuffers reportChunkProgress network apiKey outputs))
  = expectedRequests (network i) output.
Proof.
  intros Hkey Hi. unfold convertMultiple.
  destruct apiKey as [|c apiKey]; [congruence|]. cbv zeta. simpl snd.
  rewrite itemRequests_app, convert_loop_requests. simpl updatedOutputs.
  simpl trace. rewrite Hi.
  pose proof (lookup_lt_Some _ _ _ Hi) as Hlt.
  case_decide; [|lia].
  assert (Htail : forall l, (forall e, In e l -> exists ev, e = Outside ev) ->
                            itemRequests i l = []).
  { induction l as [|e l IH]; intros Hl; [reflexivity|].
    unfold itemRequests in *. simpl.
    destruct (Hl e (or_introl eq_refl)) as [ev ->]. simpl.
    apply IH. intros e' He'. apply Hl. right. exact He'. }
  rewrite (Htail (Outside (ProcessingSet false) :: _)), app_nil_r;
    [reflexivity|].
  intros e [<-|[<-|He]]; [eexists; reflexivity..|].
  destruct (0 <? _)%nat; simpl in He; [|tauto].
  destruct He as [<-|[]]. eexists; reflexivity.
Qed.

End BatchOutcomes.

(** X9. The requests of an item are made in chunk order and stop at the
    first failure.  For an item that is not blank and whose text is
    segmented into [chunks], the requests found in the trace are the
    first [m] chunks, each sent with its index; every request but the
    last was answered with a fragment, and [m] is less than the number of
    chunks only when request [m - 1] failed.  An item whose segmentation
    throws causes no request. *)
Theorem item_requests_in_order
  (mergeBuffers : list ArrayBuffer -> completion Blob) (reportChunkProgress : bool)
  (network : nat -> nat -> UseTTS.RequestOutcome) (apiKey : string)
  (outputs : list UseTTS.AudioOutput) (i : nat) (output : UseTTS.AudioOutput) :
  apiKey <> EmptyString ->
  outputs !! i = Some output ->
  UseTTS.isBlank (UseTTS.text output) = false ->
  let run :=
    UseTTS.convertMultiple mergeBuffers reportChunkProgress network apiKey outputs in
  (forall message,
      splitTextIntoChunks (removeExtraWhitespaces (UseTTS.text output)) CHUNK_SIZE
      = Thrown message ->
      itemRequests i (snd run) = [])
  /\ (forall chunks,
        splitTextIntoChunks (removeExtraWhitespaces (UseTTS.text output)) CHUNK_SIZE
        = Returned chunks ->
        exists m,
          (1 <= m <= length chunks)%nat
          /\ itemRequests i (snd run) = combine (firstn m chunks) (seq 0 m)
          /\ (forall k, (S k < m)%nat ->
                exists data, UseTTS.response (network i k) = inl data)
          /\ (m < length chunks ->
              exists failure, UseTTS.response (network i (m - 1)%nat) = inr failure)%nat).
Proof.
  intros Hkey Hi Hblank run. unfold run.
  rewrite (convertMultiple_requests mergeBuffers reportChunkProgress network apiKey
             outputs i output Hkey Hi).
  unfold expectedRequests. rewrite Hblank. split.
  - intros message ->. reflexivity.
  - intros chunks Hsplit. rewrite Hsplit.
    pose proof (segmentation_not_empty (UseTTS.text output) chunks Hblank Hsplit) as Hne.
    destruct (attemptedRequests_shape (network i) chunks 0)
      as (m & Hm & Heq & Hok & Hstop & Hone).
    exists m. split; [specialize (Hone Hne); lia|]. split; [exact Heq|].
    split; [exact Hok|].
    intros Hlt. destruct (Hstop Hlt) as [_ [f Hf]]. exists f.
    replace (m - 1)%nat with (0 + m - 1)%nat by lia. exact Hf.
Qed.

Lemma item_requests_in_order_witness :
  itemRequests 0
    (snd (UseTTS.convertMultiple UseTTS.mergeBuffersConcat false
            (fun _ _ => UseTTS.refused 429) "key" [UseTTS.typedItem "a" "Hi. Yo."]))
  = [(lit "Hi. Yo.", 0%nat)].
Proof.
  assert (Hkey : "key"%string <> EmptyString) by discriminate.
  destruct (item_requests_in_order UseTTS.mergeBuffersConcat false
              (fun _ _ => UseTTS.refused 429) "key" [UseTTS.typedItem "a" "Hi. Yo."]
              0 (UseTTS.typedItem "a" "Hi. Yo.") Hkey eq_refl eq_refl) as [_ Hreturned].
  destruct (Hreturned [lit "Hi. Yo."] eq_refl) as (m & Hm & Hrequests & _).
  simpl in Hm. assert (m = 1%nat) as -> by lia. exact Hrequests.
Defined.

(** X10. The fragments are assembled in chunk order.  When every chunk
    request of an item that is not blank is answered, the assembler is
    given the fragments in the order of the chunks, and the record of
    the item is decided by the assembler alone: [success] with the
    object URL of the blob it returns, [error] with the message it
    throws.  Under the revision that concatenates, the artifact is the
    byte concatenation of the fragments, typed [audio/mp3]. *)
Theorem delivered_fragments_assembled_in_order
  (mergeBuffers : list ArrayBuffer -> completion Blob) (reportChunkProgress : bool)
  (network : nat -> nat -> UseTTS.RequestOutcome) (apiKey : string)
  (outputs : list UseTTS.AudioOutput) (i : nat) (output : UseTTS.AudioOutput)
  (chunks : list jsstring) (data : nat -> ArrayBuffer) :
  apiKey <> EmptyString ->
  outputs !! i = Some output ->
  UseTTS.isBlank (UseTTS.text output) = false ->
  splitTextIntoChunks (removeExtraWhitespaces (UseTTS.text output)) CHUNK_SIZE
  = Returned chunks ->
  (forall j, (j < length chunks)%nat -> UseTTS.response (network i j) = inl (data j)) ->
  let fragments := map data (seq 0 (length chunks)) in
  fst (UseTTS.convertMultiple mergeBuffers reportChunkProgress network apiKey outputs) !! i
  = Some match mergeBuffers fragments with
         | Returned blob => UseTTS.markSuccess output (UseTTS.createObjectURL blob)
         | Thrown message => UseTTS.markError output message
         | Diverged => UseTTS.markProcessing output
         end
  /\ fst (UseTTS.convertMultiple UseTTS.mergeBuffersConcat reportChunkProgress network
            apiKey outputs) !! i
     = Some (UseTTS.markSuccess output
               (UseTTS.createObjectURL
                  {| blobBytes := concat fragments; blobType := "audio/mp3" |})).
Proof.
  intros Hkey Hi Hblank Hsplit Hall fragments.
  assert (Hgeneral : forall assemble,
             fst (UseTTS.convertMultiple assemble reportChunkProgress network apiKey
                    outputs) !! i
             = Some match assemble fragments with
                    | Returned blob => UseTTS.markSuccess output (UseTTS.createObjectURL blob)
                    | Thrown message => UseTTS.markError output message
                    | Diverged => UseTTS.markProcessing output
                    end).
  { intros assemble.
    destruct (convertMultiple_lookup assemble reportChunkProgress network apiKey
                outputs i Hkey) as [_ ->].
    rewrite Hi. simpl. f_equal. unfold settle, conversion.
    rewrite Hblank, Hsplit.
    rewrite (fetchChunks_delivered (network i) data chunks 0 []) by exact Hall.
    simpl app. fold fragments. destruct (assemble fragments); reflexivity. }
  split; [apply Hgeneral|]. rewrite Hgeneral. reflexivity.
Qed.

Lemma delivered_fragments_assembled_in_order_witness :
  fst (UseTTS.convertMultiple UseTTS.mergeBuffersConcat false
         (fun _ _ => UseTTS.delivered [Byte.x01; Byte.x02]) "key"
         [UseTTS.typedItem "a" "Hi. Yo."]) !! 0%nat
  = Some (UseTTS.markSuccess (UseTTS.typedItem "a" "Hi. Yo.")
            (UseTTS.createObjectURL
               {| blobBytes := [Byte.x01; Byte.x02]; blobType := "audio/mp3" |})).
Proof.
  assert (Hkey : "key"%string <> EmptyString) by discriminate.
  exact (proj2 (delivered_fragments_assembled_in_order UseTTS.mergeBuffersConcat false
                  (fun _ _ => UseTTS.delivered [Byte.x01; Byte.x02]) "key"
                  [UseTTS.typedItem "a" "Hi. Yo."] 0 (UseTTS.typedItem "a" "Hi. Yo.")
                  [lit "Hi. Yo."] (fun _ => [Byte.x01; Byte.x02])
                  Hkey eq_refl eq_refl eq_refl (fun _ _ => eq_refl))).
Defined.

(** X11. The batch changes nothing of an item but its status, its audio
    URL and its error: the returned list has, position by position, the
    [id], [name], [filename], [sourceType] and [text] of the list passed
    in.  A record that does not end as [success] keeps the audio URL it
    came with, and one that does not end as [error] keeps its error
    field. *)
Theorem convertMultiple_keeps_identity
  (mergeBuffers : list ArrayBuffer -> completion Blob) (reportChunkProgress : bool)
  (network : nat -> nat -> UseTTS.RequestOutcome) (apiKey : string)
  (outputs : list UseTTS.AudioOutput) :
  Forall2 (fun output final =>
             UseTTS.id final = UseTTS.id output
             /\ UseTTS.name final = UseTTS.name output
             /\ UseTTS.filename final = UseTTS.filename output
             /\ UseTTS.sourceType final = UseTTS.sourceType output
             /\ UseTTS.text final = UseTTS.text output
             /\ (UseTTS.status final <> UseTTS.status_success ->
                 UseTTS.audioUrl final = UseTTS.audioUrl output)
             /\ (UseTTS.status final <> UseTTS.status_error ->
                 UseTTS.error final = UseTTS.error output))
          outputs
          (fst (UseTTS.convertMultiple mergeBuffers reportChunkProgress network apiKey
                  outputs)).
Proof.
  destruct apiKey as [|c apiKey].
  - simpl. induction outputs as [|output outputs IH]; constructor; [|exact IH].
    repeat split; reflexivity.
  - assert (Hkey : String c apiKey <> EmptyString) by discriminate.
    apply Forall2_same_length_lookup_2.
    + symmetry.
      apply (convertMultiple_lookup mergeBuffers reportChunkProgress network
               (String c apiKey) outputs 0 Hkey).
    + intros k output final Hk Hfinal.
      destruct (convertMultiple_lookup mergeBuffers reportChunkProgress network
                  (String c apiKey) outputs k Hkey) as [_ Hlook].
      rewrite Hlook, Hk in Hfinal. simpl in Hfinal. injection Hfinal as <-.
      unfold settle. destruct (UseTTS.isBlank (UseTTS.text output)).
      * simpl. repeat split; try reflexivity. congruence.
      * destruct (conversion mergeBuffers (network k) output); simpl;
          repeat split; try reflexivity; congruence.
Qed.

(** X12. What [onProgress] is told.  With a key, an assembler that
    returns or throws, and a list that is not empty, every list reported
    has as many records as the list passed in, and the last list
    reported is the list [convertMultiple] returns.  For the empty list
    nothing is reported. *)
Theorem convertMultiple_reports
  (mergeBuffers : list ArrayBuffer -> completion Blob) (reportChunkProgress : bool)
  (network : nat -> nat -> UseTTS.RequestOutcome) (apiKey : string)
  (outputs : list UseTTS.AudioOutput) :
  apiKey <> EmptyString ->
  (forall buffers, mergeBuffers buffers <> Diverged) ->
  let run :=
    UseTTS.convertMultiple mergeBuffers reportChunkProgress network apiKey outputs in
  Forall (fun reported => length reported = length outputs) (reports (snd run))
  /\ (outputs = [] -> reports (snd run) = [])
  /\ (outputs <> [] -> exists earlier, reports (snd run) = earlier ++ [fst run]).
Proof.
  intros Hkey Hmerge run. unfold run, UseTTS.convertMultiple.
  destruct apiKey as [|c apiKey]; [congruence|]. cbv zeta. simpl fst. simpl snd.
  match goal with
  | |- context [fold_left ?f (seq 0 ?n) ?st] =>
      destruct (convert_loop_reports mergeBuffers reportChunkProgress network
                  (Z.of_nat (length outputs)) (length outputs) n Hmerge 0 st
                  eq_refl ltac:(lia) ltac:(constructor)) as [Hall Hlast];
      set (final := fold_left f (seq 0 n) st) in *
  end.
  assert (Htail : forall tail,
             reports (UseTTS.trace final
                        ++ UseTTS.Outside (UseTTS.ProcessingSet false)
                        :: UseTTS.Outside (UseTTS.ProgressSet (UseTTS.Exactly 100))
                        :: (if (0 <? tail)%nat
                            then [UseTTS.Outside
                                    (UseTTS.ToastShown (UseTTS.successToast tail))]
                            else []))
             = reports (UseTTS.trace final)).
  { intros tail. rewrite reports_app.
    destruct (0 <? tail)%nat; simpl; apply app_nil_r. }
  rewrite Htail. split; [exact Hall|]. split.
  - intros ->. reflexivity.
  - intros Hne. apply Hlast. destruct outputs; [congruence|simpl; lia].
Qed.

Lemma convertMultiple_reports_witness :
  let run := UseTTS.convertMultiple UseTTS.mergeBuffersConcat false
               (fun _ _ => UseTTS.refused 500) "key"
               [UseTTS.typedItem "a" "Hi."; UseTTS.typedItem "b" " "] in
  Forall (fun reported => length reported = 2%nat) (reports (snd run))
  /\ exists earlier, reports (snd run) = earlier ++ [fst run].
Proof.
  intros run.
  assert (Hkey : "key"%string <> EmptyString) by discriminate.
  assert (Hmerge : forall buffers, UseTTS.mergeBuffersConcat buffers <> Diverged)
    by (intros buffers; discriminate).
  destruct (convertMultiple_reports UseTTS.mergeBuffersConcat false
              (fun _ _ => UseTTS.refused 500) "key"
              [UseTTS.typedItem "a" "Hi."; UseTTS.typedItem "b" " "] Hkey Hmerge)
    as (Hall & _ & Hlast).
  split; [exact Hall|]. apply Hlast. discriminate.
Defined.

(** * The single conversion *)

Section SingleConversion.

Import UseTTS.
Import UseTTSControls.

Variable mergeBuffers : list ArrayBuffer -> completion Blob.
Variable outcomes : nat -> RequestOutcome.

(** One request without a progress callback. *)
Lemma sendTextForTTS_plain (input : jsstring) (j : nat) (outcome : RequestOutcome) :
  sendTextForTTS input j None outcome
  = match response outcome with
    | inl data => (Some data, [Request input j])
    | inr failure =>
        (None, [Request input j; ToastShown (errorToast (failureMessage failure))])
    end.
Proof. unfold sendTextForTTS. destruct (response outcome); reflexivity. Qed.

Lemma speakChunks_value (totalChunks : nat) (chunks : list jsstring) :
  forall i audioBuffers,
    fst (speakChunks outcomes totalChunks chunks i audioBuffers)
    = fetchChunks outcomes chunks i audioBuffers.
Proof.
  induction chunks as [|chunk rest IH]; intros i audioBuffers; simpl; [reflexivity|].
  rewrite sendTextForTTS_plain.
  destruct (response (outcomes i)) as [data|failure]; [|reflexivity].
  specialize (IH (S i) (audioBuffers ++ [data])).
  destruct (speakChunks outcomes totalChunks rest (S i) (audioBuffers ++ [data])).
  exact IH.
Qed.

Lemma speakChunks_events (totalChunks : nat) (chunks : list jsstring) :
  forall i audioBuffers,
    let events := snd (speakChunks outcomes totalChunks chunks i audioBuffers) in
    hookRequests events = attemptedRequests outcomes chunks i
    /\ hookToasts events = failureToasts outcomes chunks i
    /\ revocations events = []
    /\ audioUrlUpdates events = [].
Proof.
  induction chunks as [|chunk rest IH]; intros i audioBuffers; simpl;
    [repeat split; reflexivity|].
  rewrite sendTextForTTS_plain.
  destruct (response (outcomes i)) as [data|failure];
    [|repeat split; reflexivity].
  specialize (IH (S i) (audioBuffers ++ [data])).
  destruct (speakChunks outcomes totalChunks rest (S i) (audioBuffers ++ [data]))
    as [result later].
  simpl in IH |- *. destruct IH as (Hreq & Htoast & Hrev & Hurl).
  rewrite Hreq, Htoast, Hrev, Hurl. repeat split; reflexivity.
Qed.

(** The toast of the inner loop, by its outcome. *)
Lemma failureToasts_fetch (chunks : list jsstring) :
  forall j audioBuffers,
    match fetchChunks outcomes chunks j audioBuffers with
    | Returned _ => failureToasts outcomes chunks j = []
    | Thrown message =>
        exists k failure,
          response (outcomes k) = inr failure
          /\ message = chunkFailedMessage k
          /\ failureToasts outcomes chunks j = [errorToast (failureMessage failure)]
    | Diverged => False
    end.
Proof.
  induction chunks as [|chunk rest IH]; intros j audioBuffers; simpl; [reflexivity|].
  destruct (response (outcomes j)) as [data|failure] eqn:Hj.
  - apply IH.
  - exists j, failure. split; [exact Hj|split; reflexivity].
Qed.

Lemma speak_value (item : AudioOutput) :
  fst (speak mergeBuffers outcomes (text item)) = conversion mergeBuffers outcomes item.
Proof.
  unfold speak, conversion.
  destruct (splitTextIntoChunks (removeExtraWhitespaces (text item)) CHUNK_SIZE)
    as [chunks|message|]; try reflexivity.
  rewrite <- (speakChunks_value (length chunks) chunks 0 []).
  destruct (speakChunks outcomes (length chunks) chunks 0 [])
    as [[audioBuffers|message|] events]; simpl; try reflexivity.
  destruct (mergeBuffers audioBuffers); reflexivity.
Qed.

Lemma speak_events (item : AudioOutput) :
  isBlank (text item) = false ->
  let events := snd (speak mergeBuffers outcomes (text item)) in
  hookRequests events = expectedRequests outcomes item
  /\ revocations events = []
  /\ audioUrlUpdates events = []
  /\ match fst (speak mergeBuffers outcomes (text item)) with
     | Returned _ => hookToasts events = []
     | Thrown message =>
         hookToasts events = []
         \/ exists k failure,
              response (outcomes k) = inr failure
              /\ message = chunkFailedMessage k
              /\ hookToasts events = [errorToast (failureMessage failure)]
     | Diverged => True
     end.
Proof.
  intros Hblank. unfold speak, expectedRequests. rewrite Hblank.
  destruct (splitTextIntoChunks (removeExtraWhitespaces (text item)) CHUNK_SIZE)
    as [chunks|message|]; try (simpl; repeat split; auto; fail).
  destruct (speakChunks_events (length chunks) chunks 0 [])
    as (Hreq & Htoast & Hrev & Hurl).
  pose proof (speakChunks_value (length chunks) chunks 0 []) as Hvalue.
  pose proof (failureToasts_fetch chunks 0 []) as Hfetch.
  destruct (speakChunks outcomes (length chunks) chunks 0 [])
    as [[audioBuffers|message|] events]; simpl in *;
    rewrite <- Hvalue in Hfetch.
  - destruct (mergeBuffers audioBuffers); simpl;
      repeat split; auto; try congruence.
    left. congruence.
  - repeat split; auto. right.
    destruct Hfetch as (k & failure & Hk & Hmsg & Hfail).
    exists k, failure. repeat split; congruence.
  - repeat split; auto.
Qed.

End SingleConversion.

(** X13. A single conversion is a batch of one.  With a key, for a text
    that is not blank and an assembler that returns or throws,
    [convertToSpeech] sends the requests that [convertMultiple] sends for
    a one-item list holding that text, in the same order, and ends the
    same way: either both succeed, the audio URL left in the hook being
    the one written to the record, or both fail, the message written to
    the record being shown in an error toast, and no audio URL is
    left. *)
Theorem convertToSpeech_as_batch_of_one
  (mergeBuffers : list ArrayBuffer -> completion Blob) (reportChunkProgress : bool)
  (outcomes : nat -> UseTTS.RequestOutcome) (apiKey : string)
  (audioUrlRef : option UseTTS.ObjectURL) (item : UseTTS.AudioOutput) :
  apiKey <> EmptyString ->
  UseTTS.isBlank (UseTTS.text item) = false ->
  (forall buffers, mergeBuffers buffers <> Diverged) ->
  let single :=
    UseTTSControls.convertToSpeech mergeBuffers outcomes apiKey audioUrlRef
      (UseTTS.text item) in
  let batch :=
    UseTTS.convertMultiple mergeBuffers reportChunkProgress (fun _ => outcomes) apiKey
      [item] in
  hookRequests (snd single) = itemRequests 0 (snd batch)
  /\ ((exists url,
         fst single = Some url /\ fst batch = [UseTTS.markSuccess item url])
      \/ (exists message,
            fst single = None
            /\ fst batch = [UseTTS.markError item message]
            /\ In (UseTTSControls.Shared
                     (UseTTS.ToastShown (UseTTS.errorToast message)))
                  (snd single))).
Proof.
  intros Hkey Hblank Hmerge single batch. unfold batch.
  rewrite (convertMultiple_requests mergeBuffers reportChunkProgress
             (fun _ => outcomes) apiKey [item] 0 item Hkey eq_refl).
  rewrite (convertMultiple_alone mergeBuffers reportChunkProgress outcomes apiKey item
             Hkey).
  unfold settle. rewrite Hblank.
  pose proof (speak_value mergeBuffers outcomes item) as Hvalue.
  destruct (speak_events mergeBuffers outcomes item Hblank) as (Hreq & _).
  pose proof (conversion_not_diverged mergeBuffers outcomes item Hmerge) as Hnd.
  unfold single, UseTTSControls.convertToSpeech. rewrite Hblank.
  destruct apiKey as [|c apiKey]; [congruence|].
  destruct (UseTTSControls.speak mergeBuffers outcomes (UseTTS.text item))
    as [[url|message|] events]; simpl in Hvalue, Hreq; rewrite <- Hvalue in *;
    [| |congruence];
    destruct audioUrlRef; cbv beta iota zeta delta [UseTTSControls.cleanupBlobUrl];
    simpl fst; simpl snd;
    (split; [unfold hookRequests in *; simpl; rewrite flat_map_app, Hreq; simpl;
             apply app_nil_r|]).
  1,2: left; exists url; split; reflexivity.
  all: right; exists message; (split; [reflexivity|]); (split; [reflexivity|]).
  all: simpl; rewrite !in_app_iff; simpl; tauto.
Qed.

Lemma convertToSpeech_as_batch_of_one_witness :
  let item := UseTTS.typedItem "a" "Hi. Yo." in
  hookRequests
    (snd (UseTTSControls.convertToSpeech UseTTS.mergeBuffersConcat
            (fun _ => UseTTS.refused 401) "key" None (UseTTS.text item)))
  = itemRequests 0
      (snd (UseTTS.convertMultiple UseTTS.mergeBuffersConcat true
              (fun _ _ => UseTTS.refused 401) "key" [item])).
Proof.
  intros item.
  assert (Hkey : "key"%string <> EmptyString) by discriminate.
  assert (Hmerge : forall buffers, UseTTS.mergeBuffersConcat buffers <> Diverged)
    by (intros buffers; discriminate).
  exact (proj1 (convertToSpeech_as_batch_of_one UseTTS.mergeBuffersConcat true
                  (fun _ => UseTTS.refused 401) "key" None item Hkey eq_refl Hmerge)).
Defined.

(** X14. What a conversion does to the audio the hook holds.  Once the
    text and the key have passed the two checks, the URL held before is
    revoked, once, and nothing else is revoked; the run ends by setting
    [isProcessing] to [false] and the progress to 100.  If the run leaves
    a URL, [audioUrl] was set to [null] and then to that URL, and the
    only toast is the success toast.  If it leaves none, [audioUrl] was
    set to [null] and to nothing else, so the audio held before is gone
    although nothing replaced it, and the toasts are error toasts: the
    message of the exception alone, or, when a chunk request failed, the
    toast of the request followed by the message naming the chunk. *)
Theorem convertToSpeech_lifecycle
  (mergeBuffers : list ArrayBuffer -> completion Blob)
  (outcomes : nat -> UseTTS.RequestOutcome) (apiKey : string)
  (audioUrlRef : option UseTTS.ObjectURL) (text : jsstring) :
  apiKey <> EmptyString ->
  UseTTS.isBlank text = false ->
  (forall buffers, mergeBuffers buffers <> Diverged) ->
  let run :=
    UseTTSControls.convertToSpeech mergeBuffers outcomes apiKey audioUrlRef text in
  revocations (snd run) = match audioUrlRef with Some url => [url] | None => [] end
  /\ (exists before,
        snd run
        = before ++ [UseTTSControls.Shared (UseTTS.ProcessingSet false);
                     UseTTSControls.Shared (UseTTS.ProgressSet (UseTTS.Exactly 100))])
  /\ match fst run with
     | Some url =>
         audioUrlUpdates (snd run) = [None; Some url]
         /\ hookToasts (snd run) = [UseTTSControls.generatedToast]
     | None =>
         audioUrlUpdates (snd run) = [None]
         /\ ((exists message, hookToasts (snd run) = [UseTTS.errorToast message])
             \/ (exists k failure,
                   UseTTS.response (outcomes k) = inr failure
                   /\ hookToasts (snd run)
                      = [UseTTS.errorToast (UseTTS.failureMessage failure);
                         UseTTS.errorToast (UseTTS.chunkFailedMessage k)]))
     end.
Proof.
  intros Hkey Hblank Hmerge run.
  pose (item := {| UseTTS.id := EmptyString; UseTTS.name := EmptyString;
                   UseTTS.filename := EmptyString;
                   UseTTS.sourceType := UseTTS.source_text; UseTTS.text := text;
                   UseTTS.audioUrl := None; UseTTS.status := UseTTS.status_pending;
                   UseTTS.error := None |}).
  pose proof (speak_value mergeBuffers outcomes item) as Hvalue.
  destruct (speak_events mergeBuffers outcomes item Hblank)
    as (_ & Hrev & Hurl & Htoast).
  pose proof (conversion_not_diverged mergeBuffers outcomes item Hmerge) as Hnd.
  change (UseTTS.text item) with text in *.
  unfold run, UseTTSControls.convertToSpeech. rewrite Hblank.
  destruct apiKey as [|c apiKey]; [congruence|].
  destruct (UseTTSControls.speak mergeBuffers outcomes text)
    as [[url|message|] events]; simpl in Hvalue, Hrev, Hurl, Htoast;
    rewrite <- Hvalue in *; [| |congruence];
    destruct audioUrlRef as [old|];
    cbv beta iota zeta delta [UseTTSControls.cleanupBlobUrl];
    simpl fst; simpl snd;
    unfold revocations, audioUrlUpdates, hookToasts in *; simpl;
    rewrite !flat_map_app, ?Hrev, ?Hurl; simpl.
  1,2: rewrite Htoast.
  1,2: split; [reflexivity|]; split; [|split; reflexivity].
  1: exists ([UseTTSControls.Shared (UseTTS.ProgressSet (UseTTS.Exactly 0));
              UseTTSControls.Shared (UseTTS.ProcessingSet true);
              UseTTSControls.Revoked old; UseTTSControls.AudioUrlSet None]
               ++ events
               ++ [UseTTSControls.AudioUrlSet (Some url);
                   UseTTSControls.Shared
                     (UseTTS.ToastShown UseTTSControls.generatedToast)]).
  2: exists ([UseTTSControls.Shared (UseTTS.ProgressSet (UseTTS.Exactly 0));
              UseTTSControls.Shared (UseTTS.ProcessingSet true);
              UseTTSControls.AudioUrlSet None]
               ++ events
               ++ [UseTTSControls.AudioUrlSet (Some url);
                   UseTTSControls.Shared
                     (UseTTS.ToastShown UseTTSControls.generatedToast)]).
  1,2: simpl; rewrite <- !app_assoc; reflexivity.
  all: split; [reflexivity|]; split.
  1: exists ([UseTTSControls.Shared (UseTTS.ProgressSet (UseTTS.Exactly 0));
              UseTTSControls.Shared (UseTTS.ProcessingSet true);
              UseTTSControls.Revoked old; UseTTSControls.AudioUrlSet None]
               ++ events
               ++ [UseTTSControls.Shared
                     (UseTTS.ToastShown (UseTTS.errorToast message))]).
  1: simpl; rewrite <- !app_assoc; reflexivity.
  2: exists ([UseTTSControls.Shared (UseTTS.ProgressSet (UseTTS.Exactly 0));
              UseTTSControls.Shared (UseTTS.ProcessingSet true);
              UseTTSControls.AudioUrlSet None]
               ++ events
               ++ [UseTTSControls.Shared
                     (UseTTS.ToastShown (UseTTS.errorToast message))]).
  2: simpl; rewrite <- !app_assoc; reflexivity.
  all: split; [reflexivity|].
  all: destruct Htoast as [Hnone|(k & failure & Hk & Hmsg & Hone)].
  all: try (left; exists message; rewrite Hnone; reflexivity).
  all: right; exists k, failure; split; [exact Hk|]; rewrite Hone, Hmsg; reflexivity.
Qed.

Lemma convertToSpeech_lifecycle_witness :
  let previous :=
    UseTTS.createObjectURL {| blobBytes := [Byte.x07]; blobType := "audio/mp3" |} in
  let run :=
    UseTTSControls.convertToSpeech UseTTS.mergeBuffersConcat
      (fun _ => UseTTS.refused 429) "key" (Some previous) (lit "Hi. Yo.") in
  revocations (snd run) = [previous] /\ fst run = None.
Proof.
  intros previous run.
  assert (Hkey : "key"%string <> EmptyString) by discriminate.
  assert (Hmerge : forall buffers, UseTTS.mergeBuffersConcat buffers <> Diverged)
    by (intros buffers; discriminate).
  split; [|reflexivity].
  exact (proj1 (convertToSpeech_lifecycle UseTTS.mergeBuffersConcat
                  (fun _ => UseTTS.refused 429) "key" (Some previous) (lit "Hi. Yo.")
                  Hkey eq_refl Hmerge)).
Defined.

(** * The voice test and the downloads *)

Section Downloads.

Import UseTTSControls.

Lemma list_ascii_of_string_app (a b : string) :
  list_ascii_of_string (a ++ b) = list_ascii_of_string a ++ list_ascii_of_string b.
Proof. induction a as [|c a IH]; simpl; [reflexivity|rewrite IH; reflexivity]. Qed.

Lemma endsWith_app (s suffix : string) : endsWith (s ++ suffix) suffix = true.
Proof.
  unfold endsWith. rewrite list_ascii_of_string_app, length_app.
  apply andb_true_intro. split; [apply Nat.leb_le; lia|].
  replace (length (list_ascii_of_string s) + length (list_ascii_of_string suffix)
           - length (list_ascii_of_string suffix))%nat
    with (length (list_ascii_of_string s)) by lia.
  rewrite drop_app_length, string_of_list_ascii_of_string.
  apply String.eqb_refl.
Qed.

Lemma downloadName_suffix (filename : string) :
  endsWith (downloadName filename) ".mp3" = true.
Proof.
  unfold downloadName. destruct (endsWith filename ".mp3") eqn:Hends;
    [exact Hends|apply endsWith_app].
Qed.

End Downloads.

(** X15. Every download is offered under a name that ends in [.mp3]:
    [downloadFromUrl] and [downloadAudio] click a link to the URL they
    are given whose [download] attribute is the file name, or the file
    name followed by [.mp3] when it does not end so already; a name that
    has gone through this once is left alone by it. *)
Theorem download_named_mp3 (url : UseTTS.ObjectURL) (filename : string) :
  exists name,
    UseTTSControls.downloadFromUrl url filename = [UseTTSControls.LinkClicked url name]
    /\ UseTTSControls.downloadAudio (Some url) (Some filename)
       = [UseTTSControls.LinkClicked url name]
    /\ UseTTSControls.endsWith name ".mp3" = true
    /\ (name = filename \/ name = (filename ++ ".mp3")%string)
    /\ UseTTSControls.downloadFromUrl url name = [UseTTSControls.LinkClicked url name].
Proof.
  exists (UseTTSControls.downloadName filename).
  split; [reflexivity|]. split; [reflexivity|].
  split; [apply downloadName_suffix|]. split.
  - unfold UseTTSControls.downloadName.
    destruct (UseTTSControls.endsWith filename ".mp3"); [left|right]; reflexivity.
  - unfold UseTTSControls.downloadFromUrl.
    unfold UseTTSControls.downloadName at 1.
    rewrite downloadName_suffix. reflexivity.
Qed.

(** X16. The voice test is a conversion of the test sentence.  Under
    either revision of the assembler, [testVoice] leaves in its ref what
    [convertToSpeech] leaves in its own for the text
    ["This is a test of the selected voice."], the request ending the
    same way, and it sends the same request; when there is no key,
    neither sends one. *)
Theorem testVoice_as_conversion
  (Sample : Type) (decodeAudioData : ArrayBuffer -> option (AudioBuffer Sample))
  (audioBufferToMp3 : AudioBuffer Sample -> Blob)
  (apiKey : string) (current : option UseTTS.ObjectURL)
  (outcome : UseTTS.RequestOutcome) (mergeBuffers : list ArrayBuffer -> completion Blob) :
  mergeBuffers = UseTTS.mergeBuffersConcat
  \/ mergeBuffers = UseTTS.mergeBuffersDecoding decodeAudioData audioBufferToMp3 ->
  let test := UseTTSControls.testVoice apiKey current outcome in
  let conversion :=
    UseTTSControls.convertToSpeech mergeBuffers (fun _ => outcome) apiKey current
      UseTTSControls.TEST_TEXT in
  fst test = fst conversion
  /\ hookRequests (snd test) = hookRequests (snd conversion)
  /\ hookRequests (snd test)
     = match apiKey with
       | EmptyString => []
       | String _ _ => [(UseTTSControls.TEST_TEXT, 0%nat)]
       end.
Proof.
  intros Hrevision test conversion.
  assert (Hone : forall data,
             mergeBuffers [data]
             = Returned {| blobBytes := data; blobType := "audio/mp3" |}).
  { intros data.
    destruct Hrevision as [-> | ->];
      unfold UseTTS.mergeBuffersConcat, UseTTS.mergeBuffersDecoding, concatenateBuffers;
      simpl; rewrite app_nil_r; reflexivity. }
  assert (Hblank : UseTTS.isBlank UseTTSControls.TEST_TEXT = false)
    by (vm_compute; reflexivity).
  assert (Hsplit : splitTextIntoChunks (removeExtraWhitespaces UseTTSControls.TEST_TEXT)
                     CHUNK_SIZE = Returned [UseTTSControls.TEST_TEXT])
    by (vm_compute; reflexivity).
  unfold test, conversion, UseTTSControls.testVoice, UseTTSControls.convertToSpeech.
  rewrite Hblank. destruct apiKey as [|c apiKey]; [repeat split; reflexivity|].
  unfold UseTTSControls.speak. rewrite Hsplit. simpl UseTTSControls.speakChunks.
  rewrite !sendTextForTTS_plain.
  destruct (UseTTS.response outcome) as [data|failure];
    [simpl app; rewrite Hone|];
    destruct current as [old|]; repeat split; reflexivity.
Qed.

Lemma testVoice_as_conversion_witness :
  fst (UseTTSControls.testVoice "key" None (UseTTS.delivered [Byte.x01]))
  = fst (UseTTSControls.convertToSpeech UseTTS.mergeBuffersConcat
           (fun _ => UseTTS.delivered [Byte.x01]) "key" None UseTTSControls.TEST_TEXT).
Proof.
  exact (proj1 (testVoice_as_conversion Byte.byte sampleDecoder sampleEncoder "key" None
                  (UseTTS.delivered [Byte.x01]) UseTTS.mergeBuffersConcat
                  (or_introl eq_refl))).
Defined.

(** * The list the page converts *)

Section PageOutputs.

Import UseTTS.
Import TTSPage.

Lemma endsWith_audio (s : string) (tail : string) :
  UseTTSControls.endsWith tail ".mp3" = true ->
  UseTTSControls.endsWith (s ++ tail) ".mp3" = true.
Proof.
  unfold UseTTSControls.endsWith. rewrite list_ascii_of_string_app, length_app.
  intros H. apply andb_prop in H as [Hlen Heq]. apply Nat.leb_le in Hlen.
  apply andb_true_intro. split; [apply Nat.leb_le; lia|].
  rewrite skipn_app.
  replace (length (list_ascii_of_string s) + length (list_ascii_of_string tail)
           - length (list_ascii_of_string ".mp3")
           - length (list_ascii_of_string s))%nat
    with (length (list_ascii_of_string tail) - length (list_ascii_of_string ".mp3"))%nat
    by lia.
  rewrite (skipn_all2 (list_ascii_of_string s)) by lia. exact Heq.
Qed.

Lemma endsWith_cons (c : ascii) (tail : string) :
  UseTTSControls.endsWith tail ".mp3" = true ->
  UseTTSControls.endsWith (String c tail) ".mp3" = true.
Proof. apply (endsWith_audio (String c EmptyString) tail). Qed.

Lemma downloadName_fixed (s : string) :
  UseTTSControls.endsWith s ".mp3" = true -> UseTTSControls.downloadName s = s.
Proof. intros H. unfold UseTTSControls.downloadName. rewrite H. reflexivity. Qed.

Lemma texts_of_file_outputs (l : list UseFileUpload.UploadedFile) :
  map text (map fileOutput l) = map UseFileUpload.content l.
Proof. induction l as [|f l IH]; simpl; [reflexivity|rewrite IH; reflexivity]. Qed.

Lemma find_file_outputs (l : list UseFileUpload.UploadedFile) (tail : list AudioOutput) :
  find isMerged (map fileOutput l ++ tail) = find isMerged tail.
Proof. induction l as [|f l IH]; simpl; [reflexivity|exact IH]. Qed.

Lemma updateMerged_file_outputs (mergedText : jsstring)
      (l : list UseFileUpload.UploadedFile) (tail : list AudioOutput) :
  updateMerged mergedText (map fileOutput l ++ tail)
  = map fileOutput l ++ updateMerged mergedText tail.
Proof.
  induction l as [|f l IH]; simpl; [reflexivity|rewrite IH; reflexivity].
Qed.

End PageOutputs.

(** X17. The list [handleConvert] converts.  It holds one output per
    source, the typed text first when there is some, then the files that
    were read, in their order; after them, when at least one file was
    read and there are two sources or more, one merged output, whose text
    is the texts of the sources joined by blank lines.  Every output
    starts as [pending], without audio URL and without error, and has a
    file name that ends in [.mp3], so that a download keeps it. *)
Theorem buildOutputs_shape (files : list UseFileUpload.UploadedFile) (inputText : jsstring) :
  let sources := pageSources files inputText in
  let outputs := TTSPage.buildOutputs files inputText in
  exists merged,
    outputs = sources ++ merged
    /\ (if (1 <=? length (List.filter UseFileUpload.isSuccess files))%nat
           && (2 <=? length sources)%nat
        then exists mergedFilename,
               merged = [TTSPage.mergedOutput mergedFilename
                           (join UseFileUpload.BLANK_LINE (map UseTTS.text sources))]
        else merged = [])
    /\ Forall (fun o =>
                 UseTTS.status o = UseTTS.status_pending
                 /\ UseTTS.audioUrl o = None /\ UseTTS.error o = None
                 /\ UseTTSControls.downloadName (UseTTS.filename o) = UseTTS.filename o)
              outputs.
Proof.
  intros sources outputs. unfold sources, outputs, pageSources, TTSPage.buildOutputs.
  set (successFiles := List.filter UseFileUpload.isSuccess files).
  set (typed := trim inputText).
  set (ready := fun o : UseTTS.AudioOutput =>
                  UseTTS.status o = UseTTS.status_pending
                  /\ UseTTS.audioUrl o = None /\ UseTTS.error o = None
                  /\ UseTTSControls.downloadName (UseTTS.filename o)
                     = UseTTS.filename o).
  assert (Hfile : forall f, ready (TTSPage.fileOutput f)).
  { intros f. repeat split. apply downloadName_fixed, endsWith_audio. reflexivity. }
  assert (Hfiles : forall l, Forall ready (map TTSPage.fileOutput l)).
  { intros l. induction l as [|f l IH]; simpl; constructor; [apply Hfile|exact IH]. }
  assert (Htext : ready (TTSPage.textOutput typed)) by (repeat split).
  assert (Hmerged : forall prefix mergedText,
             ready (TTSPage.mergedOutput (prefix ++ "_merged_audio.mp3") mergedText)).
  { intros prefix mergedText. repeat split.
    apply downloadName_fixed, endsWith_audio. reflexivity. }
  destruct (0 <? len typed) eqn:Htyped;
    destruct successFiles as [|f1 [|f2 rest]] eqn:Hsuccess.
  - (* typed text only *)
    exists []. simpl. split; [reflexivity|]. split; [reflexivity|].
    repeat constructor.
  - (* typed text and one file *)
    eexists. simpl. split; [reflexivity|]. split; [eexists; reflexivity|].
    repeat constructor; try apply Hfile.
    apply downloadName_fixed. repeat apply endsWith_cons.
    apply endsWith_audio. reflexivity.
  - (* typed text and several files *)
    simpl. rewrite find_file_outputs. simpl. rewrite updateMerged_file_outputs. simpl.
    rewrite texts_of_file_outputs.
    eexists. split; [reflexivity|]. split; [eexists; reflexivity|].
    repeat (constructor; [first [exact Htext|apply Hfile]|]).
    apply Forall_app. split; [apply Hfiles|]. repeat constructor.
  - (* nothing *)
    exists []. simpl. split; [reflexivity|]. split; [reflexivity|]. constructor.
  - (* one file *)
    exists []. simpl. split; [reflexivity|]. split; [reflexivity|].
    repeat constructor; apply Hfile.
  - (* several files *)
    simpl. rewrite texts_of_file_outputs.
    eexists. split; [reflexivity|]. split; [eexists; reflexivity|].
    repeat (constructor; [apply Hfile|]).
    apply Forall_app. split; [apply Hfiles|].
    constructor; [apply Hmerged|constructor].
Qed.

(** * Uploads *)

Section Uploads.

Import FileUtils.
Import UseFileUpload.

Variable readFileAsText : File -> jsstring + string.
Variable generateFileId : nat -> string.

Lemma processFile_processed (fileId : string) (file : File) :
  processed readFileAsText file (processFile readFileAsText fileId file).
Proof.
  unfold processed, processFile.
  destruct (valid (validateFile file)) eqn:Hvalid; simpl.
  - destruct (readFileAsText file) as [text|message] eqn:Hread; simpl.
    + split; [reflexivity|]. split; [reflexivity|]. left. auto.
    + split; [reflexivity|]. split; [reflexivity|]. right.
      split; [reflexivity|]. split; [reflexivity|]. right.
      split; [reflexivity|]. exists message. auto.
  - split; [reflexivity|]. split; [reflexivity|]. right.
    split; [reflexivity|]. split; [reflexivity|]. left. auto.
Qed.

Lemma processAll_processed (filesToProcess : list File) :
  forall rank,
    Forall2 (processed readFileAsText) filesToProcess
            (processAll readFileAsText generateFileId rank filesToProcess).
Proof.
  induction filesToProcess as [|file rest IH]; intros rank; simpl; constructor;
    [apply processFile_processed|apply IH].
Qed.

End Uploads.

(** X18. What [addFiles] does to the list.  The entries already there
    stay, in their order, and the new entries come after them: one for
    each of the first files given, as many as there are free places among
    [MAX_FILES], in the order given.  So a list within the limit stays
    within it.  Every new entry has the name and the size of its file and
    is settled: [success], for a file that passes [validateFile] and was
    read, with the text read as content; or [error], with no content,
    and as error the message of [validateFile] or of the failed read. *)
Theorem addFiles_capacity
  (readFileAsText : FileUtils.File -> jsstring + string)
  (generateFileId : nat -> string)
  (files : list UseFileUpload.UploadedFile) (fileArray : list FileUtils.File) :
  let result :=
    fst (UseFileUpload.addFiles readFileAsText generateFileId files fileArray) in
  let free := Z.to_nat (UseFileUpload.MAX_FILES - Z.of_nat (length files)) in
  exists added,
    result = files ++ added
    /\ length added = Nat.min (length fileArray) free
    /\ (Z.of_nat (length files) <= UseFileUpload.MAX_FILES ->
        Z.of_nat (length result) <= UseFileUpload.MAX_FILES)
    /\ Forall2 (processed readFileAsText) (firstn free fileArray) added.
Proof.
  intros result free. unfold result, free, UseFileUpload.addFiles.
  destruct fileArray as [|file rest].
  - exists []. simpl. rewrite app_nil_r, firstn_nil.
    split; [reflexivity|]. split; [reflexivity|]. split; [lia|constructor].
  - set (fileArray := file :: rest).
    destruct (Z.leb_spec (UseFileUpload.MAX_FILES - Z.of_nat (length files)) 0)
      as [Hfull|Hfree].
    + exists []. simpl fst. rewrite app_nil_r.
      replace (Z.to_nat (UseFileUpload.MAX_FILES - Z.of_nat (length files)))
        with 0%nat by lia.
      split; [reflexivity|]. split; [rewrite Nat.min_0_r; reflexivity|].
      split; [lia|constructor].
    + cbv zeta. simpl fst.
      set (slots := Z.to_nat (UseFileUpload.MAX_FILES - Z.of_nat (length files))).
      pose proof (processAll_processed readFileAsText generateFileId
                    (firstn slots fileArray) 0) as Hall.
      exists (UseFileUpload.processAll readFileAsText generateFileId 0
                (firstn slots fileArray)).
      split; [reflexivity|].
      pose proof (Forall2_length _ _ _ Hall) as Hlen.
      rewrite length_firstn in Hlen.
      split; [rewrite <- Hlen; apply Nat.min_comm|]. split; [|exact Hall].
      intros _. rewrite length_app, <- Hlen. unfold slots. lia.
Qed.

Section AcceptedNames.

Import FileUtils.

Lemma lowerAscii_letters (c : ascii) :
  (lowerAscii c = "."%char -> c = "."%char)
  /\ (lowerAscii c = "t"%char -> c = "t"%char \/ c = "T"%char)
  /\ (lowerAscii c = "x"%char -> c = "x"%char \/ c = "X"%char).
Proof.
  assert (Hcode : forall target upper,
             (nat_of_ascii target < 65 \/ 90 < nat_of_ascii target)%nat ->
             (upper + 32 = nat_of_ascii target)%nat ->
             lowerAscii c = target ->
             c = target \/ ((65 <= upper <= 90)%nat /\ c = ascii_of_nat upper)).
  { intros target upper Hout Hupper. unfold lowerAscii.
    pose proof (nat_ascii_bounded c) as Hbound.
    destruct ((65 <=? nat_of_ascii c)%nat && (nat_of_ascii c <=? 90)%nat) eqn:Hrange;
      [|auto].
    apply andb_prop in Hrange as [Hlow Hhigh].
    apply Nat.leb_le in Hlow, Hhigh. intros H.
    apply (f_equal nat_of_ascii) in H. rewrite nat_ascii_embedding in H by lia.
    right. split; [lia|].
    rewrite <- (ascii_nat_embedding c). f_equal. lia. }
  assert (Hdot : (nat_of_ascii "." < 65)%nat) by (apply Nat.ltb_lt; reflexivity).
  assert (Ht : (90 < nat_of_ascii "t")%nat) by (apply Nat.ltb_lt; reflexivity).
  assert (Hx : (90 < nat_of_ascii "x")%nat) by (apply Nat.ltb_lt; reflexivity).
  split; [|split]; intros H.
  - destruct (Hcode "."%char 14%nat (or_introl Hdot) eq_refl H) as [Hc|[Hr _]];
      [exact Hc|lia].
  - destruct (Hcode "t"%char 84%nat (or_intror Ht) eq_refl H) as [Hc|[_ Hc]];
      [left|right]; exact Hc.
  - destruct (Hcode "x"%char 88%nat (or_intror Hx) eq_refl H) as [Hc|[_ Hc]];
      [left|right]; exact Hc.
Qed.

Lemma toLowerCase_units (s : string) :
  list_ascii_of_string (toLowerCase s) = map lowerAscii (list_ascii_of_string s).
Proof. apply list_ascii_of_string_of_list_ascii. Qed.

Lemma toLowerCase_app (a b : string) :
  toLowerCase (a ++ b) = (toLowerCase a ++ toLowerCase b)%string.
Proof.
  unfold toLowerCase. rewrite list_ascii_of_string_app, map_app.
  generalize (map lowerAscii (list_ascii_of_string a)) as l.
  intros l. induction l as [|c l IH]; simpl; [reflexivity|rewrite IH; reflexivity].
Qed.

Lemma string_of_list_ascii_app (l1 l2 : list ascii) :
  string_of_list_ascii (l1 ++ l2)
  = (string_of_list_ascii l1 ++ string_of_list_ascii l2)%string.
Proof. induction l1 as [|c l IH]; simpl; [reflexivity|rewrite IH; reflexivity]. Qed.

(** A name whose lower-case form ends in [.txt] loses its last four
    characters to [stripTxt]. *)
Lemma stripTxt_accepted (name : string) :
  UseTTSControls.endsWith (toLowerCase name) ".txt" = true ->
  exists extension,
    name = (TTSPage.stripTxt name ++ extension)%string
    /\ toLowerCase extension = ".txt"%string.
Proof.
  unfold UseTTSControls.endsWith.
  rewrite !toLowerCase_units, length_map.
  set (units := list_ascii_of_string name).
  intros H. apply andb_prop in H as [Hlen Heq].
  apply Nat.leb_le in Hlen. apply String.eqb_eq in Heq.
  apply (f_equal list_ascii_of_string) in Heq.
  rewrite list_ascii_of_string_of_list_ascii in Heq.
  rewrite skipn_map in Heq. simpl in Hlen, Heq.
  unfold TTSPage.stripTxt. fold units.
  pose proof (firstn_skipn (length units - 4) units) as Hparts.
  destruct (skipn (length units - 4) units) as [|d [|t1 [|x [|t2 [|extra tail]]]]];
    try discriminate Heq.
  injection Heq as Hd Ht1 Hx Ht2.
  apply (proj1 (lowerAscii_letters d)) in Hd.
  pose proof (proj1 (proj2 (lowerAscii_letters t1)) Ht1) as Hc1.
  pose proof (proj2 (proj2 (lowerAscii_letters x)) Hx) as Hc2.
  pose proof (proj1 (proj2 (lowerAscii_letters t2)) Ht2) as Hc3.
  assert (Hmatch : Ascii.eqb d "." && TTSPage.sameLetter t1 "t" "T"
                   && TTSPage.sameLetter x "x" "X" && TTSPage.sameLetter t2 "t" "T"
                   = true).
  { subst d. destruct Hc1 as [-> | ->], Hc2 as [-> | ->], Hc3 as [-> | ->];
      reflexivity. }
  rewrite Hmatch. exists (string_of_list_ascii [d; t1; x; t2]). split.
  - rewrite <- string_of_list_ascii_app, Hparts. unfold units.
    symmetry. apply string_of_list_ascii_of_string.
  - unfold toLowerCase. rewrite list_ascii_of_string_of_list_ascii. simpl.
    rewrite Ht1, Hx, Ht2. subst d. reflexivity.
Qed.

End AcceptedNames.

(** X19. Which files are accepted, and what becomes of their names.
    [validateFile] accepts a file exactly when its size is not zero and
    at most [MAX_FILE_SIZE], its type is empty or [text/plain], and its
    name is some base followed by [.txt] in any mix of cases; the base is
    then what [handleConvert] names the output after, [stripTxt] taking
    those four characters off. *)
Theorem accepted_files (file : FileUtils.File) :
  FileUtils.valid (FileUtils.validateFile file) = true
  <-> (FileUtils.fileSize file <> 0
       /\ FileUtils.fileSize file <= FileUtils.MAX_FILE_SIZE
       /\ (FileUtils.fileType file = EmptyString
           \/ FileUtils.fileType file = "text/plain"%string)
       /\ exists extension,
            FileUtils.fileName file
            = (TTSPage.stripTxt (FileUtils.fileName file) ++ extension)%string
            /\ FileUtils.toLowerCase extension = ".txt"%string).
Proof.
  unfold FileUtils.validateFile.
  destruct (UseTTSControls.endsWith (FileUtils.toLowerCase (FileUtils.fileName file))
              ".txt") eqn:Hname; simpl negb; cbv iota.
  - pose proof (stripTxt_accepted _ Hname) as Hext.
    destruct (String.eqb_spec (FileUtils.fileType file) "") as [Hempty|Hempty];
      [|destruct (String.eqb_spec (FileUtils.fileType file) "text/plain")
          as [Hplain|Hplain]]; simpl; try (split; [discriminate|tauto]).
    all: destruct (Z.ltb_spec FileUtils.MAX_FILE_SIZE (FileUtils.fileSize file));
      simpl; [split; [discriminate|lia]|].
    all: destruct (Z.eqb_spec (FileUtils.fileSize file) 0);
      simpl; [split; [discriminate|lia]|].
    all: split; [intros _|reflexivity].
    all: unfold FileUtils.MAX_FILE_SIZE in *.
    all: split; [assumption|]; split; [lia|]; split; [tauto|exact Hext].
  - simpl. split; [discriminate|]. intros (_ & _ & _ & extension & Hfile & Hlower).
    rewrite Hfile, toLowerCase_app, Hlower, endsWith_app in Hname. discriminate.
Qed.

(** * The preview and the merged text *)

Section Gluing.

Lemma forallb_ws_rev (s : jsstring) : forallb is_ws (rev s) = forallb is_ws s.
Proof.
  induction s as [|c s IH]; [reflexivity|]. simpl.
  rewrite forallb_app, IH. simpl. rewrite andb_true_r. apply andb_comm.
Qed.

Lemma dropWhile_blank_prefix (w x : jsstring) :
  forallb is_ws w = true -> dropWhile is_ws (w ++ x) = dropWhile is_ws x.
Proof.
  induction w as [|c w IH]; [reflexivity|]. simpl. intros H.
  apply andb_prop in H as [Hc Hw]. rewrite Hc. apply IH. exact Hw.
Qed.

Lemma dropWhile_visible_prefix (x w : jsstring) :
  forallb is_ws x = false -> dropWhile is_ws (x ++ w) = dropWhile is_ws x ++ w.
Proof.
  induction x as [|c x IH]; [discriminate|]. simpl.
  destruct (is_ws c); [exact IH|reflexivity].
Qed.

Lemma dropWhile_prefix_blank (s : jsstring) :
  exists pre, s = pre ++ dropWhile is_ws s /\ forallb is_ws pre = true.
Proof.
  induction s as [|c r (pre & IH & Hpre)]; simpl.
  - exists []. split; reflexivity.
  - destruct (is_ws c) eqn:Hc.
    + exists (c :: pre). simpl. rewrite Hc, Hpre. split; [f_equal; exact IH|reflexivity].
    + exists []. split; reflexivity.
Qed.

Lemma trim_blank_prefix (w x : jsstring) :
  forallb is_ws w = true -> trim (w ++ x) = trim x.
Proof.
  intros Hw. unfold trim, trimStart. rewrite dropWhile_blank_prefix by exact Hw.
  reflexivity.
Qed.

Lemma trimEnd_blank_suffix (y w : jsstring) :
  forallb is_ws w = true -> trimEnd (y ++ w) = trimEnd y.
Proof.
  intros Hw. unfold trimEnd. rewrite rev_app_distr, dropWhile_blank_prefix;
    [reflexivity|]. rewrite forallb_ws_rev. exact Hw.
Qed.

Lemma trimEnd_visible_suffix (p y : jsstring) :
  forallb is_ws y = false -> trimEnd (p ++ y) = p ++ trimEnd y.
Proof.
  intros Hy. unfold trimEnd.
  rewrite rev_app_distr, dropWhile_visible_prefix, rev_app_distr, rev_involutive;
    [reflexivity|]. rewrite forallb_ws_rev. exact Hy.
Qed.

Lemma trim_blank_suffix (x w : jsstring) :
  forallb is_ws w = true -> trim (x ++ w) = trim x.
Proof.
  intros Hw. destruct (forallb is_ws x) eqn:Hx.
  - rewrite (proj2 (trim_nil_iff x) Hx). apply trim_nil_iff.
    rewrite forallb_app, Hx, Hw. reflexivity.
  - unfold trim, trimStart. rewrite dropWhile_visible_prefix by exact Hx.
    apply trimEnd_blank_suffix. exact Hw.
Qed.

(** A text is blank, or has a last character that is not whitespace. *)
Lemma last_visible (s : jsstring) :
  forallb is_ws s = true
  \/ exists before c after,
       s = before ++ c :: after /\ is_ws c = false /\ forallb is_ws after = true.
Proof.
  induction s as [|d r [Hblank|(before & c & after & -> & Hc & Hafter)]].
  - left. reflexivity.
  - destruct (is_ws d) eqn:Hd.
    + left. simpl. rewrite Hd. exact Hblank.
    + right. exists [], d, r. auto.
  - right. exists (d :: before), c, after. auto.
Qed.

(** And a first one. *)
Lemma first_visible (s : jsstring) :
  forallb is_ws s = true
  \/ exists before c after,
       s = before ++ c :: after /\ is_ws c = false /\ forallb is_ws before = true.
Proof.
  destruct (dropWhile_prefix_blank s) as (pre & Hs & Hpre).
  destruct (dropWhile is_ws s) as [|c after] eqn:Hdrop.
  - left. apply dropWhile_nil_iff. exact Hdrop.
  - right. exists pre, c, after. split; [exact Hs|]. split; [|exact Hpre].
    eapply dropWhile_head. exact Hdrop.
Qed.

Lemma flushRun_blank (run : jsstring) :
  forallb is_ws run = true -> forallb is_ws (flushRun run) = true.
Proof.
  destruct run as [|a [|b run]]; simpl; intros H; [reflexivity|exact H|reflexivity].
Qed.

Lemma flushRun_long (run : jsstring) :
  (2 <= length run)%nat -> flushRun run = [SPACE].
Proof. destruct run as [|a [|b run]]; simpl; intros H; [lia|lia|reflexivity]. Qed.

Lemma replaceWsRuns_blank_prefix (w : jsstring) :
  forallb is_ws w = true ->
  forall run s, replaceWsRuns run (w ++ s) = replaceWsRuns (rev w ++ run) s.
Proof.
  induction w as [|c w IH]; intros Hw run s; [reflexivity|].
  simpl in Hw. apply andb_prop in Hw as [Hc Hw]. simpl. rewrite Hc, IH by exact Hw.
  rewrite <- app_assoc. reflexivity.
Qed.

Lemma replaceWsRuns_visible (run : jsstring) (c : N) (s : jsstring) :
  is_ws c = false ->
  replaceWsRuns run (c :: s) = flushRun run ++ replaceWsRuns [] (c :: s).
Proof. intros Hc. simpl. rewrite Hc. reflexivity. Qed.

Lemma replaceWsRuns_split (c : N) (s2 : jsstring) :
  is_ws c = false ->
  forall s1 run,
    replaceWsRuns run (s1 ++ c :: s2)
    = replaceWsRuns run (s1 ++ [c]) ++ replaceWsRuns [] s2.
Proof.
  intros Hc. induction s1 as [|d s1 IH]; intros run; simpl.
  - rewrite Hc. simpl. rewrite <- app_assoc. reflexivity.
  - destruct (is_ws d); [apply IH|].
    rewrite IH, <- app_assoc. reflexivity.
Qed.

Lemma replaceWsRuns_ends (c : N) :
  is_ws c = false ->
  forall s1 run, exists body, replaceWsRuns run (s1 ++ [c]) = body ++ [c].
Proof.
  intros Hc. induction s1 as [|d s1 IH]; intros run; simpl.
  - rewrite Hc. exists (flushRun run). reflexivity.
  - destruct (is_ws d); [apply IH|].
    destruct (IH []) as [body ->]. exists (flushRun run ++ d :: body).
    rewrite <- app_assoc. reflexivity.
Qed.

(** The run read before the text does not show after trimming. *)
Lemma removeExtraWhitespaces_run (s : jsstring) :
  forall run, forallb is_ws run = true ->
    trim (replaceWsRuns run s) = removeExtraWhitespaces s.
Proof.
  unfold removeExtraWhitespaces.
  assert (Hany : forall run1 run2,
             forallb is_ws run1 = true -> forallb is_ws run2 = true ->
             trim (replaceWsRuns run1 s) = trim (replaceWsRuns run2 s)).
  { induction s as [|c r IH]; intros run1 run2 H1 H2; simpl.
    - rewrite (proj2 (trim_nil_iff _) (flushRun_blank run1 H1)).
      rewrite (proj2 (trim_nil_iff _) (flushRun_blank run2 H2)). reflexivity.
    - destruct (is_ws c) eqn:Hc.
      + apply IH; simpl; rewrite Hc; assumption.
      + rewrite !trim_blank_prefix by (apply flushRun_blank; assumption).
        reflexivity. }
  intros run Hrun. apply Hany; [exact Hrun|reflexivity].
Qed.

Lemma removeExtraWhitespaces_blank_prefix (w s : jsstring) :
  forallb is_ws w = true ->
  removeExtraWhitespaces (w ++ s) = removeExtraWhitespaces s.
Proof.
  intros Hw. unfold removeExtraWhitespaces at 1.
  rewrite replaceWsRuns_blank_prefix by exact Hw.
  apply removeExtraWhitespaces_run.
  rewrite app_nil_r, forallb_ws_rev. exact Hw.
Qed.

Lemma removeExtraWhitespaces_blank (s : jsstring) :
  forallb is_ws s = true -> removeExtraWhitespaces s = [].
Proof. apply removeExtraWhitespaces_nil_iff. Qed.

Lemma removeExtraWhitespaces_blank_suffix (s w : jsstring) :
  forallb is_ws w = true ->
  removeExtraWhitespaces (s ++ w) = removeExtraWhitespaces s.
Proof.
  intros Hw.
  destruct (last_visible s) as [Hs|(before & c & after & -> & Hc & Hafter)].
  - rewrite !removeExtraWhitespaces_blank; [reflexivity|exact Hs|].
    rewrite forallb_app, Hs, Hw. reflexivity.
  - unfold removeExtraWhitespaces. rewrite <- app_assoc. simpl app.
    rewrite (replaceWsRuns_split c (after ++ w) Hc before []).
    rewrite (replaceWsRuns_split c after Hc before []).
    rewrite !trim_blank_suffix; [reflexivity| |].
    + rewrite replaceWsRuns_blank by reflexivity. exact Hafter.
    + rewrite replaceWsRuns_blank by reflexivity.
      rewrite forallb_app, Hafter, Hw. reflexivity.
Qed.

Lemma removeExtraWhitespaces_trim (s : jsstring) :
  removeExtraWhitespaces (trim s) = removeExtraWhitespaces s.
Proof.
  destruct (dropWhile_prefix_blank s) as (pre & Hs & Hpre).
  destruct (dropWhile_prefix_blank (rev (dropWhile is_ws s))) as (post & Hrev & Hpost).
  assert (Hmid : dropWhile is_ws s = trim s ++ rev post).
  { unfold trim, trimEnd, trimStart.
    rewrite <- rev_app_distr, <- Hrev, rev_involutive. reflexivity. }
  rewrite Hs at 2. rewrite Hmid.
  rewrite removeExtraWhitespaces_blank_prefix by exact Hpre.
  rewrite removeExtraWhitespaces_blank_suffix; [reflexivity|].
  rewrite forallb_ws_rev. exact Hpost.
Qed.

Lemma glue_nil_r (x : jsstring) : glue x [] = x.
Proof. destruct x; reflexivity. Qed.

(** Two texts with a run of two or more whitespace characters between
    them. *)
Lemma removeExtraWhitespaces_glue (a r b : jsstring) :
  forallb is_ws r = true -> (2 <= length r)%nat ->
  removeExtraWhitespaces (a ++ r ++ b)
  = glue (removeExtraWhitespaces a) (removeExtraWhitespaces b).
Proof.
  intros Hr Hlen.
  destruct (last_visible a) as [Ha|(a0 & c & ta & -> & Hc & Hta)].
  { rewrite (removeExtraWhitespaces_blank a Ha). simpl glue.
    rewrite !removeExtraWhitespaces_blank_prefix by assumption. reflexivity. }
  destruct (first_visible b) as [Hb|(lb & d & b0 & -> & Hd & Hlb)].
  { rewrite (removeExtraWhitespaces_blank b Hb), glue_nil_r.
    apply removeExtraWhitespaces_blank_suffix.
    rewrite forallb_app, Hr, Hb. reflexivity. }
  set (run := ta ++ r ++ lb).
  assert (Hrun : forallb is_ws run = true).
  { unfold run. rewrite !forallb_app, Hta, Hr, Hlb. reflexivity. }
  assert (Hlong : (2 <= length (rev run ++ []))%nat).
  { rewrite app_nil_r, length_rev. unfold run. rewrite !length_app. lia. }
  replace ((a0 ++ c :: ta) ++ r ++ lb ++ d :: b0) with (a0 ++ c :: run ++ d :: b0)
    by (unfold run; rewrite <- !app_assoc; reflexivity).
  destruct (replaceWsRuns_ends c Hc a0 []) as [body Hbody].
  assert (Hleft : removeExtraWhitespaces (a0 ++ c :: ta)
                  = dropWhile is_ws (body ++ [c])).
  { unfold removeExtraWhitespaces. rewrite (replaceWsRuns_split c ta Hc), Hbody.
    rewrite trim_blank_suffix by (rewrite replaceWsRuns_blank by reflexivity; exact Hta).
    unfold trim, trimStart.
    assert (Hvisible : forallb is_ws (body ++ [c]) = false).
    { rewrite forallb_app. simpl. rewrite Hc. apply andb_false_r. }
    destruct (dropWhile_prefix_blank (body ++ [c])) as (pre & Hsplit & Hpre).
    destruct (dropWhile is_ws (body ++ [c])) as [|x rest] eqn:Hdrop.
    { apply dropWhile_nil_iff in Hdrop. congruence. }
    assert (Hend : exists front, x :: rest = front ++ [c]).
    { destruct (exists_last (l := x :: rest) ltac:(discriminate)) as (front & y & Hxy).
      exists front. rewrite Hxy in Hsplit |- *. rewrite app_assoc in Hsplit.
      apply app_inj_tail in Hsplit as [_ ->]. reflexivity. }
    destruct Hend as [front ->]. apply trimEnd_id. exact Hc. }
  assert (Hright : removeExtraWhitespaces (lb ++ d :: b0)
                   = trimEnd (replaceWsRuns [] (d :: b0))).
  { rewrite removeExtraWhitespaces_blank_prefix by exact Hlb.
    unfold removeExtraWhitespaces, trim, trimStart. simpl replaceWsRuns.
    rewrite Hd. simpl. rewrite Hd. reflexivity. }
  assert (Hwhole : removeExtraWhitespaces (a0 ++ c :: run ++ d :: b0)
                   = dropWhile is_ws (body ++ [c])
                       ++ SPACE :: trimEnd (replaceWsRuns [] (d :: b0))).
  { unfold removeExtraWhitespaces.
    rewrite (replaceWsRuns_split c _ Hc), Hbody.
    rewrite (replaceWsRuns_blank_prefix run Hrun), (replaceWsRuns_visible _ d b0 Hd).
    rewrite (flushRun_long _ Hlong).
    unfold trim, trimStart.
    rewrite dropWhile_visible_prefix
      by (rewrite forallb_app; simpl; rewrite Hc; apply andb_false_r).
    rewrite (trimEnd_visible_suffix (dropWhile is_ws (body ++ [c]))).
    - simpl replaceWsRuns. rewrite Hd. simpl app.
      change (SPACE :: d :: replaceWsRuns [] b0)
        with ([SPACE] ++ d :: replaceWsRuns [] b0).
      rewrite trimEnd_visible_suffix; [reflexivity|]. simpl. rewrite Hd. reflexivity.
    - simpl replaceWsRuns. rewrite Hd. simpl. rewrite Hd. reflexivity. }
  rewrite Hwhole, Hleft, Hright.
  assert (Hx : dropWhile is_ws (body ++ [c]) <> []).
  { intros Hnil. apply dropWhile_nil_iff in Hnil.
    rewrite forallb_app in Hnil. simpl in Hnil. rewrite Hc in Hnil.
    rewrite andb_false_r in Hnil. discriminate. }
  assert (Hy : trimEnd (replaceWsRuns [] (d :: b0)) <> []).
  { simpl replaceWsRuns. rewrite Hd. simpl app.
    change (d :: replaceWsRuns [] b0) with ([] ++ d :: replaceWsRuns [] b0).
    intros Hnil.
    assert (Htrim : trim (d :: replaceWsRuns [] b0) = []).
    { unfold trim, trimStart. simpl. rewrite Hd. exact Hnil. }
    apply trim_nil_iff in Htrim. simpl in Htrim. rewrite Hd in Htrim. discriminate. }
  destruct (dropWhile is_ws (body ++ [c])); [congruence|].
  destruct (trimEnd (replaceWsRuns [] (d :: b0))); [congruence|]. reflexivity.
Qed.

Lemma removeExtraWhitespaces_join (parts : list jsstring) :
  removeExtraWhitespaces (join UseFileUpload.BLANK_LINE parts)
  = glueAll (map removeExtraWhitespaces parts).
Proof.
  induction parts as [|p [|q rest] IH].
  - reflexivity.
  - simpl. rewrite glue_nil_r. reflexivity.
  - change (join UseFileUpload.BLANK_LINE (p :: q :: rest))
      with (p ++ UseFileUpload.BLANK_LINE ++ join UseFileUpload.BLANK_LINE (q :: rest)).
    rewrite removeExtraWhitespaces_glue by (try reflexivity; simpl; lia).
    rewrite IH. reflexivity.
Qed.

Lemma glueAll_present (parts : list jsstring) :
  glueAll (map removeExtraWhitespaces
               (List.filter (fun part => 0 <? len part) parts))
  = glueAll (map removeExtraWhitespaces parts).
Proof.
  induction parts as [|p parts IH]; [reflexivity|]. simpl.
  destruct p as [|c p]; simpl; [exact IH|].
  unfold glueAll in *. simpl. rewrite IH. reflexivity.
Qed.

End Gluing.

Section Preview.

Import UseTTS.
Import TTSPage.

Lemma file_outputs_not_merged (l : list UseFileUpload.UploadedFile) (o : AudioOutput) :
  In o (map fileOutput l) -> isMerged o = false.
Proof. intros H. apply in_map_iff in H as (f & <- & _). reflexivity. Qed.

(** The text of the merged output, or of the only output. *)
Lemma buildOutputs_merged_text (files : list UseFileUpload.UploadedFile)
      (inputText : jsstring) (output : AudioOutput) :
  In output (buildOutputs files inputText) ->
  isMerged output = true \/ length (buildOutputs files inputText) = 1%nat ->
  text output
  = join UseFileUpload.BLANK_LINE (map text (pageSources files inputText)).
Proof.
  unfold pageSources, buildOutputs.
  set (successFiles := List.filter UseFileUpload.isSuccess files).
  set (typed := trim inputText).
  destruct (0 <? len typed) eqn:Htyped;
    destruct successFiles as [|f1 [|f2 rest]] eqn:Hsuccess.
  - simpl. intros [<-|[]] _. reflexivity.
  - simpl. intros [<-|[<-|[<-|[]]]] [H|H]; try discriminate H. reflexivity.
  - simpl. rewrite find_file_outputs. simpl. rewrite updateMerged_file_outputs. simpl.
    rewrite texts_of_file_outputs, length_app, length_map. simpl.
    intros [<-|[<-|[<-|Hin]]] [H|H]; try discriminate H; try lia.
    apply in_app_iff in Hin as [Hin|[<-|[]]]; [|reflexivity].
    apply file_outputs_not_merged in Hin. congruence.
  - simpl. intros [].
  - simpl. intros [<-|[]] _. reflexivity.
  - simpl. rewrite texts_of_file_outputs, length_app, length_map. simpl.
    intros [<-|[<-|Hin]] [H|H]; try discriminate H; try lia.
    apply in_app_iff in Hin as [Hin|[<-|[]]]; [|reflexivity].
    apply file_outputs_not_merged in Hin. congruence.
Qed.

Lemma glueAll_read (files : list UseFileUpload.UploadedFile) :
  glueAll (map removeExtraWhitespaces
               (map (fun file => trim (UseFileUpload.content file))
                    (List.filter
                       (fun file => UseFileUpload.isSuccess file
                                    && negb (len (UseFileUpload.content file) =? 0))
                       files)))
  = glueAll (map removeExtraWhitespaces
                 (map UseFileUpload.content
                      (List.filter UseFileUpload.isSuccess files))).
Proof.
  induction files as [|f files IH]; [reflexivity|]. simpl.
  destruct (UseFileUpload.isSuccess f); simpl; [|exact IH].
  destruct (Z.eqb_spec (len (UseFileUpload.content f)) 0) as [Hempty|Hsome]; simpl.
  - assert (Hnil : UseFileUpload.content f = []).
    { destruct (UseFileUpload.content f); [reflexivity|].
      unfold len in Hempty. simpl in Hempty. lia. }
    rewrite Hnil. exact IH.
  - unfold glueAll in *. simpl. rewrite IH, removeExtraWhitespaces_trim.
    reflexivity.
Qed.

Lemma combinedText_normalised (files : list UseFileUpload.UploadedFile)
      (inputText : jsstring) :
  removeExtraWhitespaces (combinedText files inputText)
  = removeExtraWhitespaces
      (join UseFileUpload.BLANK_LINE (map text (pageSources files inputText))).
Proof.
  unfold combinedText, UseFileUpload.mergedContent, pageSources.
  rewrite !removeExtraWhitespaces_join, glueAll_present, map_app,
    texts_of_file_outputs.
  simpl map. unfold glueAll at 1. simpl fold_right. rewrite glue_nil_r.
  rewrite removeExtraWhitespaces_join, glueAll_present, glueAll_read.
  destruct (trim inputText) as [|c typed] eqn:Htyped; simpl; reflexivity.
Qed.

End Preview.

(** X20. The merged output says what the preview shows.  The text of
    the merged output, and that of the output when there is only one, is
    not always the text the page shows before the conversion: the page
    trims the text of every file and leaves out the files without text.
    Once normalised, as [convertMultiple] normalises a text before it
    cuts it, the two are the same. *)
Theorem merged_output_matches_preview
  (files : list UseFileUpload.UploadedFile) (inputText : jsstring)
  (output : UseTTS.AudioOutput) :
  In output (TTSPage.buildOutputs files inputText) ->
  UseTTS.sourceType output = UseTTS.source_merged
  \/ length (TTSPage.buildOutputs files inputText) = 1%nat ->
  removeExtraWhitespaces (UseTTS.text output)
  = removeExtraWhitespaces (TTSPage.combinedText files inputText).
Proof.
  intros Hin Hwhich.
  rewrite combinedText_normalised.
  rewrite (buildOutputs_merged_text files inputText output Hin); [reflexivity|].
  destruct Hwhich as [Hmerged|Hone]; [left|right; exact Hone].
  unfold TTSPage.isMerged. rewrite Hmerged. reflexivity.
Qed.

Lemma merged_output_matches_preview_witness :
  let read := fun content : string =>
    {| UseFileUpload.id := "f"; UseFileUpload.name := "f.txt"; UseFileUpload.size := 3;
       UseFileUpload.content := lit content;
       UseFileUpload.status := UseFileUpload.file_success;
       UseFileUpload.error := None |} in
  let files := [read "Hi. "%string; read "  "%string; read " Yo."%string] in
  let merged :=
    TTSPage.mergedOutput "f_f_f_merged_audio.mp3"
      (lit "Hi. " ++ UseFileUpload.BLANK_LINE ++ lit "  " ++ UseFileUpload.BLANK_LINE
         ++ lit " Yo.") in
  TTSPage.combinedText files [] = lit "Hi." ++ UseFileUpload.BLANK_LINE ++ lit "Yo."
  /\ removeExtraWhitespaces (UseTTS.text merged)
     = removeExtraWhitespaces (TTSPage.combinedText files []).
Proof.
  intros read files merged. split; [reflexivity|].
  apply (merged_output_matches_preview files [] merged).
  - right. right. right. left. reflexivity.
  - left. reflexivity.
Defined.

(** * The MP3 encoding *)

Section PCM.

Import Mp3Encoding.

Lemma quot_negative (a d : Z) :
  0 < d -> - d < a -> a < 0 ->
  - 32767 <= Z.quot (a * 32768) d <= 0.
Proof.
  intros Hd Hlow Hneg.
  replace (a * 32768) with (- (- a * 32768)) by ring.
  rewrite Z.quot_opp_l by lia.
  rewrite Z.quot_div_nonneg by lia.
  assert (0 <= (- a * 32768) / d) by (apply Z.div_pos; lia).
  assert ((- a * 32768) / d < 32768) by (apply Z.div_lt_upper_bound; lia).
  lia.
Qed.

Lemma quot_positive (a d : Z) :
  0 < d -> 0 <= a -> a < d ->
  0 <= Z.quot (a * 32767) d <= 32766.
Proof.
  intros Hd Hpos Hhigh.
  rewrite Z.quot_div_nonneg by lia.
  assert (0 <= (a * 32767) / d) by (apply Z.div_pos; lia).
  assert ((a * 32767) / d < 32767) by (apply Z.div_lt_upper_bound; lia).
  lia.
Qed.

Lemma toInt16_small (q : Q) :
  - 32768 <= Z.quot (Qnum q) (Zpos (Qden q)) <= 32767 ->
  toInt16 (Finite q) = Z.quot (Qnum q) (Zpos (Qden q)).
Proof. intros H. unfold toInt16. cbv zeta. rewrite Z.mod_small by lia. lia. Qed.

Lemma pcm_sample (x : float) :
  match scale (clampUnit x) with
  | Finite q =>
      - 32768 <= Z.quot (Qnum q) (Zpos (Qden q)) <= 32767
      /\ toInt16 (Finite q) = Z.quot (Qnum q) (Zpos (Qden q))
  | NotANumber => x = NotANumber
  | _ => False
  end.
Proof.
  assert (Hhighest : - 32768 <= Z.quot (Qnum (1 * inject_Z 32767))
                                      (Zpos (Qden (1 * inject_Z 32767))) <= 32767
                     /\ toInt16 (Finite (1 * inject_Z 32767))
                        = Z.quot (Qnum (1 * inject_Z 32767))
                                 (Zpos (Qden (1 * inject_Z 32767)))).
  { split; [split; vm_compute; discriminate|reflexivity]. }
  assert (Hlowest : - 32768 <= Z.quot (Qnum (-1 * inject_Z 32768))
                                     (Zpos (Qden (-1 * inject_Z 32768))) <= 32767
                    /\ toInt16 (Finite (-1 * inject_Z 32768))
                       = Z.quot (Qnum (-1 * inject_Z 32768))
                                (Zpos (Qden (-1 * inject_Z 32768)))).
  { split; [split; vm_compute; discriminate|reflexivity]. }
  destruct x as [[a d]| | |]; [|exact Hhighest|exact Hlowest|reflexivity].
  unfold clampUnit.
  destruct (Qle_bool (a # d) (-1)) eqn:Hlow; [exact Hlowest|].
  destruct (Qle_bool 1 (a # d)) eqn:Hhigh; [exact Hhighest|].
  unfold Qle_bool in Hlow, Hhigh. simpl in Hlow, Hhigh.
  apply Z.leb_gt in Hlow, Hhigh.
  unfold scale, isNegative, Qle_bool. simpl Qnum. simpl Qden.
  destruct (Z.leb_spec (0 * Zpos d) (a * 1)) as [Hpos|Hneg]; simpl negb; cbv iota.
  - assert (Hrange : 0 <= Z.quot (Qnum ((a # d) * inject_Z 32767))
                              (Zpos (Qden ((a # d) * inject_Z 32767))) <= 32766).
    { simpl. rewrite Pos.mul_1_r. apply quot_positive; lia. }
    split; [lia|]. apply toInt16_small. lia.
  - assert (Hrange : - 32767 <= Z.quot (Qnum ((a # d) * inject_Z 32768))
                                       (Zpos (Qden ((a # d) * inject_Z 32768))) <= 0).
    { simpl. rewrite Pos.mul_1_r. apply quot_negative; lia. }
    split; [lia|]. apply toInt16_small. lia.
Qed.

End PCM.

(** X21. The conversion to 16-bit samples never wraps around.  Each
    sample is clamped to [-1, 1] and scaled, by 32768 when negative and
    by 32767 otherwise; what is stored is that product truncated toward
    zero, which lies between -32768 and 32767, so that the reduction
    modulo 2^16 made by the [Int16Array] changes nothing.  The infinities
    are clamped like any other value; only [NaN] goes through the
    clamping, and is stored as 0. *)
Theorem floatTo16BitPCM_never_wraps (input : list Mp3Encoding.float) :
  Forall2 (fun x stored =>
             match Mp3Encoding.scale (Mp3Encoding.clampUnit x) with
             | Mp3Encoding.Finite q =>
                 stored = Z.quot (Qnum q) (Zpos (Qden q))
                 /\ - 32768 <= stored <= 32767
             | Mp3Encoding.NotANumber => x = Mp3Encoding.NotANumber /\ stored = 0
             | _ => False
             end)
          input (Mp3Encoding.floatTo16BitPCM input).
Proof.
  induction input as [|x input IH]; simpl; constructor; [|exact IH].
  pose proof (pcm_sample x) as Hx.
  destruct (Mp3Encoding.scale (Mp3Encoding.clampUnit x)) as [q| | |];
    try contradiction.
  - destruct Hx as [Hrange Hstored]. rewrite Hstored. split; [reflexivity|exact Hrange].
  - split; [exact Hx|reflexivity].
Qed.

Section Blocks.

Import Mp3Encoding.

Variable Encoder : Type.
Variable Mp3Encoder : nat -> Z -> Z -> Encoder.
Variable encodeBuffer : Encoder -> list Z -> option (list Z) -> Encoder * list Byte.byte.
Variable flush : Encoder -> list Byte.byte.

Lemma encodeBlocks_calls (numChannels : nat) (leftInt16 rightInt16 : list Z)
      (numSamples : nat) (starts : list nat) :
  forall mp3encoder,
    snd (encodeBlocks Encoder encodeBuffer numChannels leftInt16 rightInt16 numSamples
           starts mp3encoder)
    = map (fun i =>
             if (numChannels =? 1)%nat
             then (subarray leftInt16 i numSamples, None)
             else (subarray leftInt16 i numSamples,
                   Some (subarray rightInt16 i numSamples)))
          starts.
Proof.
  induction starts as [|i later IH]; intros mp3encoder; simpl; [reflexivity|].
  destruct (encodeBuffer mp3encoder _ _) as [next mp3buf].
  specialize (IH next).
  destruct (encodeBlocks Encoder encodeBuffer numChannels leftInt16 rightInt16
              numSamples later next) as [[final mp3Data] calls].
  simpl in *. rewrite IH. reflexivity.
Qed.

(** The blocks from block [k0] on, [count] of them, put end to end. *)
Lemma blocks_concat (typed : list Z) (numSamples : nat) (count : nat) :
  forall k0,
    concat (map (fun i => subarray typed i numSamples)
                (map (fun k => (k * sampleBlockSize)%nat) (seq k0 count)))
    = firstn (Nat.min ((k0 + count) * sampleBlockSize) numSamples - k0 * sampleBlockSize)
             (skipn (k0 * sampleBlockSize) typed).
Proof.
  unfold subarray, sampleBlockSize.
  induction count as [|count IH]; intros k0; simpl.
  - replace (Nat.min ((k0 + 0) * 1152) numSamples - k0 * 1152)%nat with 0%nat by lia.
    reflexivity.
  - rewrite IH.
    destruct (Nat.le_gt_cases (k0 * 1152 + 1152) numSamples) as [Hfull|Hshort].
    + replace (Nat.min (k0 * 1152 + 1152) numSamples - k0 * 1152)%nat
        with 1152%nat by lia.
      replace (skipn (S k0 * 1152) typed) with (skipn 1152 (skipn (k0 * 1152) typed))
        by (rewrite skipn_skipn; f_equal; lia).
      rewrite take_take_drop. f_equal. lia.
    + replace (Nat.min ((S k0 + count) * 1152) numSamples - S k0 * 1152)%nat
        with 0%nat by lia.
      simpl firstn. rewrite app_nil_r. f_equal. lia.
Qed.

Lemma blockStarts_cover (numSamples : nat) :
  (numSamples
   <= (numSamples + (sampleBlockSize - 1)) / sampleBlockSize * sampleBlockSize)%nat
  /\ ((numSamples + (sampleBlockSize - 1)) / sampleBlockSize * sampleBlockSize
      < numSamples + sampleBlockSize)%nat.
Proof.
  unfold sampleBlockSize. simpl Nat.sub.
  pose proof (Nat.div_mod_eq (numSamples + 1151) 1152) as Hdiv.
  pose proof (Nat.mod_upper_bound (numSamples + 1151) 1152 ltac:(lia)) as Hmod.
  lia.
Qed.

Lemma subarray_length (typed : list Z) (k : nat) :
  (k * sampleBlockSize < length typed)%nat ->
  length (subarray typed (k * sampleBlockSize) (length typed))
  = Nat.min sampleBlockSize (length typed - k * sampleBlockSize).
Proof.
  intros Hk. unfold subarray. rewrite length_firstn, length_skipn. lia.
Qed.

Lemma blocks_whole (typed : list Z) (numSamples : nat) :
  length typed = numSamples ->
  concat (map (fun i => subarray typed i numSamples) (blockStarts numSamples)) = typed.
Proof.
  intros Hlen. unfold blockStarts. rewrite blocks_concat.
  destruct (blockStarts_cover numSamples) as [Hcover _].
  change (0 * sampleBlockSize)%nat with 0%nat. rewrite skipn_O.
  apply firstn_all2. rewrite Nat.add_0_l, Nat.sub_0_r. lia.
Qed.

Lemma blockStarts_in (numSamples i : nat) :
  In i (blockStarts numSamples) ->
  exists k, i = (k * sampleBlockSize)%nat /\ (k * sampleBlockSize < numSamples)%nat.
Proof.
  unfold blockStarts. intros Hin. apply in_map_iff in Hin as (k & <- & Hk).
  apply in_seq in Hk. exists k. split; [reflexivity|].
  destruct (blockStarts_cover numSamples) as [_ Hclose].
  unfold sampleBlockSize in *. lia.
Qed.

End Blocks.

(** X22. The encoder is given every sample once, in order, in frames
    of 1152.  For a buffer with at least one channel, the left blocks
    passed to [encodeBuffer], put end to end, are the 16-bit samples of
    the first channel; every block holds between 1 and 1152 samples, and
    every block but the last holds 1152.  A buffer with one channel
    passes no right block; a buffer with more passes with every left
    block the block of the second channel at the same place, and never
    reads a further channel.  The result is a blob of type
    [audio/mp3]. *)
Theorem audioBufferToMp3_blocks
  (Encoder : Type) (Mp3Encoder : nat -> Z -> Z -> Encoder)
  (encodeBuffer : Encoder -> list Z -> option (list Z) -> Encoder * list Byte.byte)
  (flush : Encoder -> list Byte.byte)
  (rate : Z) (leftChannel : list Mp3Encoding.float)
  (others : list (list Mp3Encoding.float)) :
  let audioBuffer := {| sampleRate := rate; channelData := leftChannel :: others |} in
  let run := Mp3Encoding.audioBufferToMp3 Encoder Mp3Encoder encodeBuffer flush
               audioBuffer in
  let calls := snd run in
  (exists bytes, fst run = Returned {| blobBytes := bytes; blobType := "audio/mp3" |})
  /\ concat (map fst calls) = Mp3Encoding.floatTo16BitPCM leftChannel
  /\ Forall (fun call => (1 <= length (fst call) <= Mp3Encoding.sampleBlockSize)%nat)
            calls
  /\ (forall k, (S k < length calls)%nat ->
        length (fst (nth k calls ([], None))) = Mp3Encoding.sampleBlockSize)
  /\ match others with
     | [] => Forall (fun call => snd call = None) calls
     | second :: _ =>
         exists rightBlocks,
           map snd calls = map Some rightBlocks
           /\ (length second = length leftChannel ->
               concat rightBlocks = Mp3Encoding.floatTo16BitPCM second)
     end.
Proof.
  intros audioBuffer run calls.
  set (leftInt16 := Mp3Encoding.floatTo16BitPCM leftChannel).
  set (numSamples := length leftInt16).
  set (rightInt16 :=
         Mp3Encoding.floatTo16BitPCM
           match others with second :: _ => second | [] => leftChannel end).
  assert (Hcalls : calls
                   = map (fun i =>
                            if (S (length others) =? 1)%nat
                            then (Mp3Encoding.subarray leftInt16 i numSamples, None)
                            else (Mp3Encoding.subarray leftInt16 i numSamples,
                                  Some (Mp3Encoding.subarray rightInt16 i numSamples)))
                         (Mp3Encoding.blockStarts numSamples)).
  { unfold calls, run, Mp3Encoding.audioBufferToMp3, audioBuffer.
    cbn [channelData sampleRate]. cbv zeta.
    match goal with
    | |- context [Mp3Encoding.encodeBlocks _ _ ?nc ?l ?r ?n ?st ?enc] =>
        pose proof (encodeBlocks_calls Encoder encodeBuffer nc l r n st enc) as Hsnd;
        destruct (Mp3Encoding.encodeBlocks Encoder encodeBuffer nc l r n st enc)
          as [[final mp3Data] blocks]
    end.
    simpl in Hsnd |- *. exact Hsnd. }
  assert (Hblob : exists bytes,
             fst run = Returned {| blobBytes := bytes; blobType := "audio/mp3" |}).
  { unfold run, Mp3Encoding.audioBufferToMp3, audioBuffer.
    cbn [channelData sampleRate]. cbv zeta.
    match goal with
    | |- context [Mp3Encoding.encodeBlocks _ _ ?nc ?l ?r ?n ?st ?enc] =>
        destruct (Mp3Encoding.encodeBlocks Encoder encodeBuffer nc l r n st enc)
          as [[final mp3Data] blocks]
    end.
    simpl. eexists. reflexivity. }
  set (count := ((numSamples + (Mp3Encoding.sampleBlockSize - 1))
                 / Mp3Encoding.sampleBlockSize)%nat).
  assert (Hlength : length calls = count).
  { rewrite Hcalls. unfold Mp3Encoding.blockStarts.
    rewrite !length_map, length_seq. reflexivity. }
  assert (Hleft : map fst calls
                  = map (fun i => Mp3Encoding.subarray leftInt16 i numSamples)
                        (Mp3Encoding.blockStarts numSamples)).
  { rewrite Hcalls, map_map. apply map_ext. intros i.
    destruct (S (length others) =? 1)%nat; reflexivity. }
  split; [exact Hblob|]. split; [|split; [|split]].
  - rewrite Hleft. apply blocks_whole. reflexivity.
  - apply Forall_forall. intros call Hin.
    apply list_elem_of_In, (in_map fst) in Hin. rewrite Hleft in Hin.
    apply in_map_iff in Hin as (i & <- & Hi).
    apply blockStarts_in in Hi as (k & -> & Hk).
    unfold numSamples. rewrite subarray_length by exact Hk.
    unfold Mp3Encoding.sampleBlockSize in *. fold numSamples. lia.
  - intros k Hk.
    pose proof (map_nth fst calls (@nil Z, @None (list Z)) k) as Hnth.
    unfold Mp3Encoding.Call in *. rewrite <- Hnth, Hleft. clear Hnth.
    unfold Mp3Encoding.blockStarts. fold count.
    rewrite map_map.
    rewrite (nth_indep _ (fst ([], None))
               ((fun x => Mp3Encoding.subarray leftInt16
                            (x * Mp3Encoding.sampleBlockSize) numSamples) 0%nat))
      by (rewrite length_map, length_seq; lia).
    rewrite (map_nth (fun x => Mp3Encoding.subarray leftInt16
                                 (x * Mp3Encoding.sampleBlockSize) numSamples)).
    rewrite seq_nth by lia. simpl Nat.add.
    destruct (blockStarts_cover numSamples) as [_ Hclose]. fold count in Hclose.
    unfold numSamples. rewrite subarray_length;
      unfold Mp3Encoding.sampleBlockSize in *; fold numSamples; lia.
  - destruct others as [|second rest].
    + apply Forall_forall. intros call Hin. rewrite Hcalls in Hin.
      apply list_elem_of_In, in_map_iff in Hin as (i & <- & _). reflexivity.
    + exists (map (fun i => Mp3Encoding.subarray rightInt16 i numSamples)
                  (Mp3Encoding.blockStarts numSamples)).
      split.
      * rewrite Hcalls, !map_map. apply map_ext. intros i. reflexivity.
      * intros Hsame. apply blocks_whole.
        unfold rightInt16, numSamples, leftInt16, Mp3Encoding.floatTo16BitPCM.
        rewrite !length_map. exact Hsame.
Qed.

(** * Progress of the batch *)

Section BatchProgress.

Import UseTTS.

Variable mergeBuffers : list ArrayBuffer -> completion Blob.
Variable reportChunkProgress : bool.
Variable network : nat -> nat -> RequestOutcome.

Lemma itemsDone_app (l1 l2 : list Effect) :
  itemsDone (l1 ++ l2) = itemsDone l1 ++ itemsDone l2.
Proof. apply flat_map_app. Qed.

Lemma itemsDone_chunkEvents (i : nat) (events : list Event) :
  Forall chunkEvent events -> itemsDone (map (During i) events) = [].
Proof.
  induction 1 as [|e events He _ IH]; [reflexivity|].
  change (map (During i) (e :: events)) with ([During i e] ++ map (During i) events).
  rewrite itemsDone_app, IH.
  destruct e as [| |[]| |]; simpl in He; try contradiction; reflexivity.
Qed.

Lemma sendTextForTTS_chunkEvents (input : jsstring) (j : nat)
      (callback : option (jsnum -> list Event)) (outcome : RequestOutcome) :
  (forall p, match callback with
             | Some f => Forall chunkEvent (f p)
             | None => True
             end) ->
  Forall chunkEvent (snd (sendTextForTTS input j callback outcome)).
Proof.
  intros Hcallback. unfold sendTextForTTS.
  assert (Hprogress :
            Forall chunkEvent
                   (match callback with
                    | Some f => flat_map (fun ev => f (downloadPercentage (len input) ev))
                                         (downloadProgress outcome)
                    | None => []
                    end)).
  { destruct callback as [f|]; [|constructor].
    induction (downloadProgress outcome) as [|ev evs IH]; [constructor|].
    simpl. apply Forall_app. split; [apply (Hcallback _)|exact IH]. }
  destruct (response outcome); simpl; constructor; try exact I;
    [exact Hprogress|].
  apply Forall_app. split; [exact Hprogress|]. repeat constructor.
Qed.

Lemma requestChunks_chunkEvents (i : nat) (completed totalItems : Z) (count : nat)
      (chunks : list jsstring) :
  forall j audioBuffers,
    Forall chunkEvent
           (snd (requestChunks reportChunkProgress network i completed totalItems
                   count chunks j audioBuffers)).
Proof.
  induction chunks as [|chunk rest IH]; intros j audioBuffers; simpl; [constructor|].
  match goal with
  | |- context [sendTextForTTS chunk j ?cb (network i j)] =>
      pose proof (sendTextForTTS_chunkEvents chunk j cb (network i j)) as Hsend;
      set (callback := cb) in *
  end.
  assert (Hevents : Forall chunkEvent
                           (snd (sendTextForTTS chunk j callback (network i j)))).
  { apply Hsend. unfold callback.
    destruct reportChunkProgress; [intros p; repeat constructor|exact (fun _ => I)]. }
  destruct (sendTextForTTS chunk j callback (network i j)) as [[data|] events];
    simpl in Hevents; [|exact Hevents].
  specialize (IH (S j) (audioBuffers ++ [data])).
  destruct (requestChunks reportChunkProgress network i completed totalItems count
              rest (S j) (audioBuffers ++ [data])) as [result later].
  simpl in *. apply Forall_app. split; assumption.
Qed.

Lemma synthesize_chunkEvents (i : nat) (completed totalItems : Z) (output : AudioOutput) :
  Forall chunkEvent
         (snd (synthesize mergeBuffers reportChunkProgress network i completed
                 totalItems output)).
Proof.
  unfold synthesize.
  destruct (splitTextIntoChunks (removeExtraWhitespaces (text output)) CHUNK_SIZE)
    as [chunks|message|]; try constructor.
  pose proof (requestChunks_chunkEvents i completed totalItems (length chunks)
                chunks 0 []) as Hevents.
  destruct (requestChunks reportChunkProgress network i completed totalItems
              (length chunks) chunks 0 []) as [[audioBuffers|message|] events];
    simpl in *; try assumption.
  destruct (mergeBuffers audioBuffers); simpl; assumption.
Qed.

Lemma convertItem_counted (totalItems : Z) (a : nat) (st : BatchState) :
  (a < length (updatedOutputs st))%nat ->
  counted totalItems a st ->
  counted totalItems (S a)
          (convertItem mergeBuffers reportChunkProgress network totalItems st a).
Proof.
  intros Ha [Hcompleted Htrace].
  destruct (lookup_lt_is_Some_2 (updatedOutputs st) a Ha) as [output Hlookup].
  unfold counted, convertItem. rewrite Hlookup.
  assert (Htake : forall record l,
             length l = length (updatedOutputs st) ->
             firstn a l = firstn a (updatedOutputs st) ->
             firstn (S a) (<[a := record]> l)
             = firstn a (updatedOutputs st) ++ [record]).
  { intros record l Hlen Hsame.
    rewrite (take_S_r _ a record)
      by (apply list_lookup_insert_eq; lia).
    rewrite take_insert_ge by lia. rewrite Hsame. reflexivity. }
  destruct (isBlank (text output)).
  { cbv zeta. simpl updatedOutputs. simpl completedItems. simpl trace.
    rewrite (Htake _ _ eq_refl eq_refl), List.filter_app, itemsDone_app.
    simpl. rewrite !app_nil_r. split; assumption. }
  pose proof (synthesize_chunkEvents a (completedItems st) totalItems output) as Hevents.
  destruct (synthesize mergeBuffers reportChunkProgress network a (completedItems st)
              totalItems output) as [[url|message|] events];
    cbv zeta; simpl updatedOutputs; simpl completedItems; simpl trace;
    simpl in Hevents.
  - rewrite (Htake _ (<[a := markProcessing output]> (updatedOutputs st)))
      by (rewrite ?length_insert; try reflexivity; apply take_insert_ge; lia).
    rewrite List.filter_app, length_app. simpl.
    rewrite !itemsDone_app, map_app, itemsDone_app.
    rewrite (itemsDone_chunkEvents a events Hevents). simpl.
    rewrite Htrace, Hcompleted, app_nil_r.
    split; [lia|].
    rewrite (Nat.add_comm _ 1). simpl Nat.add. rewrite seq_S, map_app. simpl.
    repeat f_equal. lia.
  - rewrite (Htake _ (<[a := markProcessing output]> (updatedOutputs st)))
      by (rewrite ?length_insert; try reflexivity; apply take_insert_ge; lia).
    rewrite List.filter_app. simpl. rewrite !app_nil_r.
    rewrite !itemsDone_app, map_app, itemsDone_app.
    rewrite (itemsDone_chunkEvents a events Hevents). simpl.
    rewrite !app_nil_r. split; assumption.
  - rewrite (take_S_r _ a (markProcessing output))
      by (apply list_lookup_insert_eq; lia).
    rewrite take_insert_ge by lia.
    rewrite List.filter_app. simpl. rewrite !app_nil_r.
    rewrite !itemsDone_app.
    rewrite (itemsDone_chunkEvents a events Hevents). simpl.
    rewrite !app_nil_r. split; assumption.
Qed.

Lemma convert_loop_counted (totalItems : Z) (n : nat) :
  forall a st,
    (a + n <= length (updatedOutputs st))%nat ->
    counted totalItems a st ->
    counted totalItems (a + n)
            (fold_left (convertItem mergeBuffers reportChunkProgress network totalItems)
                       (seq a n) st).
Proof.
  induction n as [|n IH]; intros a st Hrange Hcounted; simpl.
  - rewrite Nat.add_0_r. exact Hcounted.
  - replace (a + S n)%nat with (S a + n)%nat by lia.
    destruct (lookup_lt_is_Some_2 (updatedOutputs st) a ltac:(lia)) as [output Ha].
    apply IH.
    + rewrite (convertItem_outputs mergeBuffers reportChunkProgress network totalItems
                 st a output Ha), length_insert. lia.
    + apply convertItem_counted; [lia|exact Hcounted].
Qed.

End BatchProgress.

(** X23. The progress of the batch counts the successes.  With a key
    and an assembler that returns or throws, the values [setProgress]
    gets after an item succeeded are, in order, 1 of n, 2 of n, and so on
    up to s of n, where n is the number of items and s the number of
    records returned as [success]: an item that fails leaves the
    progress where it was. *)
Theorem convertMultiple_progress
  (mergeBuffers : list ArrayBuffer -> completion Blob) (reportChunkProgress : bool)
  (network : nat -> nat -> UseTTS.RequestOutcome) (apiKey : string)
  (outputs : list UseTTS.AudioOutput) :
  apiKey <> EmptyString ->
  (forall buffers, mergeBuffers buffers <> Diverged) ->
  let run :=
    UseTTS.convertMultiple mergeBuffers reportChunkProgress network apiKey outputs in
  itemsDone (snd run)
  = map (fun k => (Z.of_nat k, Z.of_nat (length outputs)))
        (seq 1 (length (List.filter UseTTS.isSuccess (fst run)))).
Proof.
  intros Hkey _ run. unfold run, UseTTS.convertMultiple.
  destruct apiKey as [|c apiKey]; [congruence|]. cbv zeta. simpl fst. simpl snd.
  match goal with
  | |- context [fold_left ?f (seq 0 ?n) ?st] =>
      pose proof (convert_loop_counted mergeBuffers reportChunkProgress network
                    (Z.of_nat (length outputs)) n 0 st (Nat.le_refl _)) as Hloop;
      pose proof (convert_loop_outputs mergeBuffers reportChunkProgress network
                    (Z.of_nat (length outputs)) n 0 st) as [Hlen _];
      set (final := fold_left f (seq 0 n) st) in *
  end.
  destruct Hloop as [_ Htrace]; [split; reflexivity|].
  simpl UseTTS.updatedOutputs in Hlen.
  rewrite Nat.add_0_l, firstn_all2 in Htrace by lia.
  rewrite itemsDone_app, Htrace.
  destruct (0 <? _)%nat; simpl; apply app_nil_r.
Qed.

Lemma convertMultiple_progress_witness :
  let run := UseTTS.convertMultiple UseTTS.mergeBuffersConcat false
               (fun i _ => if (i =? 1)%nat then UseTTS.refused 500
                           else UseTTS.delivered [Byte.x01])
               "key"
               [UseTTS.typedItem "a" "Hi."; UseTTS.typedItem "b" "Yo.";
                UseTTS.typedItem "c" "Ok."] in
  itemsDone (snd run) = [(1, 3); (2, 3)].
Proof.
  intros run.
  assert (Hkey : "key"%string <> EmptyString) by discriminate.
  assert (Hmerge : forall buffers, UseTTS.mergeBuffersConcat buffers <> Diverged)
    by (intros buffers; discriminate).
  exact (convertMultiple_progress UseTTS.mergeBuffersConcat false _ "key" _ Hkey Hmerge).
Defined.

(** * The page as it was *)

Section Legacy.

Import UseTTS.
Import LegacyPage.

Variable outcomes : nat -> RequestOutcome.

Lemma pageRequests_app (l1 l2 : list PageEvent) :
  pageRequests (l1 ++ l2) = pageRequests l1 ++ pageRequests l2.
Proof. apply flat_map_app. Qed.

Lemma pageToasts_app (l1 l2 : list PageEvent) :
  pageToasts (l1 ++ l2) = pageToasts l1 ++ pageToasts l2.
Proof. apply flat_map_app. Qed.

Lemma pushNonEmpty_app (yielded : list jsstring) (chunk : jsstring) :
  pushNonEmpty yielded chunk = yielded ++ nonEmpty [chunk].
Proof. destruct chunk; simpl; [rewrite app_nil_r|]; reflexivity. Qed.

(** The loop of the page against the loop of [chunkText] on the same
    text: the same cuts, whatever the requests do. *)
Lemma processLoop_chunkLoop (data : jsstring) (fuel : nat) :
  forall currentIndex chunkCount audioBuffers yielded,
    let run := processLoop outcomes fuel data currentIndex chunkCount audioBuffers in
    let sent := length (pageRequests (snd run)) in
    fst (chunkLoop fuel data currentIndex yielded)
    = yielded ++ nonEmpty (map fst (pageRequests (snd run)))
    /\ map snd (pageRequests (snd run)) = seq chunkCount sent
    /\ pageToasts (snd run) = unanswered outcomes chunkCount sent
    /\ match snd (chunkLoop fuel data currentIndex yielded) with
       | Returned _ =>
           fst run = Returned (audioBuffers ++ answered outcomes chunkCount sent)
       | Thrown message => fst run = Thrown message
       | Diverged => fst run = Diverged
       end.
Proof.
  induction fuel as [|fuel IH]; intros currentIndex chunkCount audioBuffers yielded;
    simpl; destruct (currentIndex <? len data);
    try (cbv zeta; simpl; rewrite ?app_nil_r; auto; fail).
  change 4000 with CHUNK_SIZE.
  destruct (findEnd false data CHUNK_SIZE currentIndex) as [endIndex|];
    [|cbv zeta; simpl; rewrite ?app_nil_r; auto].
  cbv zeta. set (chunk := trim (slice data currentIndex endIndex)).
  unfold sendTextForTTS.
  destruct (response (outcomes chunkCount)) as [fragment|failure] eqn:Hresponse.
  - specialize (IH endIndex (S chunkCount) (audioBuffers ++ [fragment])
                   (pushNonEmpty yielded chunk)).
    destruct (processLoop outcomes fuel data endIndex (S chunkCount)
                (audioBuffers ++ [fragment])) as [result later].
    cbv zeta in IH. simpl in IH |- *.
    destruct IH as (Hchunks & Hindices & Htoasts & Hresult).
    split; [rewrite Hchunks, pushNonEmpty_app, <- app_assoc;
            destruct chunk; reflexivity|].
    rewrite Hindices, Htoasts.
    unfold answered, unanswered. simpl. rewrite Hresponse. simpl.
    split; [reflexivity|]. split; [reflexivity|].
    destruct (snd (chunkLoop fuel data endIndex (pushNonEmpty yielded chunk)));
      try exact Hresult.
    rewrite Hresult, <- app_assoc. reflexivity.
  - specialize (IH endIndex (S chunkCount) audioBuffers (pushNonEmpty yielded chunk)).
    destruct (processLoop outcomes fuel data endIndex (S chunkCount) audioBuffers)
      as [result later].
    cbv zeta in IH. simpl in IH |- *.
    destruct IH as (Hchunks & Hindices & Htoasts & Hresult).
    split; [rewrite Hchunks, pushNonEmpty_app, <- app_assoc;
            destruct chunk; reflexivity|].
    rewrite Hindices, Htoasts.
    unfold answered, unanswered. simpl. rewrite Hresponse. simpl.
    split; [reflexivity|]. split; [reflexivity|]. exact Hresult.
Qed.

(** Normalising a text that is trimmed leaves nothing to trim. *)
Lemma replaceWsRuns_trimmed (s : jsstring) :
  trim s = s -> trim (replaceWsRuns [] s) = replaceWsRuns [] s.
Proof.
  intros Htrim. destruct s as [|x r]; [reflexivity|].
  pose proof (trim_first _ x r Htrim) as Hx.
  destruct (exists_last (l := x :: r) ltac:(discriminate)) as (front & y & Hlast).
  assert (Hy : is_ws y = false).
  { apply (trim_last (x :: r) y front). rewrite Htrim. exact Hlast. }
  destruct (replaceWsRuns_ends y Hy front []) as [body Hbody].
  rewrite <- Hlast in Hbody.
  apply (trim_fixed _ (replaceWsRuns [] r) body x y); [|exact Hbody|exact Hx|exact Hy].
  simpl. rewrite Hx. reflexivity.
Qed.

End Legacy.

(** X24. The page as it was before the hooks goes on after a failed
    request.  With a text and a key, [splitTextAndProcess] cuts the text,
    normalised but not trimmed, where the loop of [chunkText] cuts it,
    and sends one request per cut, numbered from 0, whatever the requests
    before did; a cut that is empty once trimmed is sent as well.  When
    the cutting comes to its end, the audio is the fragments of the
    requests that were answered, put end to end, and the success toast
    follows the toasts of the requests that were not: there is one even
    if no request was answered.  When the cutting throws, the audio of
    the state stays and the message is shown.  For a text without
    whitespace at its ends, the cuts are those of [chunkText]. *)
Theorem legacy_page_goes_on_after_failures
  (outcomes : nat -> UseTTS.RequestOutcome) (apiKey : string)
  (audioUrl : option UseTTS.ObjectURL) (inputText : jsstring) :
  apiKey <> EmptyString ->
  inputText <> [] ->
  let data := LegacyPage.removeExtraWhitespaces inputText in
  let run := LegacyPage.splitTextAndProcess outcomes apiKey audioUrl inputText in
  let requests := pageRequests (snd run) in
  nonEmpty (map fst requests) = fst (chunkLoop (length data) data 0 [])
  /\ map snd requests = seq 0 (length requests)
  /\ match snd (chunkLoop (length data) data 0 []) with
     | Returned _ =>
         fst run
         = Some (UseTTS.createObjectURL
                   {| blobBytes := concat (answered outcomes 0 (length requests));
                      blobType := "audio/mp3" |})
         /\ pageToasts (snd run)
            = unanswered outcomes 0 (length requests) ++ [UseTTSControls.generatedToast]
     | Thrown message =>
         fst run = audioUrl
         /\ pageToasts (snd run)
            = unanswered outcomes 0 (length requests) ++ [UseTTS.errorToast message]
     | Diverged => False
     end
  /\ (trim inputText = inputText ->
      chunkLoop (length data) data 0 [] = chunkText inputText).
Proof.
  intros Hkey Htext data run requests.
  assert (Hrun : run
                 = let start :=
                     [LegacyPage.Hook
                        (UseTTSControls.Shared (UseTTS.ProgressSet (UseTTS.Exactly 0)));
                      LegacyPage.Hook
                        (UseTTSControls.Shared (UseTTS.ProcessingSet true))] in
                   let finally :=
                     [LegacyPage.Hook
                        (UseTTSControls.Shared (UseTTS.ProcessingSet false));
                      LegacyPage.Hook
                        (UseTTSControls.Shared (UseTTS.ProgressSet (UseTTS.Exactly 100)))] in
                   match LegacyPage.processLoop outcomes (length data) data 0 0 [] with
                   | (Returned audioBuffers, events) =>
                       let newAudioUrl :=
                         UseTTS.createObjectURL
                           {| blobBytes := concat audioBuffers;
                              blobType := "audio/mp3" |} in
                       (Some newAudioUrl,
                        start ++ events
                          ++ [LegacyPage.Hook
                                (UseTTSControls.AudioUrlSet (Some newAudioUrl));
                              LegacyPage.Hook
                                (UseTTSControls.Shared
                                   (UseTTS.ToastShown UseTTSControls.generatedToast))]
                          ++ finally)
                   | (Thrown errorMessage, events) =>
                       (audioUrl,
                        start ++ events
                          ++ [LegacyPage.Hook
                                (UseTTSControls.Shared
                                   (UseTTS.ToastShown (UseTTS.errorToast errorMessage)))]
                          ++ finally)
                   | (Diverged, events) => (audioUrl, start ++ events)
                   end).
  { unfold run, LegacyPage.splitTextAndProcess.
    destruct inputText as [|c rest]; [congruence|].
    destruct apiKey as [|k apiKey]; [congruence|]. reflexivity. }
  destruct (processLoop_chunkLoop outcomes data (length data) 0 0 [] [])
    as (Hchunks & Hindices & Htoasts & Hresult).
  pose proof (chunkLoop_ends data (length data) 0 [] ltac:(lia)
                ltac:(unfold len; lia)) as Hends.
  split; [|split; [|split]].
  4:{ intros Htrim. unfold chunkText, data, LegacyPage.removeExtraWhitespaces.
      unfold TextProcessing.removeExtraWhitespaces.
      rewrite (replaceWsRuns_trimmed inputText Htrim). reflexivity. }
  all: unfold requests; rewrite Hrun; clear Hrun; cbv zeta.
  all: destruct (LegacyPage.processLoop outcomes (length data) data 0 0 [])
         as [[audioBuffers|message|] events];
       simpl fst in *; simpl snd in *.
  all: destruct (snd (chunkLoop (length data) data 0 [])) as [[]|thrown|];
       try discriminate Hresult; try (destruct Hends; discriminate).
  all: unfold pageRequests, pageToasts in *; simpl;
       rewrite ?flat_map_app; simpl; rewrite ?app_nil_r.
  - symmetry. exact Hchunks.
  - symmetry. exact Hchunks.
  - exact Hindices.
  - exact Hindices.
  - injection Hresult as ->. split; [reflexivity|]. rewrite Htoasts. reflexivity.
  - injection Hresult as ->. split; [reflexivity|]. rewrite Htoasts. reflexivity.
Qed.

Lemma legacy_page_goes_on_after_failures_witness :
  let run := LegacyPage.splitTextAndProcess (fun _ => UseTTS.refused 401) "key" None
               (lit "Hi.") in
  fst run
  = Some (UseTTS.createObjectURL {| blobBytes := []; blobType := "audio/mp3" |})
  /\ pageToasts (snd run) = [LegacyPage.failedToast; UseTTSControls.generatedToast].
Proof.
  intros run.
  assert (Hkey : "key"%string <> EmptyString) by discriminate.
  assert (Htext : lit "Hi." <> []) by discriminate.
  exact (proj1 (proj2 (proj2 (legacy_page_goes_on_after_failures
                                (fun _ => UseTTS.refused 401) "key" None (lit "Hi.")
                                Hkey Htext)))).
Defined.

(** * The button *)

Section Button.

Import UseTTS.
Import TTSPage.

Lemma buildOutputs_sources (files : list UseFileUpload.UploadedFile)
      (inputText : jsstring) :
  exists merged, buildOutputs files inputText = pageSources files inputText ++ merged.
Proof.
  unfold pageSources, buildOutputs.
  set (successFiles := List.filter UseFileUpload.isSuccess files).
  destruct (0 <? len (trim inputText)) eqn:Htyped;
    destruct successFiles as [|f1 [|f2 rest]]; simpl;
    rewrite ?find_file_outputs; simpl; rewrite ?updateMerged_file_outputs; simpl;
    try (eexists; reflexivity); try (exists []; rewrite ?app_nil_r; reflexivity).
Qed.

Lemma join_some (sep : jsstring) (parts : list jsstring) :
  join sep parts <> [] -> parts <> [].
Proof. intros H ->. apply H. reflexivity. Qed.

Lemma nonblank_trim (s : jsstring) : trim s <> [] -> isBlank s = false.
Proof.
  intros H. destruct (isBlank s) eqn:Hblank; [|reflexivity].
  apply isBlank_iff, trim_nil_iff in Hblank. congruence.
Qed.

End Button.

(** X25. When the button is enabled there is something to send.  If
    [canConvert] holds, there is a key, no conversion is running, and the
    list [handleConvert] builds has an output whose text is not blank: the
    batch will not answer with the toast for a missing key, and not every
    item will be passed over for want of text. *)
Theorem enabled_button_has_something_to_send
  (apiKey : string) (isProcessing : bool)
  (files : list UseFileUpload.UploadedFile) (inputText : jsstring) :
  TTSPage.canConvert apiKey isProcessing files inputText = true ->
  apiKey <> EmptyString
  /\ isProcessing = false
  /\ exists output,
       In output (TTSPage.buildOutputs files inputText)
       /\ UseTTS.isBlank (UseTTS.text output) = false.
Proof.
  unfold TTSPage.canConvert. cbv zeta. intros H.
  apply andb_prop in H as [H Hidle]. apply andb_prop in H as [Hcontent Hkey].
  split; [intros ->; discriminate Hkey|].
  split; [destruct isProcessing; [discriminate Hidle|reflexivity]|].
  destruct (buildOutputs_sources files inputText) as [merged ->].
  apply Z.ltb_lt in Hcontent.
  assert (Hsome : TTSPage.combinedText files inputText <> []).
  { intros Hnil. rewrite Hnil in Hcontent. unfold len in Hcontent. simpl in Hcontent.
    lia. }
  unfold TTSPage.combinedText in Hsome. apply join_some in Hsome.
  unfold pageSources.
  destruct (trim inputText) as [|c typed] eqn:Htyped.
  - simpl in Hsome.
    destruct (UseFileUpload.mergedContent files) as [|m content] eqn:Hmerged;
      [simpl in Hsome; congruence|].
    assert (Hparts : UseFileUpload.mergedContent files <> []) by congruence.
    unfold UseFileUpload.mergedContent in Hparts. apply join_some in Hparts.
    destruct (List.filter _ (map _ _)) as [|part parts] eqn:Hfilter; [congruence|].
    assert (Hin : In part (part :: parts)) by (left; reflexivity).
    rewrite <- Hfilter in Hin. apply filter_In in Hin as [Hin Hlen].
    apply in_map_iff in Hin as (f & <- & Hf).
    apply filter_In in Hf as [Hf Hgood]. apply andb_prop in Hgood as [Hsuccess _].
    exists (TTSPage.fileOutput f). split.
    + apply in_or_app. left. simpl. apply in_map, filter_In. auto.
    + apply nonblank_trim. intros Hnil. simpl in Hnil. rewrite Hnil in Hlen.
      discriminate Hlen.
  - exists (TTSPage.textOutput (c :: typed)). split; [left; reflexivity|].
    apply nonblank_trim. simpl UseTTS.text. rewrite <- Htyped, trim_idempotent, Htyped.
    discriminate.
Qed.

Lemma enabled_button_has_something_to_send_witness :
  exists output,
    In output (TTSPage.buildOutputs [] (lit " Hi. "))
    /\ UseTTS.isBlank (UseTTS.text output) = false.
Proof.
  exact (proj2 (proj2 (enabled_button_has_something_to_send "key" false []
                         (lit " Hi. ") eq_refl))).
Defined.

Section LegacyAndHook.

Import UseTTS.
Import LegacyPage.

Lemma visible_member (l : jsstring) (i : nat) (c : N) :
  nth_error l i = Some c -> is_ws c = false -> forallb is_ws l = false.
Proof.
  revert i. induction l as [|d l IH]; intros [|i] Hnth Hc; simpl in *;
    try discriminate.
  - injection Hnth as ->. rewrite Hc. reflexivity.
  - rewrite (IH i Hnth Hc). apply andb_false_r.
Qed.

(** In a text that ends with a character that is not whitespace, no cut
    is blank. *)
Lemma cut_not_blank (t : jsstring) (currentIndex endIndex : Z) :
  (forall r c, t = r ++ [c] -> is_ws c = false) ->
  0 <= currentIndex < len t ->
  findEnd false t CHUNK_SIZE currentIndex = Some endIndex ->
  trim (slice t currentIndex endIndex) <> [].
Proof.
  intros Hlast Hcur Hend.
  destruct (findEnd_shape t CHUNK_SIZE ltac:(unfold CHUNK_SIZE; lia) false
              currentIndex endIndex ltac:(lia) Hend) as [Hprog Hshape].
  rewrite trim_nil_iff.
  rewrite slice_firstn_skipn by lia.
  unfold len in *.
  destruct Hshape as [[Hin Hperiod]|Hout].
  - rewrite (visible_member _ (Z.to_nat (endIndex - 1) - Z.to_nat currentIndex) PERIOD);
      [discriminate| |reflexivity].
    rewrite charAt_nth_error in Hperiod by lia.
    rewrite nth_error_firstn.
    destruct (Nat.ltb_spec (Z.to_nat (endIndex - 1) - Z.to_nat currentIndex)
                (Z.to_nat (Z.min endIndex (Z.of_nat (length t)))
                 - Z.to_nat currentIndex)) as [_|Hge]; [|lia].
    rewrite nth_error_skipn. rewrite <- Hperiod. f_equal. lia.
  - destruct (exists_last (l := t) ltac:(intros ->; simpl in Hcur; lia))
      as (r & c & Ht).
    pose proof (Hlast r c Ht) as Hc.
    rewrite (visible_member _ (length r - Z.to_nat currentIndex) c);
      [discriminate| |exact Hc].
    assert (Hlen : length t = S (length r)).
    { rewrite Ht, length_app. simpl. lia. }
    rewrite nth_error_firstn.
    destruct (Nat.ltb_spec (length r - Z.to_nat currentIndex)
                (Z.to_nat (Z.min endIndex (Z.of_nat (length t)))
                 - Z.to_nat currentIndex)) as [_|Hge]; [|lia].
    rewrite nth_error_skipn.
    replace (Z.to_nat currentIndex + (length r - Z.to_nat currentIndex))%nat
      with (length r) by lia.
    rewrite Ht at 1. rewrite nth_error_app2 by lia.
    rewrite Nat.sub_diag. reflexivity.
Qed.

Lemma processLoop_no_empty (outcomes : nat -> RequestOutcome) (data : jsstring)
      (fuel : nat) :
  (forall r c, data = r ++ [c] -> is_ws c = false) ->
  forall currentIndex chunkCount audioBuffers,
    0 <= currentIndex ->
    nonEmpty (map fst (pageRequests
                         (snd (processLoop outcomes fuel data currentIndex chunkCount
                                 audioBuffers))))
    = map fst (pageRequests
                 (snd (processLoop outcomes fuel data currentIndex chunkCount
                         audioBuffers))).
Proof.
  intros Hlast.
  induction fuel as [|fuel IH]; intros currentIndex chunkCount audioBuffers Hcur;
    simpl; destruct (Z.ltb_spec currentIndex (len data)) as [Hlt|Hge];
    try reflexivity.
  change 4000 with CHUNK_SIZE.
  destruct (findEnd false data CHUNK_SIZE currentIndex) as [endIndex|] eqn:Hend;
    [|reflexivity].
  pose proof (cut_not_blank data currentIndex endIndex Hlast ltac:(lia) Hend) as Hcut.
  pose proof (findEnd_progress data CHUNK_SIZE ltac:(unfold CHUNK_SIZE; lia) false
                currentIndex endIndex Hcur Hend) as Hprog.
  cbv zeta. unfold sendTextForTTS.
  destruct (response (outcomes chunkCount)) as [fragment|failure].
  - specialize (IH endIndex (S chunkCount) (audioBuffers ++ [fragment]) ltac:(lia)).
    destruct (processLoop outcomes fuel data endIndex (S chunkCount)
                (audioBuffers ++ [fragment])) as [result later].
    simpl in IH |- *. rewrite IH.
    destruct (trim (slice data currentIndex endIndex)); [congruence|reflexivity].
  - specialize (IH endIndex (S chunkCount) audioBuffers ltac:(lia)).
    destruct (processLoop outcomes fuel data endIndex (S chunkCount) audioBuffers)
      as [result later].
    simpl in IH |- *. rewrite IH.
    destruct (trim (slice data currentIndex endIndex)); [congruence|reflexivity].
Qed.

Lemma attemptedRequests_answered (outcomes : nat -> RequestOutcome)
      (fragment : nat -> ArrayBuffer) (chunks : list jsstring) :
  (forall j, response (outcomes j) = inl (fragment j)) ->
  forall first,
    attemptedRequests outcomes chunks first
    = combine chunks (seq first (length chunks)).
Proof.
  intros Hall. induction chunks as [|chunk rest IH]; intros first; simpl;
    [reflexivity|].
  rewrite Hall, IH. reflexivity.
Qed.

Lemma answered_all (outcomes : nat -> RequestOutcome) (fragment : nat -> ArrayBuffer) :
  (forall j, response (outcomes j) = inl (fragment j)) ->
  forall count first, answered outcomes first count = map fragment (seq first count).
Proof.
  intros Hall. unfold answered.
  induction count as [|count IH]; intros first; simpl; [reflexivity|].
  rewrite Hall, IH. reflexivity.
Qed.

Lemma combine_fst_snd {A B : Type} (l : list (A * B)) :
  combine (map fst l) (map snd l) = l.
Proof. induction l as [|[a b] l IH]; simpl; [reflexivity|rewrite IH; reflexivity]. Qed.

End LegacyAndHook.

(** X26. The hook says what the page said.  For a text without
    whitespace at its ends that the generator [chunkText] cuts to its
    end, with a key, when every request is answered, the page as it was
    and [convertToSpeech] under the concatenating assembler send the same
    requests and leave the same audio. *)
Theorem legacy_page_agrees_with_hook
  (outcomes : nat -> UseTTS.RequestOutcome) (fragment : nat -> ArrayBuffer)
  (apiKey : string) (audioUrl audioUrlRef : option UseTTS.ObjectURL)
  (inputText : jsstring) :
  apiKey <> EmptyString ->
  inputText <> [] ->
  trim inputText = inputText ->
  snd (chunkText inputText) = Returned tt ->
  (forall j, UseTTS.response (outcomes j) = inl (fragment j)) ->
  let page := LegacyPage.splitTextAndProcess outcomes apiKey audioUrl inputText in
  let hook :=
    UseTTSControls.convertToSpeech UseTTS.mergeBuffersConcat outcomes apiKey
      audioUrlRef inputText in
  pageRequests (snd page) = hookRequests (snd hook)
  /\ fst page = fst hook
  /\ exists chunks,
       chunkText inputText = (chunks, Returned tt)
       /\ fst page
          = Some (UseTTS.createObjectURL
                    {| blobBytes := concat (map fragment (seq 0 (length chunks)));
                       blobType := "audio/mp3" |}).
Proof.
  intros Hkey Htext Htrim Hends Hall page hook.
  remember (fst (chunkText inputText)) as chunks eqn:Hchunks_def.
  assert (Hgen : chunkText inputText = (chunks, Returned tt)).
  { rewrite Hchunks_def, <- Hends. apply surjective_pairing. }
  remember (replaceWsRuns [] inputText) as data eqn:Hdata_def.
  assert (Hfixed : trim data = data).
  { rewrite Hdata_def. apply replaceWsRuns_trimmed. exact Htrim. }
  assert (Hdata : TextProcessing.removeExtraWhitespaces inputText = data).
  { unfold TextProcessing.removeExtraWhitespaces. rewrite <- Hdata_def. exact Hfixed. }
  assert (Hlast : forall r c, data = r ++ [c] -> is_ws c = false).
  { intros r c Hrc. apply (trim_last data c r). rewrite <- Hrc. exact Hfixed. }
  assert (Hloop : chunkLoop (length data) data 0 [] = (chunks, Returned tt)).
  { rewrite <- Hgen. unfold chunkText. rewrite Hdata. reflexivity. }
  assert (Hblank : UseTTS.isBlank inputText = false).
  { apply nonblank_trim. rewrite Htrim. exact Htext. }
  assert (Hlen : (len inputText =? 0) = false).
  { destruct inputText; [congruence|reflexivity]. }
  assert (Hk : String.eqb apiKey "" = false).
  { destruct apiKey; [congruence|reflexivity]. }
  (* the page *)
  destruct (processLoop_chunkLoop outcomes data (length data) 0 0 [] [])
    as (Hchunks & Hindices & _ & Hresult).
  pose proof (processLoop_no_empty outcomes data (length data) Hlast 0 0 []
                ltac:(lia)) as Hfull.
  rewrite Hloop in Hchunks, Hresult. cbn [fst snd app] in Hchunks, Hresult.
  rewrite Hfull in Hchunks.
  assert (Hpage : pageRequests (snd page) = combine chunks (seq 0 (length chunks))
                  /\ fst page
                     = Some (UseTTS.createObjectURL
                               {| blobBytes :=
                                    concat (map fragment (seq 0 (length chunks)));
                                  blobType := "audio/mp3" |})).
  { unfold page, LegacyPage.splitTextAndProcess, LegacyPage.removeExtraWhitespaces.
    rewrite Hlen, Hk, <- Hdata_def. cbn [orb]. cbv zeta.
    destruct (LegacyPage.processLoop outcomes (length data) data 0 0 [])
      as [result events].
    cbn [fst snd] in Hchunks, Hindices, Hresult. subst result.
    assert (Hsent : length (pageRequests events) = length chunks).
    { rewrite Hchunks, length_map. reflexivity. }
    rewrite Hsent in *.
    rewrite (answered_all outcomes fragment Hall).
    cbn [fst snd]. split; [|reflexivity].
    rewrite !pageRequests_app. cbn [pageRequests flat_map app].
    rewrite app_nil_r.
    rewrite <- (combine_fst_snd (pageRequests events)), <- Hchunks, Hindices.
    reflexivity. }
  (* the hook *)
  pose (item := {| UseTTS.id := EmptyString; UseTTS.name := EmptyString;
                   UseTTS.filename := EmptyString;
                   UseTTS.sourceType := UseTTS.source_text; UseTTS.text := inputText;
                   UseTTS.audioUrl := None; UseTTS.status := UseTTS.status_pending;
                   UseTTS.error := None |}).
  assert (Hsplit : splitTextIntoChunks (TextProcessing.removeExtraWhitespaces inputText)
                     CHUNK_SIZE = Returned chunks).
  { unfold splitTextIntoChunks. rewrite removeExtraWhitespaces_fixed, Hdata.
    apply chunkLoop_splitLoop. exact Hloop. }
  pose proof (speak_value UseTTS.mergeBuffersConcat outcomes item) as Hvalue.
  destruct (speak_events UseTTS.mergeBuffersConcat outcomes item Hblank)
    as (Hreq & _).
  unfold conversion in Hvalue. unfold expectedRequests in Hreq.
  change (UseTTS.text item) with inputText in *.
  rewrite Hblank, Hsplit in Hreq. rewrite Hsplit in Hvalue.
  rewrite (fetchChunks_delivered outcomes fragment chunks 0 [])
    in Hvalue by (intros k _; apply Hall).
  rewrite (attemptedRequests_answered outcomes fragment chunks Hall) in Hreq.
  cbn [app] in Hvalue.
  assert (Hhook : hookRequests (snd hook) = combine chunks (seq 0 (length chunks))
                  /\ fst hook
                     = Some (UseTTS.createObjectURL
                               {| blobBytes :=
                                    concat (map fragment (seq 0 (length chunks)));
                                  blobType := "audio/mp3" |})).
  { unfold hook, UseTTSControls.convertToSpeech. rewrite Hblank.
    destruct apiKey as [|k key]; [congruence|].
    destruct (UseTTSControls.speak UseTTS.mergeBuffersConcat outcomes inputText)
      as [result events].
    cbn [fst snd] in Hvalue, Hreq. subst result.
    destruct audioUrlRef; cbv beta iota zeta delta [UseTTSControls.cleanupBlobUrl];
      cbn [fst snd]; (split; [|reflexivity]);
      unfold hookRequests in *; simpl;
      rewrite flat_map_app, Hreq; simpl; apply app_nil_r. }
  destruct Hpage as [Hpage_requests Hpage_audio].
  destruct Hhook as [Hhook_requests Hhook_audio].
  split; [congruence|]. split; [congruence|].
  exists chunks. split; [exact Hgen|exact Hpage_audio].
Qed.

Lemma legacy_page_agrees_with_hook_witness :
  let outcomes := fun _ : nat => UseTTS.delivered [Byte.x01; Byte.x02] in
  fst (LegacyPage.splitTextAndProcess outcomes "key" None (lit "Hi. Yo."))
  = fst (UseTTSControls.convertToSpeech UseTTS.mergeBuffersConcat outcomes "key" None
           (lit "Hi. Yo.")).
Proof.
  intros outcomes.
  assert (Hkey : "key"%string <> EmptyString) by discriminate.
  assert (Htext : lit "Hi. Yo." <> []) by discriminate.
  exact (proj1 (proj2 (legacy_page_agrees_with_hook outcomes
                         (fun _ => [Byte.x01; Byte.x02]) "key" None None
                         (lit "Hi. Yo.") Hkey Htext eq_refl eq_refl
                         (fun _ => eq_refl)))).
Defined.
